(** * SnapWright: a shallow embedding of the configuration, the screenshot
    cache, the browser pool and the capture/extract orchestrator.

    Conventions of the embedding.
    - A Python [str] that comes from a caller or from a web page (urls,
      selectors, device names, element texts, exception messages) is a
      [pystr]: the list of its code points.  Strings that the program itself
      produces out of ASCII (hex digests, JSON text, file names, attribute
      names) are Rocq [string]s, one [ascii] per byte.
    - A Python [int] is a [Z].  A naive [datetime] is the [Z] number of
      microseconds on its time line, a [timedelta] a [Z] number of
      microseconds.
    - Code that can raise returns an [outcome]; code that changes an object
      returns the new state next to it. *)

From Stdlib Require Import ZArith NArith QArith List String Ascii Bool Lia.
From Stdlib Require Import DecimalString DecimalZ DecimalPos.
From stdpp Require Import base option list gmap strings.

Local Open Scope string_scope.
Local Open Scope list_scope.

(** ** Python strings *)

Definition pystr : Type := list N.

(** An ASCII literal as a Python string. *)
Definition py (s : string) : pystr := map N_of_ascii (list_ascii_of_string s).

(** ** exceptions.py, and the foreign exceptions the code meets *)

Module Exceptions.

(** [BrowserError] and its five subclasses are the classes of exceptions.py.
    [PlaywrightError] stands for playwright.sync_api.Error and its
    subclasses; [ValueError], [TypeError], [OverflowError], [OSError],
    [AttributeError] are the builtin classes; [OtherException] is any other
    subclass of [Exception]. *)
Inductive exn : Type :=
| BrowserError (msg : pystr)
| TimeoutError (msg : pystr)
| NavigationError (msg : pystr)
| ElementNotFoundError (msg : pystr)
| ScreenshotError (msg : pystr)
| CacheError (msg : pystr)
| PlaywrightError (msg : pystr)
| ValueError (msg : pystr)
| TypeError (msg : pystr)
| OverflowError (msg : pystr)
| OSError (msg : pystr)
| AttributeError (msg : pystr)
| OtherException (msg : pystr).

(** [isinstance(e, BrowserError)]. *)
Definition is_BrowserError (e : exn) : bool :=
  match e with
  | BrowserError _ | TimeoutError _ | NavigationError _
  | ElementNotFoundError _ | ScreenshotError _ | CacheError _ => true
  | _ => false
  end.

(** [isinstance(e, PlaywrightError)]. *)
Definition is_PlaywrightError (e : exn) : bool :=
  match e with
  | PlaywrightError _ => true
  | _ => false
  end.

(** [str(e)]. *)
Definition str (e : exn) : pystr :=
  match e with
  | BrowserError m | TimeoutError m | NavigationError m
  | ElementNotFoundError m | ScreenshotError m | CacheError m
  | PlaywrightError m | ValueError m | TypeError m | OverflowError m
  | OSError m | AttributeError m | OtherException m => m
  end.

(** The four error kinds the capture workflow classifies. *)
Definition is_classified (e : exn) : bool :=
  match e with
  | NavigationError _ | TimeoutError _ | ElementNotFoundError _
  | ScreenshotError _ => true
  | _ => false
  end.

(** What a call comes back with: a value, or a raised exception. *)
Inductive outcome (A : Type) : Type :=
| Return (a : A)
| Raise (e : exn).
Arguments Return {A} a.
Arguments Raise {A} e.

Definition raises {A} (o : outcome A) : bool :=
  match o with
  | Return _ => false
  | Raise _ => true
  end.

End Exceptions.
Export Exceptions.

(** ** Hexadecimal digits *)

Module Hex.

Definition hex_chars : list ascii :=
  [ "0"; "1"; "2"; "3"; "4"; "5"; "6"; "7";
    "8"; "9"; "a"; "b"; "c"; "d"; "e"; "f" ]%char.

(** The lower-case digit of [n mod 16]. *)
Definition hex_digit (n : N) : ascii :=
  nth (N.to_nat (n mod 16)) hex_chars "0"%char.

(** A byte as two digits. *)
Definition hex2 (b : N) : string :=
  String (hex_digit (b / 16)) (String (hex_digit b) "").

(** Four digits, as the format [04x] prints a number below 65536. *)
Definition hex4 (n : N) : string :=
  String (hex_digit (n / 16 / 16 / 16))
    (String (hex_digit (n / 16 / 16))
       (String (hex_digit (n / 16)) (String (hex_digit n) ""))).

End Hex.

(** ** hashlib.md5 (RFC 1321), on bytes given as numbers below 256 *)

Module Md5.

Local Open Scope N_scope.

Definition add32 (a b : N) : N := (a + b) mod 2 ^ 32.
Definition not32 (a : N) : N := N.lxor a 0xffffffff.
Definition rotl32 (x c : N) : N :=
  N.lor (N.shiftl x c mod 2 ^ 32) (N.shiftr x (32 - c)).

Definition K : list N :=
  [ 0xd76aa478; 0xe8c7b756; 0x242070db; 0xc1bdceee;
    0xf57c0faf; 0x4787c62a; 0xa8304613; 0xfd469501;
    0x698098d8; 0x8b44f7af; 0xffff5bb1; 0x895cd7be;
    0x6b901122; 0xfd987193; 0xa679438e; 0x49b40821;
    0xf61e2562; 0xc040b340; 0x265e5a51; 0xe9b6c7aa;
    0xd62f105d; 0x02441453; 0xd8a1e681; 0xe7d3fbc8;
    0x21e1cde6; 0xc33707d6; 0xf4d50d87; 0x455a14ed;
    0xa9e3e905; 0xfcefa3f8; 0x676f02d9; 0x8d2a4c8a;
    0xfffa3942; 0x8771f681; 0x6d9d6122; 0xfde5380c;
    0xa4beea44; 0x4bdecfa9; 0xf6bb4b60; 0xbebfbc70;
    0x289b7ec6; 0xeaa127fa; 0xd4ef3085; 0x04881d05;
    0xd9d4d039; 0xe6db99e5; 0x1fa27cf8; 0xc4ac5665;
    0xf4292244; 0x432aff97; 0xab9423a7; 0xfc93a039;
    0x655b59c3; 0x8f0ccc92; 0xffeff47d; 0x85845dd1;
    0x6fa87e4f; 0xfe2ce6e0; 0xa3014314; 0x4e0811a1;
    0xf7537e82; 0xbd3af235; 0x2ad7d2bb; 0xeb86d391 ].

Definition shifts : list N :=
  [ 7; 12; 17; 22; 7; 12; 17; 22; 7; 12; 17; 22; 7; 12; 17; 22;
    5; 9; 14; 20; 5; 9; 14; 20; 5; 9; 14; 20; 5; 9; 14; 20;
    4; 11; 16; 23; 4; 11; 16; 23; 4; 11; 16; 23; 4; 11; 16; 23;
    6; 10; 15; 21; 6; 10; 15; 21; 6; 10; 15; 21; 6; 10; 15; 21 ].

(** [n] bytes of [x], least significant first. *)
Fixpoint le_bytes (n : nat) (x : N) : list N :=
  match n with
  | O => []
  | S n' => x mod 256 :: le_bytes n' (x / 256)
  end.

(** Padding: the byte 128, zeros up to 56 modulo 64, the length in bits. *)
Definition pad (msg : list N) : list N :=
  let len := N.of_nat (length msg) in
  let zeros := N.to_nat ((64 + 55 - len mod 64) mod 64) in
  msg ++ [128] ++ repeat 0 zeros ++ le_bytes 8 (len * 8 mod 2 ^ 64).

(** [n] little-endian 32-bit words off the front of [bs]. *)
Fixpoint words (n : nat) (bs : list N) : list N :=
  match n, bs with
  | S n', b0 :: b1 :: b2 :: b3 :: rest =>
      (b0 + 256 * b1 + 65536 * b2 + 16777216 * b3) :: words n' rest
  | _, _ => []
  end.

Definition state : Type := N * N * N * N.

Definition init : state := (0x67452301, 0xefcdab89, 0x98badcfe, 0x10325476).

(** Operation [i] (0 to 63) on the words [M] of a block. *)
Definition step (M : list N) (st : state) (i : nat) : state :=
  let '(A, B, C, D) := st in
  let j := N.of_nat i in
  let '(F, g) :=
    if j <? 16 then (N.lor (N.land B C) (N.land (not32 B) D), j)
    else if j <? 32 then
      (N.lor (N.land D B) (N.land (not32 D) C), (5 * j + 1) mod 16)
    else if j <? 48 then (N.lxor (N.lxor B C) D, (3 * j + 5) mod 16)
    else (N.lxor C (N.lor B (not32 D)), (7 * j) mod 16) in
  let F := add32 (add32 (add32 F A) (nth i K 0)) (nth (N.to_nat g) M 0) in
  (D, add32 B (rotl32 F (nth i shifts 0)), B, C).

Definition process_block (st : state) (block : list N) : state :=
  let M := words 16 block in
  let '(A, B, C, D) := fold_left (step M) (seq 0 64) st in
  let '(a0, b0, c0, d0) := st in
  (add32 a0 A, add32 b0 B, add32 c0 C, add32 d0 D).

Fixpoint process (n : nat) (bs : list N) (st : state) : state :=
  match n with
  | O => st
  | S n' => process n' (skipn 64 bs) (process_block st (firstn 64 bs))
  end.

Definition digest_state (msg : list N) : state :=
  let padded := pad msg in
  process (Nat.div (length padded) 64) padded init.

(** The sixteen bytes of the digest. *)
Definition digest (msg : list N) : list N :=
  let '(a, b, c, d) := digest_state msg in
  le_bytes 4 a ++ le_bytes 4 b ++ le_bytes 4 c ++ le_bytes 4 d.

Fixpoint hex_of_bytes (bs : list N) : string :=
  match bs with
  | [] => ""
  | b :: rest => Hex.hex2 b ++ hex_of_bytes rest
  end.

(** [hashlib.md5(s.encode()).hexdigest()] for a string of ASCII. *)
Definition hexdigest (s : string) : string :=
  hex_of_bytes (digest (map N_of_ascii (list_ascii_of_string s))).

End Md5.

(** ** config.py *)

Module Config.

(** The values a configuration attribute can hold. *)
Inductive value : Type :=
| VNone
| VBool (b : bool)
| VInt (n : Z)
| VStr (s : string)
| VList (l : list string).

(** A [BrowserConfig] instance is its attribute dictionary. *)
Abbreviation attrs := (gmap string value).

(** The dataclass defaults (config.py lines 13-43). *)
Definition default_browser_args : list string :=
  [ "--no-sandbox"; "--disable-setuid-sandbox"; "--disable-dev-shm-usage";
    "--disable-gpu"; "--disable-web-security";
    "--disable-features=IsolateOrigins,site-per-process" ].

Definition defaults : attrs :=
  list_to_map
    [ ("headless", VBool true); ("timeout", VInt 30000);
      ("viewport_width", VInt 1920); ("viewport_height", VInt 1080);
      ("cache_enabled", VBool true); ("cache_dir", VStr "cache/screenshots");
      ("cache_ttl_hours", VInt 6); ("max_contexts", VInt 3);
      ("max_retries", VInt 2); ("wait_until", VStr "networkidle");
      ("ignore_https_errors", VBool true);
      ("downloads_dir", VStr "temp/downloads");
      ("default_output_dir", VStr "screenshots");
      ("browser_args", VList default_browser_args) ].

(** Names the class itself declares: its two methods, and the thirteen
    fields whose default is a class attribute ([browser_args] has a default
    factory and is set on instances only). *)
Definition class_attrs : list string :=
  [ "from_env"; "update"; "headless"; "timeout"; "viewport_width";
    "viewport_height"; "cache_enabled"; "cache_dir"; "cache_ttl_hours";
    "max_contexts"; "max_retries"; "wait_until"; "ignore_https_errors";
    "downloads_dir"; "default_output_dir" ].

Section update.

(** Attributes that [hasattr] finds through [object] and the dataclass
    machinery, and the exception (if any) that assigning to an attribute
    raises: both belong to the Python runtime, not to this repository. *)
Variable object_attr : string -> bool.
Variable assign_error : string -> value -> option exn.

Definition hasattr (self : attrs) (key : string) : bool :=
  bool_decide (is_Some (self !! key))
  || bool_decide (key ∈ class_attrs)
  || object_attr key.

Definition setattr (self : attrs) (key : string) (v : value)
  : outcome unit * attrs :=
  match assign_error key v with
  | Some e => (Raise e, self)
  | None => (Return tt, <[key := v]> self)
  end.

(** The loop of [update] (lines 64-68) over the keyword arguments in
    their order; the result holds the instance as the loop leaves it. *)
Fixpoint update_loop (self : attrs) (kwargs : list (string * value))
  : outcome unit * attrs :=
  match kwargs with
  | [] => (Return tt, self)
  | (key, v) :: rest =>
      if hasattr self key then
        match setattr self key v with
        | (Return _, self') => update_loop self' rest
        | (Raise e, self') => (Raise e, self')
        end
      else
        (Raise (ValueError (py "Unknown configuration option: " ++ py key)),
         self)
  end.

(** A keyword named self cannot be bound by [def update(self, **kwargs)]:
    the name is taken by the first parameter. *)
Definition names_self (kwargs : list (string * value)) : bool :=
  bool_decide ("self" ∈ map fst kwargs).

(** [BrowserConfig.update] (lines 62-68), called on the instance [self]
    with the keyword arguments [kwargs].  The call binds its arguments
    before the body runs, and a keyword named self makes that fail with
    the instance untouched. *)
Definition update (self : attrs) (kwargs : list (string * value))
  : outcome unit * attrs :=
  if names_self kwargs then
    (Raise (TypeError
              (py "BrowserConfig.update() got multiple values for argument 'self'")),
     self)
  else update_loop self kwargs.

(** [set_config] (lines 75-83) takes any keywords and passes them to
    [update] on the global instance. *)
Definition set_config (browser_config : attrs) (kwargs : list (string * value))
  : outcome unit * attrs :=
  update browser_config kwargs.

(** The instance after plain assignments of [kwargs], in order. *)
Definition assign_all (self : attrs) (kwargs : list (string * value)) : attrs :=
  fold_left (fun s kv => <[kv.1 := kv.2]> s) kwargs self.

End update.

(** *** Construction from the environment *)

(** A configuration object by its fields.  The strings are Python strings:
    the environment can hold any. *)
Record BrowserConfig : Type := mkConfig {
  headless : bool;
  timeout : Z;
  viewport_width : Z;
  viewport_height : Z;
  cache_enabled : bool;
  cache_dir : pystr;
  cache_ttl_hours : Z;
  max_contexts : Z;
  max_retries : Z;
  wait_until : pystr;
  ignore_https_errors : bool;
  downloads_dir : pystr;
  default_output_dir : pystr;
  browser_args : list string
}.

(** [BrowserConfig()]: every field at its default (lines 13-43). *)
Definition default_config : BrowserConfig :=
  mkConfig true 30000 1920 1080 true (py "cache/screenshots") 6 3 2
           (py "networkidle") true (py "temp/downloads") (py "screenshots")
           default_browser_args.

Section from_env.

(** [os.environ]. *)
Variable environ : string -> option pystr.

(** [int(s)] for a string that is not a plain run of ASCII digits, or is a
    run longer than 640 digits (the lowest limit Python can be set to
    refuse): signs, blanks, underscores, digits of other scripts, and what
    is no number at all.  The value or the exception belongs to the Python
    runtime. *)
Variable int_other : pystr -> outcome Z.

(** [s.lower()] for a string with a code point outside ASCII. *)
Variable lower_other : pystr -> pystr.

(** [os.getenv(name, default)]. *)
Definition getenv (name default : string) : pystr :=
  match environ name with
  | Some v => v
  | None => py default
  end.

Definition is_digit (c : N) : bool := ((48 <=? c) && (c <=? 57))%N.

(** The number a run of ASCII digits stands for. *)
Definition digits_value (s : pystr) : Z :=
  fold_left (fun acc c => (acc * 10 + Z.of_N (c - 48))%Z) s 0%Z.

(** [int(s)]. *)
Definition py_int (s : pystr) : outcome Z :=
  if negb (bool_decide (s = [])) && forallb is_digit s
     && (length s <=? 640)%nat
  then Return (digits_value s)
  else int_other s.

Definition ascii_lower (c : N) : N :=
  if ((65 <=? c) && (c <=? 90))%N then (c + 32)%N else c.

(** [s.lower()]. *)
Definition lower (s : pystr) : pystr :=
  if forallb (fun c => (c <? 128)%N) s then map ascii_lower s
  else lower_other s.

(** [os.getenv(name, "true").lower() == "true"]. *)
Definition flag (name : string) : bool :=
  bool_decide (lower (getenv name "true") = py "true").

(** [int(os.getenv(name, default))]. *)
Definition number (name default : string) : outcome Z :=
  py_int (getenv name default).

(** [from_env] (lines 45-60): the keyword arguments are evaluated from
    left to right; the three fields that are not given keep their
    defaults. *)
Definition from_env : outcome BrowserConfig :=
  let headless := flag "BROWSER_HEADLESS" in
  match number "BROWSER_TIMEOUT" "30000" with
  | Raise e => Raise e
  | Return timeout =>
  match number "VIEWPORT_WIDTH" "1920" with
  | Raise e => Raise e
  | Return viewport_width =>
  match number "VIEWPORT_HEIGHT" "1080" with
  | Raise e => Raise e
  | Return viewport_height =>
  let cache_enabled := flag "SCREENSHOT_CACHE" in
  let cache_dir := getenv "CACHE_DIR" "cache/screenshots" in
  match number "CACHE_TTL_HOURS" "6" with
  | Raise e => Raise e
  | Return cache_ttl_hours =>
  match number "MAX_BROWSER_CONTEXTS" "3" with
  | Raise e => Raise e
  | Return max_contexts =>
  match number "MAX_RETRIES" "2" with
  | Raise e => Raise e
  | Return max_retries =>
  let wait_until := getenv "WAIT_UNTIL" "networkidle" in
  let ignore_https_errors := flag "IGNORE_HTTPS_ERRORS" in
  Return (mkConfig headless timeout viewport_width viewport_height
                   cache_enabled cache_dir cache_ttl_hours max_contexts
                   max_retries wait_until ignore_https_errors
                   (downloads_dir default_config)
                   (default_output_dir default_config)
                   (browser_args default_config))
  end end end end end end.

End from_env.

End Config.

(** ** browser_manager.py *)

Module BrowserManager.

(** A browsing context as the pool sees it: its identity and the pages that
    are open in it at the moment ([context.pages]). *)
Record BrowserContext : Type := mkContext {
  ctx_id : nat;
  pages : list nat
}.

(** The manager object: the two engine handles (present or not), the tracked
    contexts, and how many contexts the engine has created so far (the next
    context gets that number as its identity). *)
Record Manager : Type := mkManager {
  playwright : bool;
  browser : bool;
  contexts : list BrowserContext;
  created : nat
}.

(** What Playwright answers when asked to start, to launch the browser and
    to create a context: [None] is success, [Some e] raises [e]. *)
Record Engine : Type := mkEngine {
  start_error : option exn;
  launch_error : option exn;
  new_context_error : option exn
}.

Definition engine_ok : Engine := mkEngine None None None.

(** Truth value of a Python list. *)
Definition truthy {A} (l : list A) : bool :=
  match l with
  | [] => false
  | _ :: _ => true
  end.

(** [min(l, key=key)]: the first element whose key is minimal; [None] stands
    for the ValueError on an empty sequence. *)
Definition py_min {A} (key : A -> nat) (l : list A) : option A :=
  match l with
  | [] => None
  | x :: rest =>
      Some (fold_left (fun best y => if (key y <? key best)%nat then y else best)
                      rest x)
  end.

(** The handler of [get_browser]: a Playwright error becomes a BrowserError,
    anything else passes. *)
Definition launch_failure (e : exn) : exn :=
  if is_PlaywrightError e
  then BrowserError (py "Failed to launch browser: " ++ str e)
  else e.

(** [get_browser] (lines 42-54). *)
Definition get_browser (eng : Engine) (self : Manager)
  : outcome unit * Manager :=
  if browser self then (Return tt, self)
  else
    match start_error eng with
    | Some e => (Raise (launch_failure e), self)
    | None =>
        let self1 := mkManager true (browser self) (contexts self)
                               (created self) in
        match launch_error eng with
        | Some e => (Raise (launch_failure e), self1)
        | None =>
            (Return tt,
             mkManager true true (contexts self1) (created self1))
        end
    end.

Section get_context.

(** [browser_config.max_contexts]. *)
Variable max_contexts : Z.

(** [get_context] (lines 56-86). *)
Definition get_context (eng : Engine) (self : Manager)
  : outcome BrowserContext * Manager :=
  (* line 59: keep the contexts whose page list is truthy *)
  let kept := List.filter (fun ctx => truthy (pages ctx)) (contexts self) in
  let self := mkManager (playwright self) (browser self) kept (created self) in
  (* lines 62-64: the first context without pages *)
  match find (fun ctx => (length (pages ctx) =? 0)%nat) (contexts self) with
  | Some context => (Return context, self)
  | None =>
      if (Z.of_nat (length (contexts self)) <? max_contexts)%Z then
        (* lines 67-83 *)
        match get_browser eng self with
        | (Raise e, self) => (Raise e, self)
        | (Return _, self) =>
            match new_context_error eng with
            | Some e => (Raise e, self)
            | None =>
                let context := mkContext (created self) [] in
                (Return context,
                 mkManager (playwright self) (browser self)
                           (contexts self ++ [context])
                           (S (created self)))
            end
        end
      else
        (* line 86 *)
        match py_min (fun c => length (pages c)) (contexts self) with
        | Some context => (Return context, self)
        | None =>
            (Raise (ValueError (py "min() arg is an empty sequence")), self)
        end
  end.

(** Between two calls the clients of the pool open and close pages: the
    tracked contexts keep their identities and order, their page lists
    change. *)
Definition pages_changed (self self' : Manager) : Prop :=
  playwright self' = playwright self /\
  browser self' = browser self /\
  created self' = created self /\
  map ctx_id (contexts self') = map ctx_id (contexts self).

(** One step of the life of the pool: a call of [get_context], or page
    traffic. *)
Inductive pool_step : Manager -> Manager -> Prop :=
| step_get_context eng self :
    pool_step self (get_context eng self).2
| step_pages self self' :
    pages_changed self self' -> pool_step self self'.

End get_context.

(** The manager as [__init__] leaves it. *)
Definition initial : Manager := mkManager false false [] 0.

(** *** Shutting down *)

(** The calls [cleanup] makes on the engine. *)
Inductive shutdown : Type :=
| CloseContext (id : nat)
| CloseBrowser
| StopPlaywright.

(** What the engine answers to them: [None] is success, [Some e] raises
    [e].  A context is told apart by its identity. *)
Record Closing : Type := mkClosing {
  close_context_error : nat -> option exn;
  close_browser_error : option exn;
  stop_error : option exn
}.

(** What a run of [cleanup] leaves behind: the calls it made and the
    warnings it logged, both in order. *)
Record Report : Type := mkReport {
  calls : list shutdown;
  warnings : list pystr
}.

(** [try: call  except Exception as e: logger.warning(what + str(e))]. *)
Definition guarded (call : shutdown) (response : option exn) (what : string)
  (rep : Report) : Report :=
  mkReport (calls rep ++ [call])
           (match response with
            | None => warnings rep
            | Some e => warnings rep ++ [py what ++ str e]
            end).

(** [cleanup] (lines 88-115). *)
Definition cleanup (io : Closing) (self : Manager) : Report * Manager :=
  (* lines 93-97 *)
  let rep :=
    fold_left
      (fun rep context =>
         guarded (CloseContext (ctx_id context))
                 (close_context_error io (ctx_id context))
                 "Error closing context: " rep)
      (contexts self) (mkReport [] []) in
  (* lines 100-104 *)
  let rep :=
    if browser self
    then guarded CloseBrowser (close_browser_error io)
                 "Error closing browser: " rep
    else rep in
  (* lines 107-111 *)
  let rep :=
    if playwright self
    then guarded StopPlaywright (stop_error io)
                 "Error stopping playwright: " rep
    else rep in
  (* lines 113-115 *)
  (rep, mkManager false false [] (created self)).

(** The singleton: the manager with its flag [_initialized] and the number
    of times [cleanup] has been registered with atexit. *)
Record Instance : Type := mkInstance {
  _initialized : bool;
  manager : Manager;
  registered : nat
}.

(** [__init__] (lines 30-40). *)
Definition __init__ (self : Instance) : Instance :=
  if _initialized self then self
  else
    mkInstance true
               (mkManager false false [] (created (manager self)))
               (S (registered self)).

(** [BrowserManager()]: [__new__] (lines 22-28) makes the instance when
    there is none and hands out the one there is; Python then runs
    [__init__] on what it got. *)
Definition construct (_instance : option Instance) : Instance :=
  __init__ (match _instance with
            | None => mkInstance false initial 0
            | Some instance => instance
            end).

(** [reset] (lines 117-121). *)
Definition reset (io : Closing) (self : Instance) : Report * Instance :=
  let '(rep, m) := cleanup io (manager self) in
  (rep, __init__ (mkInstance false m (registered self))).

End BrowserManager.

(** ** json.dumps, as far as cache.py uses it *)

Module Json.

Import Hex.

Definition quote : ascii := "034"%char.
Definition backslash : ascii := "092"%char.

(** How [json.dumps] (with its default [ensure_ascii]) writes one code
    point inside a string: the seven short escapes, printable ASCII as it
    is, any other code point of the basic plane as [\uXXXX], and a code
    point above it as a surrogate pair of two such escapes. *)
Definition escape_char (c : N) : string :=
  (if c =? 34 then String backslash (String quote "")
   else if c =? 92 then String backslash (String backslash "")
   else if c =? 10 then String backslash "n"
   else if c =? 13 then String backslash "r"
   else if c =? 9 then String backslash "t"
   else if c =? 12 then String backslash "f"
   else if c =? 8 then String backslash "b"
   else if (32 <=? c) && (c <=? 126) then String (ascii_of_N c) ""
   else if c <? 65536 then String backslash (String "u" (hex4 c))
   else
     let n := c - 65536 in
     String.append
       (String backslash (String "u" (hex4 (0xd800 + (n / 1024) mod 1024))))
       (String backslash (String "u" (hex4 (0xdc00 + n mod 1024)))))%N.

Fixpoint escape (s : pystr) : string :=
  match s with
  | [] => ""
  | c :: rest => escape_char c ++ escape rest
  end.

(** A Python string as a JSON string. *)
Definition json_string (s : pystr) : string :=
  String quote (escape s ++ String quote "").

Definition json_bool (b : bool) : string :=
  if b then "true" else "false".

(** [None] is written null. *)
Definition json_optional (o : option pystr) : string :=
  match o with
  | None => "null"
  | Some s => json_string s
  end.

(** A dictionary key with the separator that follows it. *)
Definition json_key (k : string) : string := json_string (py k) ++ ": ".

(** [str(n)] for an int. *)
Definition str_int (n : Z) : string := NilZero.string_of_int (Z.to_int n).

Definition is_high_surrogate (c : N) : bool :=
  ((0xd800 <=? c) && (c <=? 0xdbff))%N.

Definition is_low_surrogate (c : N) : bool :=
  ((0xdc00 <=? c) && (c <=? 0xdfff))%N.

(** [json.loads(json.dumps(s))] for a string [s].  The decoder reads the
    escapes from left to right, and takes a high surrogate that a low one
    follows for the two halves of one code point; every other code point
    comes back as it was. *)
Fixpoint reloaded (s : pystr) : pystr :=
  match s with
  | [] => []
  | c :: rest =>
      match rest with
      | c2 :: rest2 =>
          if is_high_surrogate c && is_low_surrogate c2 then
            (0x10000 + (c - 0xd800) * 0x400 + (c2 - 0xdc00))%N
            :: reloaded rest2
          else c :: reloaded rest
      | [] => [c]
      end
  end.

End Json.

(** ** pathlib, as far as the code uses it *)

Module Pathlib.

(** A path is the string that [str] gives for it. *)

Definition is_sep (c : ascii) : bool := Ascii.eqb c "/".

(** [s.split("/")]. *)
Fixpoint split (s : string) : list string :=
  match s with
  | EmptyString => [EmptyString]
  | String c rest =>
      if is_sep c then EmptyString :: split rest
      else
        match split rest with
        | x :: xs => String c x :: xs
        | [] => [String c EmptyString]
        end
  end.

(** The root of a string: none for a relative one, two separators when the
    string starts with exactly two, one separator otherwise. *)
Definition root (s : string) : string :=
  match s with
  | String a (String b (String c _)) =>
      if is_sep a then
        if is_sep b then if is_sep c then "/" else "//" else "/"
      else ""
  | String a (String b EmptyString) =>
      if is_sep a then if is_sep b then "//" else "/" else ""
  | String a EmptyString => if is_sep a then "/" else ""
  | EmptyString => ""
  end.

(** The components that count: the empty ones and the dots are dropped. *)
Definition counts (x : string) : bool :=
  negb (String.eqb x "") && negb (String.eqb x ".").

Definition parts (s : string) : list string := List.filter counts (split s).

(** [str] of the path with that root and those components. *)
Definition format (root : string) (parts : list string) : string :=
  match root, parts with
  | EmptyString, [] => "."
  | _, _ => root ++ String.concat "/" parts
  end.

(** [str(Path(s))]. *)
Definition Path (s : string) : string := format (root s) (parts s).

(** [path.is_absolute()]. *)
Definition is_absolute (s : string) : bool :=
  match s with
  | String a _ => is_sep a
  | EmptyString => false
  end.

(** [str(Path(self) / key)]: a key with a root takes the place of
    [self]; the components of any other are added to those of [self]. *)
Definition truediv (self key : string) : string :=
  if is_absolute key then Path key
  else format (root self) (parts self ++ parts key).

End Pathlib.

(** ** cache.py *)

Module Cache.

Import Json.

(** The dictionary [cache_options] that core.py builds (lines 67-72). *)
Record CacheOptions : Type := mkOptions {
  full_page : bool;
  selector : option pystr;
  mobile : bool;
  device_name : option pystr
}.

(** The settings of [browser_config] that the cache reads. *)
Record Settings : Type := mkSettings {
  cache_enabled : bool;
  cache_ttl_hours : Z;
  viewport_width : Z;
  viewport_height : Z
}.

(** One entry of the index.  [options] is [None] for the empty
    dictionary. *)
Record CacheEntry : Type := mkEntry {
  url : pystr;
  filename : string;
  timestamp : Z;
  options : option CacheOptions
}.

(** The [ScreenshotCache] object: the directory fixed at construction and
    the index held in memory. *)
Record ScreenshotCache : Type := mkCache {
  cache_dir : string;
  metadata : gmap string CacheEntry
}.

(** The disk: the files by path with their content, the index that the
    index file holds as JSON text, which is the one last written to it (if
    any was), and how many times it has been written. *)
Record Disk : Type := mkDisk {
  files : gmap string string;
  index_file : option (gmap string CacheEntry);
  index_writes : nat
}.

(** The failures the operating system injects into one call: [None] lets
    the operation through, [Some e] makes it raise [e]. *)
Record Faults : Type := mkFaults {
  copy_error : string -> string -> option exn;
  write_error : option exn;
  unlink_error : string -> option exn
}.

Definition no_faults : Faults :=
  mkFaults (fun _ _ => None) None (fun _ => None).

(** [dir / name], for a directory and a name that are written as pathlib
    writes them: the name itself when it is absolute, the two put together
    otherwise. *)
Definition joinpath (dir name : string) : string :=
  if Pathlib.is_absolute name then name else dir ++ "/" ++ name.

(** [path.exists()]. *)
Definition file_exists (d : Disk) (path : string) : bool :=
  bool_decide (is_Some (files d !! path)).

(** [h] hours in microseconds. *)
Definition hours (h : Z) : Z := (h * 3600000000)%Z.

(** [timedelta(hours=h)] in microseconds.  A timedelta holds whole days of
    magnitude 999999999 at most (the hours left over are never negative);
    outside of that the constructor raises OverflowError, which names the
    days when they fit a C int. *)
Definition timedelta_hours (h : Z) : outcome Z :=
  let days := (h / 24)%Z in
  if (Z.abs days <=? 999999999)%Z then Return (hours h)
  else
    Raise (OverflowError
      (if (-2147483648 <=? days)%Z && (days <=? 2147483647)%Z then
         py ("days=" ++ str_int days ++ "; must have magnitude <= 999999999")
       else py "Python int too large to convert to C int")).

(** [json.dumps(options or {}, sort_keys=True)]. *)
Definition dumps_options (o : option CacheOptions) : string :=
  match o with
  | None => "{}"
  | Some o =>
      "{" ++ json_key "device_name" ++ json_optional (device_name o)
      ++ ", " ++ json_key "full_page" ++ json_bool (full_page o)
      ++ ", " ++ json_key "mobile" ++ json_bool (mobile o)
      ++ ", " ++ json_key "selector" ++ json_optional (selector o)
      ++ "}"
  end.

(** The viewport string of line 49. *)
Definition viewport (cfg : Settings) : string :=
  str_int (viewport_width cfg) ++ "x" ++ str_int (viewport_height cfg).

(** [key_str] of line 51: the three keys in sorted order. *)
Definition key_str (cfg : Settings) (url : pystr) (o : option CacheOptions)
  : string :=
  "{" ++ json_key "options" ++ dumps_options o
  ++ ", " ++ json_key "url" ++ json_string url
  ++ ", " ++ json_key "viewport" ++ json_string (py (viewport cfg))
  ++ "}".

(** [get_cache_key] (lines 44-52). *)
Definition get_cache_key (cfg : Settings) (url : pystr)
  (o : option CacheOptions) : string :=
  Md5.hexdigest (key_str cfg url o).

(** [_save_metadata] (lines 35-42).  A failed write is taken to leave the
    file as it was. *)
Definition _save_metadata (io : Faults) (self : ScreenshotCache) (d : Disk)
  : outcome unit * Disk :=
  match write_error io with
  | Some e =>
      (Raise (CacheError (py "Failed to save cache metadata: " ++ str e)), d)
  | None =>
      (Return tt,
       mkDisk (files d) (Some (metadata self)) (S (index_writes d)))
  end.

(** [shutil.copy2(src, dst)].  A failed copy is taken to leave the disk as
    it was. *)
Definition copy2 (io : Faults) (src dst : string) (d : Disk)
  : outcome unit * Disk :=
  match files d !! src with
  | None => (Raise (OSError (py "No such file or directory")), d)
  | Some content =>
      if bool_decide (src = dst) then
        (Raise (OSError (py "are the same file")), d)
      else
        match copy_error io src dst with
        | Some e => (Raise e, d)
        | None =>
            (Return tt,
             mkDisk (<[dst := content]> (files d)) (index_file d)
                    (index_writes d))
        end
  end.

(** [path.unlink()] of an existing file. *)
Definition unlink (io : Faults) (path : string) (d : Disk)
  : outcome unit * Disk :=
  match unlink_error io path with
  | Some e => (Raise e, d)
  | None =>
      (Return tt,
       mkDisk (delete path (files d)) (index_file d) (index_writes d))
  end.

Section methods.

Variable cfg : Settings.
Variable io : Faults.

(** [datetime.now()] at the call. *)
Variable now : Z.

(** [get_cached_path] (lines 54-77). *)
Definition get_cached_path (u : pystr) (o : option CacheOptions)
  (self : ScreenshotCache) (d : Disk)
  : outcome (option string) * ScreenshotCache * Disk :=
  if negb (cache_enabled cfg) then (Return None, self, d)
  else
    let cache_key := get_cache_key cfg u o in
    match metadata self !! cache_key with
    | Some entry =>
        let cached_time := timestamp entry in
        match timedelta_hours (cache_ttl_hours cfg) with
        | Raise e => (Raise e, self, d)
        | Return ttl =>
            if (now - cached_time <? ttl)%Z then
              let cache_path := joinpath (cache_dir self) (filename entry) in
              if file_exists d cache_path
              then (Return (Some cache_path), self, d)
              else
                let self := mkCache (cache_dir self)
                                    (delete cache_key (metadata self)) in
                match _save_metadata io self d with
                | (Raise e, d) => (Raise e, self, d)
                | (Return _, d) => (Return None, self, d)
                end
            else (Return None, self, d)
        end
    | None => (Return None, self, d)
    end.

(** [save_to_cache] (lines 79-108). *)
Definition save_to_cache (u : pystr) (screenshot_path : string)
  (o : option CacheOptions) (self : ScreenshotCache) (d : Disk)
  : outcome string * ScreenshotCache * Disk :=
  if negb (cache_enabled cfg) then (Return screenshot_path, self, d)
  else
    let cache_key := get_cache_key cfg u o in
    let cache_filename := (cache_key ++ ".png")%string in
    let cache_path := joinpath (cache_dir self) cache_filename in
    (* the try block of lines 89-103 *)
    match copy2 io screenshot_path cache_path d with
    | (Raise _, d) => (Return screenshot_path, self, d)
    | (Return _, d) =>
        let self :=
          mkCache (cache_dir self)
                  (<[cache_key := mkEntry u cache_filename now o]>
                     (metadata self)) in
        match _save_metadata io self d with
        | (Raise _, d) => (Return screenshot_path, self, d)
        | (Return _, d) => (Return cache_path, self, d)
        end
    end.

(** Line 115. *)
Definition ttl_multiplier (force : bool) : Z := if force then 1%Z else 2%Z.

(** The test of line 120: the entry is older than [max_age]. *)
Definition too_old (max_age : Z) (entry : CacheEntry) : bool :=
  (max_age <? now - timestamp entry)%Z.

(** One round of the loop of lines 118-129. *)
Definition scan_entry (max_age : Z) (dir : string)
  (acc : list string * Disk) (item : string * CacheEntry)
  : list string * Disk :=
  let '(expired_keys, d) := acc in
  let '(key, entry) := item in
  if too_old max_age entry then
    let cache_path := joinpath dir (filename entry) in
    (expired_keys ++ [key],
     if file_exists d cache_path then (unlink io cache_path d).2 else d)
  else (expired_keys, d).

(** [cleanup_old_cache] (lines 110-137).  The entries are visited in the
    order [map_to_list] gives them. *)
Definition cleanup_old_cache (force : bool) (self : ScreenshotCache)
  (d : Disk) : outcome unit * ScreenshotCache * Disk :=
  match timedelta_hours (cache_ttl_hours cfg * ttl_multiplier force) with
  | Raise e => (Raise e, self, d)
  | Return max_age =>
      let '(expired_keys, d) :=
        fold_left (scan_entry max_age (cache_dir self))
                  (map_to_list (metadata self)) ([], d) in
      let self :=
        mkCache (cache_dir self)
                (fold_left (fun m key => delete key m) expired_keys
                           (metadata self)) in
      if BrowserManager.truthy expired_keys then
        match _save_metadata io self d with
        | (Raise e, d) => (Raise e, self, d)
        | (Return _, d) => (Return tt, self, d)
        end
      else (Return tt, self, d)
  end.

End methods.

(** *** Construction, clearing and statistics *)

(** An options dictionary and an index entry as [json.load] gives them
    back after [json.dump]: the strings that came from a caller are read
    back from their escapes; booleans, None, and the file name and the
    time, which are ASCII strings of the program's making, come back as
    they were. *)
Definition reload_options (o : CacheOptions) : CacheOptions :=
  mkOptions (full_page o) (reloaded <$> selector o) (mobile o)
            (reloaded <$> device_name o).

Definition reload_entry (e : CacheEntry) : CacheEntry :=
  mkEntry (reloaded (url e)) (filename e) (timestamp e)
          (reload_options <$> options e).

(** [_load_metadata] (lines 25-33).  The index file, when it is there,
    holds the JSON text that [_save_metadata] made of an index, or cannot
    be read: [read_error] is the exception of [open] or [json.load], if
    any. *)
Definition _load_metadata (read_error : option exn) (d : Disk)
  : gmap string CacheEntry :=
  match index_file d with
  | Some index =>
      match read_error with
      | None => reload_entry <$> index
      | Some _ => ∅
      end
  | None => ∅
  end.

(** [__init__] (lines 19-23), for [browser_config.cache_dir] as it is when
    the object is made; [mkdir_error] is the exception of [mkdir], if
    any. *)
Definition __init__ (cache_dir : string) (mkdir_error read_error : option exn)
  (d : Disk) : outcome ScreenshotCache :=
  match mkdir_error with
  | Some e => Raise e
  | None => Return (mkCache cache_dir (_load_metadata read_error d))
  end.

(** What is left of [s] after the prefix [p], if [s] starts with [p]. *)
Fixpoint strip_prefix (p s : string) : option string :=
  match p, s with
  | EmptyString, _ => Some s
  | String a p', String b s' =>
      if Ascii.eqb a b then strip_prefix p' s' else None
  | String _ _, EmptyString => None
  end.

Fixpoint has_separator (s : string) : bool :=
  match s with
  | EmptyString => false
  | String a rest => Ascii.eqb a "/" || has_separator rest
  end.

Fixpoint ends_with (suffix s : string) : bool :=
  String.eqb suffix s
  || match s with
     | EmptyString => false
     | String _ rest => ends_with suffix rest
     end.

(** [path] is [dir / name] for a name that the pattern *.png matches: any
    name without a separator that ends in .png. *)
Definition matches_png (dir path : string) : bool :=
  match strip_prefix (dir ++ "/") path with
  | Some name => negb (has_separator name) && ends_with ".png" name
  | None => false
  end.

(** [dir.glob("*.png")], in the order [map_to_list] gives the files. *)
Definition glob_png (dir : string) (d : Disk) : list string :=
  List.filter (matches_png dir) (map fst (map_to_list (files d))).

(** [clear_cache] (lines 139-151). *)
Definition clear_cache (io : Faults) (self : ScreenshotCache) (d : Disk)
  : outcome unit * ScreenshotCache * Disk :=
  (* lines 142-146: a failed unlink is logged and passed over *)
  let d :=
    fold_left (fun d cache_file => (unlink io cache_file d).2)
              (glob_png (cache_dir self) d) d in
  let self := mkCache (cache_dir self) ∅ in
  match _save_metadata io self d with
  | (Raise e, d) => (Raise e, self, d)
  | (Return _, d) => (Return tt, self, d)
  end.

(** [min(xs, default=None)] and [max(xs, default=None)] on datetimes. *)
Definition min_default (xs : list Z) : option Z :=
  match xs with
  | [] => None
  | x :: rest => Some (fold_left Z.min rest x)
  end.

Definition max_default (xs : list Z) : option Z :=
  match xs with
  | [] => None
  | x :: rest => Some (fold_left Z.max rest x)
  end.

(** The dictionary that [get_cache_stats] returns.  [total_size_mb] is the
    quotient of the size in bytes by 1024 * 1024, which the float holds
    exactly for sizes below 2 ^ 53. *)
Record CacheStats : Type := mkStats {
  total_entries : nat;
  total_size_mb : Q;
  stats_cache_dir : string;
  oldest_entry : option Z;
  newest_entry : option Z
}.

(** [get_cache_stats] (lines 153-169); the size of a file is the length of
    its content. *)
Definition get_cache_stats (self : ScreenshotCache) (d : Disk) : CacheStats :=
  let total_size :=
    fold_left Nat.add
      (map (fun f => String.length (default "" (files d !! f)))
           (glob_png (cache_dir self) d)) 0 in
  let timestamps := map (fun e => timestamp e.2) (map_to_list (metadata self)) in
  mkStats (size (metadata self))
          (Z.of_nat total_size # 1048576)
          (cache_dir self)
          (min_default timestamps)
          (max_default timestamps).

End Cache.

(** ** core.py *)

Module Core.

(** *** The renderer and the other collaborators, as the code sees them *)

(** A device profile of lines 103-112. *)
Record Device : Type := mkDevice {
  width : Z;
  height : Z;
  deviceScaleFactor : Q
}.

Definition devices : list (pystr * Device) :=
  [ (py "iPhone 12", mkDevice 390 844 3);
    (py "iPad", mkDevice 820 1180 2);
    (py "Pixel 5", mkDevice 393 851 (11 # 4)) ].

Definition generic_mobile : Device := mkDevice 375 667 2.

(** The calls the code makes on its collaborators, with the arguments that
    matter here.  [NewPage] carries the page it returned (numbered by the
    attempt that opened it), or [None] when the call raised. *)
Inductive event : Type :=
| CacheLookup (url : pystr)
| CopyFile (src dst : string)
| MakeParentDirs (path : string)
| GetContext
| NewPage (emulate : option Device) (opened : option nat)
| Goto (page : nat) (url : pystr)
| WaitForSelector (page : nat) (sel : pystr) (timeout : Z)
| WaitForTimeout (page : nat) (ms : Z)
| QuerySelector (page : nat) (sel : pystr)
| QuerySelectorAll (page : nat) (sel : pystr)
| ElementScreenshot (page : nat) (path : string)
| PageScreenshot (page : nat) (path : string) (full_page : bool)
| SaveToCache (url : pystr) (path : string)
| ClosePage (page : nat).

(** An element of the page, as far as the code looks at it: what its
    [text_content()] comes back with. *)
Definition Element : Type := outcome (option pystr).

(** What the collaborators answer during one attempt.  [None] lets a call
    through, [Some e] makes it raise [e].  A wait is told apart by its
    position in the list of selectors. *)
Record Responses : Type := mkResponses {
  on_get_context : option exn;
  on_new_page : option exn;
  on_goto : option exn;
  on_wait_for_selector : nat -> pystr -> option exn;
  on_wait_for_timeout : option exn;
  on_query_selector : outcome bool;
  on_query_selector_all : pystr -> outcome (list Element);
  on_element_screenshot : option exn;
  on_page_screenshot : option exn;
  on_save_to_cache : option exn
}.

(** What surrounds one call of [capture_screenshot] or
    [browse_and_extract]: the cache lookup, the copy of a cached file, the
    clock, the creation of directories, and the renderer attempt by
    attempt. *)
Record World : Type := mkWorld {
  on_cache_lookup : outcome (option string);
  on_copy : option exn;
  clock : Z;
  on_mkdir : option exn;
  renderer : nat -> Responses
}.

(** The settings of [browser_config] that core.py reads. *)
Record Settings : Type := mkSettings {
  max_retries : Z;
  default_output_dir : string
}.

(** *** Running code that raises and logs *)

(** The local variable [page], the calls made so far, and the other local
    state of the running function. *)
Record Run (R : Type) : Type := mkRun {
  page : option nat;
  trace : list event;
  local : R
}.
Arguments mkRun {R} page trace local.
Arguments page {R} r.
Arguments trace {R} r.
Arguments local {R} r.

Definition M (R A : Type) : Type := Run R -> outcome A * Run R.

Definition ret {R A} (a : A) : M R A := fun s => (Return a, s).

Definition bind {R A B} (m : M R A) (f : A -> M R B) : M R B :=
  fun s =>
    match m s with
    | (Return a, s') => f a s'
    | (Raise e, s') => (Raise e, s')
    end.

Definition raise {R A} (e : exn) : M R A := fun s => (Raise e, s).

(** [try: m  except Exception as e: h e]. *)
Definition try_except {R A} (m : M R A) (h : exn -> M R A) : M R A :=
  fun s =>
    match m s with
    | (Return a, s') => (Return a, s')
    | (Raise e, s') => h e s'
    end.

(** [try: m  finally: f], for an [f] that does not raise. *)
Definition finally {R A} (m : M R A) (f : Run R -> Run R) : M R A :=
  fun s => let '(r, s') := m s in (r, f s').

Definition log {R} (ev : event) (s : Run R) : Run R :=
  mkRun (page s) (trace s ++ [ev]) (local s).

(** A call on a collaborator that returns nothing of interest. *)
Definition call {R} (ev : event) (response : option exn) : M R unit :=
  fun s =>
    (match response with
     | None => Return tt
     | Some e => Raise e
     end, log ev s).

(** A call on a collaborator that returns a value. *)
Definition ask {R A} (ev : event) (response : outcome A) : M R A :=
  fun s => (response, log ev s).

End Core.

#[local] Notation "x <- m ;; k" := (Core.bind m (fun x => k))
  (at level 100, m at next level, right associativity).

Module Capture.

Import Core.

(** Truth value of an optional string: neither None nor empty. *)
Definition str_truthy (o : option pystr) : bool :=
  match o with
  | Some (_ :: _) => true
  | _ => false
  end.

(** The argument [wait_for]: None, one selector, or a list of them. *)
Inductive WaitFor : Type :=
| NoWait
| WaitOne (sel : pystr)
| WaitAll (sels : list pystr).

(** The arguments of [capture_screenshot].  A path is a string; the empty
    string is the falsy one. *)
Record Request : Type := mkRequest {
  url : pystr;
  output_path : option string;
  full_page : bool;
  selector : option pystr;
  wait_for : WaitFor;
  wait_timeout : Z;
  use_cache : bool;
  extra_wait : Z;
  mobile : bool;
  device_name : option pystr
}.

Section capture_screenshot.

Variable cfg : Settings.
Variable world : World.
Variable req : Request.

(** Lines 101-121: [page = context.new_page(...)], with the device
    parameters when emulation is asked for.  The page opened in attempt
    [attempt] is page number [attempt]. *)
Definition emulation : option Device :=
  if mobile req || str_truthy (device_name req) then
    Some (if str_truthy (device_name req) then
            match find (fun d => bool_decide (Some d.1 = device_name req))
                       devices with
            | Some d => d.2
            | None => generic_mobile
            end
          else generic_mobile)
  else None.

Definition new_page (r : Responses) (attempt : nat) : M unit nat :=
  fun s =>
    match on_new_page r with
    | Some e => (Raise e, log (NewPage emulation None) s)
    | None =>
        (Return attempt,
         mkRun (Some attempt)
               (trace s ++ [NewPage emulation (Some attempt)]) (local s))
    end.

(** Lines 125-128. *)
Definition navigate (r : Responses) (p : nat) : M unit unit :=
  try_except (call (Goto p (url req)) (on_goto r))
    (fun e =>
       if is_PlaywrightError e then
         raise (NavigationError
                  (py "Failed to navigate to " ++ url req ++ py ": " ++ str e))
       else raise e).

(** Lines 133-138, from the selector at position [i] on. *)
Fixpoint wait_each (r : Responses) (p : nat) (i : nat) (sels : list pystr)
  : M unit unit :=
  match sels with
  | [] => ret tt
  | sel :: rest =>
      _ <- try_except
             (call (WaitForSelector p sel (wait_timeout req))
                   (on_wait_for_selector r i sel))
             (fun e =>
                if is_PlaywrightError e then
                  raise (TimeoutError
                           (py "Timeout waiting for selector: " ++ sel))
                else raise e) ;;
      wait_each r p (S i) rest
  end.

(** Lines 131-138. *)
Definition wait_for_content (r : Responses) (p : nat) : M unit unit :=
  match wait_for req with
  | NoWait => ret tt
  | WaitOne [] => ret tt
  | WaitOne sel => wait_each r p 0 [sel]
  | WaitAll sels => wait_each r p 0 sels
  end.

(** Lines 145-160. *)
Definition take_screenshot (r : Responses) (p : nat) (out : string)
  : M unit unit :=
  try_except
    (if str_truthy (selector req) then
       let sel := default [] (selector req) in
       element <- ask (QuerySelector p sel) (on_query_selector r) ;;
       if (element : bool) then
         call (ElementScreenshot p out) (on_element_screenshot r)
       else
         raise (ElementNotFoundError
                  (py "Selector '" ++ sel ++ py "' not found"))
     else
       call (PageScreenshot p out (full_page req)) (on_page_screenshot r))
    (fun e =>
       if is_PlaywrightError e then
         raise (ScreenshotError
                  (py "Failed to capture screenshot: " ++ str e))
       else raise e).

(** The body of the try statement, lines 97-168; its value is what the
    function returns from there. *)
Definition attempt_body (attempt : nat) (out : string) : M unit string :=
  let r := renderer world attempt in
  _ <- call GetContext (on_get_context r) ;;
  p <- new_page r attempt ;;
  _ <- navigate r p ;;
  _ <- wait_for_content r p ;;
  _ <- (if (0 <? extra_wait req)%Z
        then call (WaitForTimeout p (extra_wait req)) (on_wait_for_timeout r)
        else ret tt) ;;
  _ <- take_screenshot r p out ;;
  _ <- (if use_cache req
        then call (SaveToCache (url req) out) (on_save_to_cache r)
        else ret tt) ;;
  ret out.

(** The finally clause, lines 179-184: close the page the variable holds,
    whatever the close does. *)
Definition close_page (s : Run unit) : Run unit :=
  match page s with
  | Some p => log (ClosePage p) s
  | None => s
  end.

(** One round of the loop, lines 96-184.  [Some v]: the function returns
    [v]; [None]: the loop goes on. *)
Definition one_attempt (attempt : nat) (out : string)
  : M unit (option (option string)) :=
  finally
    (try_except
       (path <- attempt_body attempt out ;; ret (Some (Some path)))
       (fun e =>
          if is_BrowserError e then raise e
          else if (Z.of_nat attempt =? max_retries cfg - 1)%Z
               then ret (Some None)
               else ret None))
    close_page.

(** The loop of line 95, with [n] rounds left, the next one being round
    [attempt].  When the range is used up the function falls off its end
    and returns None. *)
Fixpoint attempts (n : nat) (attempt : nat) (out : string)
  : M unit (option string) :=
  match n with
  | O => ret None
  | S n' =>
      r <- one_attempt attempt out ;;
      match r with
      | Some result => ret result
      | None => attempts n' (S attempt) out
      end
  end.

(** Lines 85-89. *)
Definition resolve_output_path : string :=
  match output_path req with
  | None =>
      Cache.joinpath (default_output_dir cfg)
        ("screenshot_" ++ Json.str_int (clock world) ++ ".png")
  | Some path => path
  end.

(** Lines 93-184. *)
Definition retry_loop : M unit (option string) :=
  fun s =>
    attempts (Z.to_nat (max_retries cfg)) 0 resolve_output_path
             (mkRun None (trace s) (local s)).

(** [capture_screenshot] (lines 22-184). *)
Definition capture_screenshot : M unit (option string) :=
  cached <- (if use_cache req
             then ask (CacheLookup (url req)) (on_cache_lookup world)
             else ret None) ;;
  match cached with
  | Some cached =>
      match output_path req with
      | Some out =>
          if negb (String.eqb out "") && negb (String.eqb cached out) then
            _ <- call (CopyFile cached out) (on_copy world) ;;
            ret (Some out)
          else ret (Some cached)
      | None => ret (Some cached)
      end
  | None =>
      _ <- call (MakeParentDirs resolve_output_path) (on_mkdir world) ;;
      retry_loop
  end.

End capture_screenshot.

(** A run starts with no page and no call made. *)
Definition start : Run unit := mkRun None [] tt.

End Capture.

Module Extract.

Import Core.

(** The values of the result dictionary: None, a string, a list of
    strings. *)
Inductive pyvalue : Type :=
| PNone
| PStr (s : pystr)
| PList (l : list pystr).

(** A dictionary with string keys, in insertion order. *)
Definition dict : Type := list (pystr * pyvalue).

(** [d[key] = v]: an existing key keeps its place. *)
Fixpoint dict_set (d : dict) (key : pystr) (v : pyvalue) : dict :=
  match d with
  | [] => [(key, v)]
  | (k, w) :: rest =>
      if bool_decide (k = key) then (k, v) :: rest
      else (k, w) :: dict_set rest key v
  end.

(** The dictionary [result] of lines 220-226. *)
Record Result : Type := mkResult {
  r_url : pystr;
  r_timestamp : Z;
  extracted : dict;
  screenshot : option string;
  error : option pystr
}.

(** [str.isspace] for one code point. *)
Definition is_space (c : N) : bool :=
  bool_decide (c ∈ [ 9; 10; 11; 12; 13; 28; 29; 30; 31; 32; 133; 160; 5760;
                     8192; 8193; 8194; 8195; 8196; 8197; 8198; 8199; 8200;
                     8201; 8202; 8232; 8233; 8239; 8287; 12288 ]%N).

Fixpoint lstrip (s : pystr) : pystr :=
  match s with
  | [] => []
  | c :: rest => if is_space c then lstrip rest else s
  end.

(** [str.strip()]. *)
Definition strip (s : pystr) : pystr := rev (lstrip (rev (lstrip s))).

(** The arguments of [browse_and_extract]; [extract_selectors] is the
    dictionary in its iteration order. *)
Record Request : Type := mkRequest {
  url : pystr;
  extract_selectors : list (pystr * pystr);
  want_screenshot : bool;
  screenshot_path : option string;
  wait_for : option pystr;
  wait_timeout : Z
}.

Section browse_and_extract.

Variable cfg : Settings.
Variable world : World.
Variable req : Request.

Definition update_result (f : Result -> Result) : M Result unit :=
  fun s => (Return tt, mkRun (page s) (trace s) (f (local s))).

(** [result['extracted'][name] = v]. *)
Definition set_extracted (name : pystr) (v : pyvalue) : M Result unit :=
  update_result (fun res =>
    mkResult (r_url res) (r_timestamp res)
             (dict_set (extracted res) name v)
             (screenshot res) (error res)).

(** [el.text_content().strip()]. *)
Definition stripped_text (el : Element) : M Result pystr :=
  match el with
  | Return (Some text) => ret (strip text)
  | Return None =>
      raise (AttributeError
               (py "'NoneType' object has no attribute 'strip'"))
  | Raise e => raise e
  end.

(** The list comprehension of line 248. *)
Fixpoint stripped_texts (els : list Element) : M Result (list pystr) :=
  match els with
  | [] => ret []
  | el :: rest =>
      t <- stripped_text el ;;
      ts <- stripped_texts rest ;;
      ret (t :: ts)
  end.

(** One round of the loop, lines 242-252. *)
Definition extract_field (r : Responses) (p : nat) (name sel : pystr)
  : M Result unit :=
  try_except
    (elements <- ask (QuerySelectorAll p sel) (on_query_selector_all r sel) ;;
     match elements with
     | [] => set_extracted name PNone
     | [el] => t <- stripped_text el ;; set_extracted name (PStr t)
     | _ => ts <- stripped_texts elements ;; set_extracted name (PList ts)
     end)
    (fun e => set_extracted name (PStr (py "Error: " ++ str e))).

(** The loop of lines 241-252. *)
Fixpoint extract_fields (r : Responses) (p : nat)
  (selectors : list (pystr * pystr)) : M Result unit :=
  match selectors with
  | [] => ret tt
  | (name, sel) :: rest =>
      _ <- extract_field r p name sel ;;
      extract_fields r p rest
  end.

Definition new_page (r : Responses) : M Result nat :=
  fun s =>
    match on_new_page r with
    | Some e => (Raise e, log (NewPage None None) s)
    | None =>
        (Return 0,
         mkRun (Some 0) (trace s ++ [NewPage None (Some 0)]) (local s))
    end.

(** Lines 255-260. *)
Definition optional_screenshot (r : Responses) (p : nat) : M Result unit :=
  if want_screenshot req then
    let path :=
      match screenshot_path req with
      | Some path => if String.eqb path "" then None else Some path
      | None => None
      end in
    let path :=
      match path with
      | Some path => path
      | None =>
          Cache.joinpath (default_output_dir cfg)
            ("browse_" ++ Json.str_int (clock world) ++ ".png")
      end in
    _ <- call (PageScreenshot p path true) (on_page_screenshot r) ;;
    update_result (fun res =>
      mkResult (r_url res) (r_timestamp res) (extracted res)
               (Some path) (error res))
  else ret tt.

(** The body of the try statement, lines 230-260. *)
Definition body : M Result unit :=
  let r := renderer world 0 in
  _ <- call GetContext (on_get_context r) ;;
  p <- new_page r ;;
  _ <- call (Goto p (url req)) (on_goto r) ;;
  _ <- (match wait_for req with
        | Some (c :: sel) =>
            call (WaitForSelector p (c :: sel) (wait_timeout req))
                 (on_wait_for_selector r 0 (c :: sel))
        | _ => ret tt
        end) ;;
  _ <- extract_fields r p (extract_selectors req) ;;
  optional_screenshot r p.

Definition close_page (s : Run Result) : Run Result :=
  match page s with
  | Some p => log (ClosePage p) s
  | None => s
  end.

(** [browse_and_extract] (lines 187-273): the value is the dictionary
    [result] as the function returns it. *)
Definition browse_and_extract : outcome Result * list event :=
  let result := mkResult (url req) (clock world) [] None None in
  let run :=
    finally
      (try_except body
         (fun e =>
            update_result (fun res =>
              mkResult (r_url res) (r_timestamp res) (extracted res)
                       (screenshot res) (Some (str e)))))
      close_page in
  let '(r, s) := run (mkRun None [] result) in
  (match r with
   | Return _ => Return (local s)
   | Raise e => Raise e
   end, trace s).

End browse_and_extract.

End Extract.

Module Batch.

Import Core.

(** [screenshot] (lines 329-342): an absent or empty file name leaves the
    choice of the path to [capture_screenshot], whose other arguments keep
    their defaults. *)
Definition screenshot (cfg : Settings) (world : World) (url : pystr)
  (filename : option string) : M unit (option string) :=
  let output_path :=
    match filename with
    | Some (String a name) =>
        Some (Pathlib.truediv (default_output_dir cfg) (String a name))
    | _ => None
    end in
  Capture.capture_screenshot cfg world
    (Capture.mkRequest url output_path true None Capture.NoWait 5000 true 0
                       false None).

(** A dictionary with string keys, in insertion order. *)
Definition dict (V : Type) : Type := list (pystr * V).

(** [d[key] = v]: an existing key keeps its place. *)
Fixpoint dict_set {V} (d : dict V) (key : pystr) (v : V) : dict V :=
  match d with
  | [] => [(key, v)]
  | (k, w) :: rest =>
      if bool_decide (k = key) then (k, v) :: rest
      else (k, w) :: dict_set rest key v
  end.

(** [d.get(key)]. *)
Fixpoint dict_get {V} (d : dict V) (key : pystr) : option V :=
  match d with
  | [] => None
  | (k, w) :: rest =>
      if bool_decide (k = key) then Some w else dict_get rest key
  end.

(** The arguments of [batch_screenshots]. *)
Record Request : Type := mkRequest {
  urls : list pystr;
  output_dir : option string;
  full_page : bool;
  use_cache : bool;
  delay_between : Z;
  name_prefix : string
}.

(** What surrounds one call of [batch_screenshots]: the clock when the call
    begins, the creation of the output directory, and the world of each
    capture by its position in the list; the clock of that world is the
    time at which the capture is begun. *)
Record Surroundings : Type := mkSurroundings {
  clock_at_start : Z;
  on_make_dirs : option exn;
  capture_world : nat -> World
}.

(** What the call does, in order: it makes the directory, captures (with
    the calls the capture makes), and sleeps, for [ms / 1000] seconds. *)
Inductive step : Type :=
| MadeDirs (path : string)
| Captured (url : pystr) (output_path : string) (calls : list event)
| Slept (ms : Z).

(** The format [03d] for a number that is not negative: at least three
    digits. *)
Definition pad3 (i : nat) : string :=
  let digits := Json.str_int (Z.of_nat i) in
  string_of_list_ascii (repeat "0"%char (3 - String.length digits)) ++ digits.

Section batch_screenshots.

Variable cfg : Settings.
Variable env : Surroundings.
Variable req : Request.

(** Lines 298-301. *)
Definition batch_dir : string :=
  match output_dir req with
  | None =>
      Cache.joinpath (default_output_dir cfg)
        ("batch_" ++ Json.str_int (clock_at_start env))
  | Some dir => dir
  end.

(** Lines 308-309: the output path of the capture at position [i]. *)
Definition filename (i : nat) : string :=
  name_prefix req ++ "_" ++ pad3 i ++ "_"
  ++ Json.str_int (clock (capture_world env i)) ++ ".png".

Definition output_path (i : nat) : string :=
  Cache.joinpath batch_dir (filename i).

(** Lines 313-318: the call of [capture_screenshot] at position [i]. *)
Definition capture (i : nat) (url : pystr)
  : outcome (option string) * Run unit :=
  Capture.capture_screenshot cfg (capture_world env i)
    (Capture.mkRequest url (Some (output_path i)) (full_page req) None
                       Capture.NoWait 5000 (use_cache req) 0 false None)
    Capture.start.

(** The loop of lines 307-324 from position [i] on, for the urls that are
    left. *)
Fixpoint captures (i : nat) (rest : list pystr)
  (results : dict (option string)) (done : list step)
  : outcome (dict (option string)) * list step :=
  match rest with
  | [] => (Return results, done)
  | url :: rest =>
      let '(r, s) := capture i url in
      let done := done ++ [Captured url (output_path i) (trace s)] in
      match r with
      | Raise e => (Raise e, done)
      | Return screenshot_path =>
          let results := dict_set results url screenshot_path in
          let done :=
            if (Z.of_nat i <? Z.of_nat (length (urls req)) - 1)%Z
               && (0 <? delay_between req)%Z
            then done ++ [Slept (delay_between req)]
            else done in
          captures (S i) rest results done
      end
  end.

(** [batch_screenshots] (lines 276-326). *)
Definition batch_screenshots
  : outcome (dict (option string)) * list step :=
  match on_make_dirs env with
  | Some e => (Raise e, [MadeDirs batch_dir])
  | None => captures 0 (urls req) [] [MadeDirs batch_dir]
  end.

End batch_screenshots.

End Batch.

(** ** cli.py *)

Module Cli.

Import Core.

(** What [parse_args] hands over (lines 22-122).  A path is the string
    that [str] gives for it. *)
Record Args : Type := mkArgs {
  url : option pystr;
  output : option string;
  output_dir : string;
  full_page : bool;
  selector : option pystr;
  wait_for : option pystr;
  wait_timeout : Z;
  extra_wait : Z;
  batch : option string;
  delay : Z;
  use_cache : bool;
  mobile : bool;
  device : option pystr
}.

(** How [main] ends: it returns, it leaves by [sys.exit], or it leaves by
    [parser.error], which prints the usage and the message and exits with
    status 2. *)
Inductive ending : Type :=
| Returns
| Exits (status : Z)
| ParserError (message : string).

(** The exit status of the program. *)
Definition status (e : ending) : Z :=
  match e with
  | Returns => 0
  | Exits n => n
  | ParserError _ => 2
  end.

(** A run of [main]: the lines printed to the standard output and to the
    standard error, and the ending. *)
Record Session : Type := mkSession {
  stdout : list pystr;
  stderr : list pystr;
  finish : ending
}.

(** What surrounds a run: the batch file (None when it does not exist;
    otherwise its lines as iterating over it gives them, or the exception
    of opening or reading it) and the worlds of the captures.  Printing is
    taken to work, and the run is one that no KeyboardInterrupt breaks: the
    handler of lines 191-193 is not entered. *)
Record Surroundings : Type := mkSurroundings {
  batch_file : option (outcome (list pystr));
  single : World;
  many : Batch.Surroundings
}.

Definition starts_with_hash (line : pystr) : bool :=
  match line with
  | 35%N :: _ => true
  | _ => false
  end.

(** Lines 139-144: the urls of the batch file. *)
Definition read_urls (lines : list pystr) : list pystr :=
  fold_left
    (fun urls line =>
       let line := Extract.strip line in
       if BrowserManager.truthy line && negb (starts_with_hash line)
       then urls ++ [line]
       else urls)
    lines [].

(** The handler of lines 194-196. *)
Definition failed (out : list pystr) (e : exn) : Session :=
  mkSession out [py "Error: " ++ str e] (Exits 1).

(** Line 161. *)
Definition success_count (results : Batch.dict (option string)) : nat :=
  length (List.filter (fun entry => bool_decide (is_Some entry.2)) results).

(** Lines 164-166: a check mark or a cross, and the url. *)
Definition status_line (entry : pystr * option string) : pystr :=
  (match entry.2 with
   | Some _ => 10003%N
   | None => 10007%N
   end) :: py " " ++ entry.1.

Section main.

Variable cfg : Settings.
Variable env : Surroundings.
Variable args : Args.

(** The call of lines 152-158. *)
Definition batch_request (urls : list pystr) : Batch.Request :=
  Batch.mkRequest urls (Some (output_dir args)) (full_page args)
                  (use_cache args) (delay args) "screenshot".

(** The call of lines 172-183. *)
Definition capture_request : Capture.Request :=
  Capture.mkRequest (default [] (url args)) (output args) (full_page args)
    (selector args)
    (match wait_for args with
     | Some sel => Capture.WaitOne sel
     | None => Capture.NoWait
     end)
    (wait_timeout args) (use_cache args) (extra_wait args) (mobile args)
    (device args).

(** Lines 132-166. *)
Definition batch_mode (file : string) : Session :=
  match batch_file env with
  | None =>
      mkSession [] [py "Error: Batch file not found: " ++ py file] (Exits 1)
  | Some (Raise e) => failed [] e
  | Some (Return lines) =>
      let urls := read_urls lines in
      if negb (BrowserManager.truthy urls) then
        mkSession [] [py "Error: No URLs found in batch file"] (Exits 1)
      else
        let out :=
          [py "Processing " ++ py (Json.str_int (Z.of_nat (length urls)))
           ++ py " URLs..."] in
        match (Batch.batch_screenshots cfg (many env)
                 (batch_request urls)).1 with
        | Raise e => failed out e
        | Return results =>
            mkSession
              (out
               ++ [10%N :: py "Completed: "
                   ++ py (Json.str_int (Z.of_nat (success_count results)))
                   ++ py "/"
                   ++ py (Json.str_int (Z.of_nat (length urls)))
                   ++ py " successful"]
               ++ map status_line results)
              [] Returns
        end
  end.

(** Lines 168-189. *)
Definition single_mode : Session :=
  let out := [py "Capturing: " ++ default [] (url args)] in
  match (Capture.capture_screenshot cfg (single env) capture_request
           Capture.start).1 with
  | Raise e => failed out e
  | Return (Some path) =>
      mkSession (out ++ [py "Screenshot saved to: " ++ py path]) [] Returns
  | Return None =>
      mkSession out [py "Error: Failed to capture screenshot"] (Exits 1)
  end.

(** [main] from line 124 on, for the arguments that [parse_args] has
    accepted and handed over.  (A command line that argparse refuses, an
    option it does not know or a value it cannot convert, ends in
    [parser.error] inside [parse_args] and never gets here.) *)
Definition main : Session :=
  let has_url := Capture.str_truthy (url args) in
  let has_batch := bool_decide (is_Some (batch args)) in
  if negb has_url && negb has_batch then
    mkSession [] [] (ParserError "Either URL or --batch is required")
  else if has_url && has_batch then
    mkSession [] [] (ParserError "Cannot specify both URL and --batch")
  else
    match batch args with
    | Some file => batch_mode file
    | None => single_mode
    end.

End main.

End Cli.

(** * Properties *)

(** ** config.py: the bulk update *)

Section config_facts.

Import Config.

Variable object_attr : string -> bool.
Variable assign_error : string -> value -> option exn.

Local Abbreviation hasattr := (hasattr object_attr).
Local Abbreviation update_loop := (update_loop object_attr assign_error).
Local Abbreviation update := (update object_attr assign_error).
Local Abbreviation set_config := (set_config object_attr assign_error).

(** A keyword that the loop applies: the instance has the attribute and the
    assignment goes through. *)
Definition recognized (self : attrs) (kv : string * value) : Prop :=
  hasattr self kv.1 = true /\ assign_error kv.1 kv.2 = None.

Lemma hasattr_insert_mono self k v key :
  hasattr self key = true -> hasattr (<[k := v]> self) key = true.
Proof.
  unfold Config.hasattr. intros H.
  apply orb_true_iff in H as [H | H]; [ | now rewrite H, orb_true_r ].
  apply orb_true_iff in H as [H | H]; [ | now rewrite H, orb_true_r ].
  apply bool_decide_eq_true in H.
  assert (is_Some (<[k := v]> self !! key)) as Hs.
  { destruct (decide (k = key)) as [-> | Hne].
    - rewrite lookup_insert_eq. eauto.
    - now rewrite lookup_insert_ne. }
  now rewrite (bool_decide_eq_true_2 _ Hs).
Qed.

Lemma hasattr_insert_ne self k v key :
  k <> key -> hasattr (<[k := v]> self) key = hasattr self key.
Proof.
  intros Hne. unfold Config.hasattr. now rewrite lookup_insert_ne.
Qed.

Lemma recognized_insert self k v kv :
  recognized self kv -> recognized (<[k := v]> self) kv.
Proof. intros [H1 H2]. split; [ now apply hasattr_insert_mono | easy ]. Qed.

(** Recognized keywords are assigned one after the other, in order. *)
Lemma update_app_recognized pre : forall self rest,
  Forall (recognized self) pre ->
  update_loop self (pre ++ rest) = update_loop (assign_all self pre) rest.
Proof.
  induction pre as [ | [k v] pre IH ]; intros self rest Hpre; [ easy | ].
  apply Forall_cons in Hpre as [[Hk Hv] Hpre]. simpl in Hk, Hv.
  cbn [app Config.update_loop]. rewrite Hk. unfold setattr. rewrite Hv.
  cbn [assign_all fold_left fst snd].
  apply IH. eapply Forall_impl; [ exact Hpre | ].
  intros kv. apply recognized_insert.
Qed.

Lemma assign_all_unknown pre : forall self key,
  Forall (recognized self) pre ->
  hasattr self key = false ->
  hasattr (assign_all self pre) key = false.
Proof.
  induction pre as [ | [k v] pre IH ]; intros self key Hpre Hkey; [ easy | ].
  apply Forall_cons in Hpre as [[Hk _] Hpre]. simpl in Hk.
  cbn [assign_all fold_left fst snd]. apply IH.
  - eapply Forall_impl; [ exact Hpre | ]. intros kv. apply recognized_insert.
  - rewrite hasattr_insert_ne; [ easy | ]. intros ->. congruence.
Qed.

(** A call binds its keywords when none of them is named self; the body of
    [update] is run only then. *)
Lemma update_binds self kwargs :
  "self" ∉ map fst kwargs -> update self kwargs = update_loop self kwargs.
Proof.
  intros H. unfold Config.update, names_self.
  now rewrite (bool_decide_eq_false_2 _ H).
Qed.

(** A keyword named self, wherever it stands: the call raises TypeError
    before the loop starts, and no keyword is applied. *)
Lemma update_self_keyword self kwargs :
  "self" ∈ map fst kwargs ->
  update self kwargs
  = (Raise (TypeError
       (py "BrowserConfig.update() got multiple values for argument 'self'")),
     self)
  /\ set_config self kwargs = update self kwargs.
Proof.
  intros H. split; [ | reflexivity ]. unfold Config.update, names_self.
  now rewrite (bool_decide_eq_true_2 _ H).
Qed.

(** When every keyword is recognized the call returns and all of them are
    applied. *)
Lemma update_all_recognized self kwargs :
  "self" ∉ map fst kwargs ->
  Forall (recognized self) kwargs ->
  update self kwargs = (Return tt, assign_all self kwargs).
Proof.
  intros Hbind H. rewrite update_binds by exact Hbind.
  rewrite <- (app_nil_r kwargs) at 1.
  now rewrite update_app_recognized.
Qed.


End config_facts.


(** The same update with a keyword named self at its end: the call raises
    TypeError, and even the two known options before it are not applied. *)
Lemma update_self_keyword_example :
  Config.set_config (fun _ => false) (fun _ _ => None) Config.defaults
    [ ("headless", Config.VBool false);
      ("viewport_width", Config.VInt 1280);
      ("self", Config.VInt 1) ]
  = (Raise (TypeError
       (py "BrowserConfig.update() got multiple values for argument 'self'")),
     Config.defaults).
Proof.
  apply (update_self_keyword (fun _ => false) (fun _ _ => None)).
  apply (bool_decide_unpack _). vm_compute. exact I.
Qed.

(** ** browser_manager.py: the context pool *)

Section pool_facts.

Import BrowserManager.

Variable max_contexts : Z.

Local Abbreviation get_context := (get_context max_contexts).

Definition idle (ctx : BrowserContext) : Prop := pages ctx = [].

Lemma truthy_false_iff {A} (l : list A) : truthy l = false <-> l = [].
Proof. destruct l; simpl; split; congruence. Qed.

Lemma kept_are_busy (l : list BrowserContext) :
  Forall (fun ctx => pages ctx <> [])
         (List.filter (fun ctx => truthy (pages ctx)) l).
Proof.
  apply List.Forall_forall. intros ctx Hin.
  apply filter_In in Hin as [_ Hin].
  destruct (pages ctx); [ easy | congruence ].
Qed.

(** The loop of lines 62-64 never finds a context: line 59 has just dropped
    every context it could return. *)
Lemma reuse_loop_dead (l : list BrowserContext) :
  find (fun ctx => (length (pages ctx) =? 0)%nat)
       (List.filter (fun ctx => truthy (pages ctx)) l) = None.
Proof.
  induction l as [ | ctx l IH ]; [ easy | ].
  cbn [List.filter]. destruct (pages ctx) eqn:Hp; cbn [truthy]; [ exact IH | ].
  cbn [find]. rewrite Hp. exact IH.
Qed.

Lemma filter_idle_nil (l : list BrowserContext) :
  Forall idle l -> List.filter (fun ctx => truthy (pages ctx)) l = [].
Proof.
  induction 1 as [ | ctx l Hctx _ IH ]; [ easy | ].
  cbn [List.filter]. unfold idle in Hctx. now rewrite Hctx.
Qed.

Lemma filter_busy_id (l : list BrowserContext) :
  Forall (fun ctx => pages ctx <> []) l ->
  List.filter (fun ctx => truthy (pages ctx)) l = l.
Proof.
  induction 1 as [ | ctx l Hctx _ IH ]; [ easy | ].
  cbn [List.filter]. destruct (pages ctx); [ congruence | ].
  cbn [truthy]. now rewrite IH.
Qed.

Lemma length_filter_le {A} (f : A -> bool) (l : list A) :
  length (List.filter f l) <= length l.
Proof.
  induction l as [ | x l IH ]; [ easy | ].
  cbn [List.filter]. destruct (f x); simpl; lia.
Qed.

Lemma py_min_In {A} (key : A -> nat) (l : list A) (x : A) :
  py_min key l = Some x -> In x l.
Proof.
  destruct l as [ | a l ]; [ easy | ]. cbn [py_min]. intros [= <-].
  revert a. induction l as [ | b l IH ]; intros a; [ now left | ].
  cbn [fold_left]. destruct (key b <? key a)%nat.
  - right. destruct (IH b) as [<- | H]; [ now left | now right ].
  - destruct (IH a) as [<- | H]; [ now left | now right; right ].
Qed.

Lemma py_min_least {A} (key : A -> nat) (l : list A) (x : A) :
  py_min key l = Some x -> Forall (fun y => key x <= key y) l.
Proof.
  destruct l as [ | a l ]; [ easy | ]. cbn [py_min]. intros [= <-].
  assert (forall l a, key (fold_left
            (fun best y => if (key y <? key best)%nat then y else best) l a)
            <= key a
          /\ Forall (fun y => key (fold_left
            (fun best y => if (key y <? key best)%nat then y else best) l a)
            <= key y) l) as Hfold.
  { clear. induction l as [ | b l IH ]; intros a; cbn [fold_left].
    - split; [ lia | constructor ].
    - destruct (key b <? key a)%nat eqn:Hlt.
      + apply Nat.ltb_lt in Hlt. destruct (IH b) as [H1 H2].
        split; [ lia | constructor; [ exact H1 | exact H2 ] ].
      + apply Nat.ltb_ge in Hlt. destruct (IH a) as [H1 H2].
        split; [ exact H1 | constructor; [ lia | exact H2 ] ]. }
  destruct (Hfold l a) as [H1 H2]. constructor; assumption.
Qed.

Lemma py_min_is_Some {A} (key : A -> nat) (l : list A) :
  l <> [] -> exists x, py_min key l = Some x.
Proof. destruct l; [ congruence | eexists; reflexivity ]. Qed.

(** The number of tracked contexts never exceeds the configured maximum. *)
Lemma get_context_cap eng self :
  (Z.of_nat (length (contexts self)) <= max_contexts)%Z ->
  (Z.of_nat (length (contexts (get_context eng self).2)) <= max_contexts)%Z.
Proof.
  intros Hcap. unfold BrowserManager.get_context. cbn [contexts].
  rewrite reuse_loop_dead.
  pose proof (length_filter_le (fun ctx => truthy (pages ctx)) (contexts self))
    as Hle.
  destruct (Z.ltb_spec (Z.of_nat (length
     (List.filter (fun ctx => truthy (pages ctx)) (contexts self)))) max_contexts)
    as [Hlt | Hge].
  - unfold get_browser. cbn [browser playwright contexts created].
    destruct (browser self).
    + destruct (new_context_error eng); cbn [snd contexts];
        [ lia | rewrite length_app; simpl; lia ].
    + destruct (start_error eng); [ cbn [snd contexts]; lia | ].
      destruct (launch_error eng); [ cbn [snd contexts]; lia | ].
      destruct (new_context_error eng); cbn [snd contexts];
        [ lia | rewrite length_app; simpl; lia ].
  - destruct (py_min _ _); cbn [snd contexts]; lia.
Qed.

Lemma pool_step_cap self self' :
  (Z.of_nat (length (contexts self)) <= max_contexts)%Z ->
  pool_step max_contexts self self' ->
  (Z.of_nat (length (contexts self')) <= max_contexts)%Z.
Proof.
  intros Hcap Hstep. destruct Hstep as [eng s | s s' (_ & _ & _ & Hids)].
  - apply get_context_cap. exact Hcap.
  - rewrite <- (length_map ctx_id), Hids, length_map. exact Hcap.
Qed.

(** Along any run of the pool from its initial state (calls of
    [get_context] interleaved with page traffic) at most [max_contexts]
    contexts are tracked. *)
Lemma pool_cap_invariant self :
  (0 <= max_contexts)%Z ->
  rtc (pool_step max_contexts) initial self ->
  (Z.of_nat (length (contexts self)) <= max_contexts)%Z.
Proof.
  intros Hmax Hrun.
  assert (Z.of_nat (length (contexts initial)) <= max_contexts)%Z as Hinit
    by (simpl; lia).
  revert Hinit. induction Hrun as [ s | s1 s2 s3 Hstep _ IH ]; intros Hcap.
  - exact Hcap.
  - apply IH. eapply pool_step_cap; eauto.
Qed.

(** With a working engine and a positive maximum every call returns a
    context. *)
Lemma get_context_returns self :
  (1 <= max_contexts)%Z ->
  exists ctx, (get_context engine_ok self).1 = Return ctx.
Proof.
  intros Hmax. unfold BrowserManager.get_context. cbn [contexts].
  rewrite reuse_loop_dead.
  destruct (Z.ltb_spec (Z.of_nat (length
     (List.filter (fun ctx => truthy (pages ctx)) (contexts self)))) max_contexts)
    as [Hlt | Hge].
  - unfold get_browser, engine_ok.
    cbn [browser playwright contexts created start_error launch_error
         new_context_error].
    destruct (browser self); eexists; reflexivity.
  - destruct (List.filter _ (contexts self)) as [ | c l ] eqn:Hk;
      [ simpl in Hge; lia | ].
    eexists. reflexivity.
Qed.

(** When the maximum is reached by contexts that all have open pages, the
    call creates nothing and returns a tracked context with the fewest open
    pages. *)
Lemma get_context_least_loaded eng self :
  Forall (fun ctx => pages ctx <> []) (contexts self) ->
  (max_contexts <= Z.of_nat (length (contexts self)))%Z ->
  contexts self <> [] ->
  exists ctx,
    get_context eng self = (Return ctx, self)
    /\ In ctx (contexts self)
    /\ Forall (fun c => length (pages ctx) <= length (pages c)) (contexts self).
Proof.
  intros Hbusy Hfull Hne. unfold BrowserManager.get_context. cbn [contexts].
  rewrite reuse_loop_dead, (filter_busy_id _ Hbusy).
  destruct (Z.ltb_spec (Z.of_nat (length (contexts self))) max_contexts)
    as [Hlt | _]; [ lia | ].
  destruct (py_min_is_Some (fun c => length (pages c)) _ Hne) as [ctx Hmin].
  rewrite Hmin. exists ctx. split; [ | split ].
  - destruct self; reflexivity.
  - eapply py_min_In; eauto.
  - eapply (py_min_least (fun c => length (pages c))); eauto.
Qed.

(** A context without open pages is never handed out again: when every
    tracked context is idle, a call (working engine, positive maximum) drops
    them all from tracking and returns a context created on the spot. *)
Lemma get_context_drops_idle self :
  Forall idle (contexts self) ->
  (1 <= max_contexts)%Z ->
  Forall (fun ctx => ctx_id ctx < created self) (contexts self) ->
  let fresh := mkContext (created self) [] in
  (get_context engine_ok self).1 = Return fresh
  /\ contexts (get_context engine_ok self).2 = [fresh]
  /\ created (get_context engine_ok self).2 = S (created self)
  /\ ~ In fresh (contexts self).
Proof.
  intros Hidle Hmax Hids fresh. unfold BrowserManager.get_context.
  cbn [contexts]. rewrite filter_idle_nil by exact Hidle. cbn [find length].
  destruct (Z.ltb_spec (Z.of_nat 0) max_contexts) as [_ | Hge];
    [ | simpl in Hge; lia ].
  unfold get_browser, engine_ok.
  cbn [browser playwright contexts created start_error launch_error
       new_context_error].
  assert (~ In fresh (contexts self)) as Hfresh.
  { intros Hin. rewrite List.Forall_forall in Hids. apply Hids in Hin.
    simpl in Hin. lia. }
  destruct (browser self); cbn; auto.
Qed.

End pool_facts.

(** C1, on the code.  One tracked context with no open page and room for
    three: the call does not return it.  It drops it from tracking (without
    closing it) and creates context number 1. *)
Lemma get_context_idle_example :
  let c0 := BrowserManager.mkContext 0 [] in
  let c1 := BrowserManager.mkContext 1 [] in
  BrowserManager.get_context 3 BrowserManager.engine_ok
    (BrowserManager.mkManager true true [c0] 1)
  = (Return c1, BrowserManager.mkManager true true [c1] 2).
Proof. reflexivity. Qed.

(** C2, on the code.  With a maximum of one context, two calls in a row
    (no page is opened in between) return two different contexts: the second
    call creates a context although the maximum already exists. *)
Lemma get_context_twice_example :
  let c0 := BrowserManager.mkContext 0 [] in
  let c1 := BrowserManager.mkContext 1 [] in
  let first := BrowserManager.get_context 1 BrowserManager.engine_ok
                 BrowserManager.initial in
  let second := BrowserManager.get_context 1 BrowserManager.engine_ok
                  first.2 in
  first = (Return c0, BrowserManager.mkManager true true [c0] 1)
  /\ second = (Return c1, BrowserManager.mkManager true true [c1] 2)
  /\ BrowserManager.created second.2 = 2.
Proof. repeat split. Qed.



(** ** cache.py: lookup, store and eviction *)

Ltac split_all := repeat match goal with |- _ /\ _ => split end.
Ltac cases_done :=
  split_all; intros; try discriminate; try congruence; auto.

(** The numbers of hours of which [timedelta] makes a time span. *)
Definition representable (h : Z) : Prop :=
  (-23999999976 <= h <= 23999999999)%Z.

Lemma timedelta_hours_representable h :
  representable h -> Cache.timedelta_hours h = Return (Cache.hours h).
Proof.
  unfold representable, Cache.timedelta_hours. intros H. cbv zeta.
  pose proof (Z.div_mod h 24 ltac:(lia)).
  pose proof (Z.mod_pos_bound h 24 ltac:(lia)).
  destruct (Z.leb_spec (Z.abs (h / 24)) 999999999); [ reflexivity | lia ].
Qed.

Lemma timedelta_hours_overflow h :
  ~ representable h ->
  exists msg, Cache.timedelta_hours h = Raise (OverflowError msg).
Proof.
  unfold representable, Cache.timedelta_hours. intros H. cbv zeta.
  pose proof (Z.div_mod h 24 ltac:(lia)).
  pose proof (Z.mod_pos_bound h 24 ltac:(lia)).
  destruct (Z.leb_spec (Z.abs (h / 24)) 999999999); [ lia | eauto ].
Qed.

(** [timedelta] raises nothing but OverflowError. *)
Lemma timedelta_hours_cases h :
  (representable h /\ Cache.timedelta_hours h = Return (Cache.hours h))
  \/ (~ representable h
      /\ exists msg, Cache.timedelta_hours h = Raise (OverflowError msg)).
Proof.
  destruct (decide (representable h)) as [H | H].
  - left. split; [ exact H | now apply timedelta_hours_representable ].
  - right. split; [ exact H | now apply timedelta_hours_overflow ].
Qed.

Section cache_facts.

Import Cache.

Variable cfg : Settings.
Variable io : Faults.
Variable now : Z.

Local Abbreviation get_cached_path := (get_cached_path cfg io now).
Local Abbreviation save_to_cache := (save_to_cache cfg io now).
Local Abbreviation cleanup_old_cache := (cleanup_old_cache cfg io now).

Lemma file_exists_false d path :
  file_exists d path = false <-> files d !! path = None.
Proof.
  unfold file_exists. rewrite bool_decide_eq_false, <- eq_None_not_Some.
  reflexivity.
Qed.

Lemma file_exists_true d path :
  file_exists d path = true <-> is_Some (files d !! path).
Proof. unfold file_exists. now rewrite bool_decide_eq_true. Qed.

(** *** Lookup *)

(** A lookup leaves the index alone unless it finds a fresh entry whose
    file is gone. *)
Lemma get_cached_path_expired u o self d entry :
  representable (cache_ttl_hours cfg) ->
  metadata self !! get_cache_key cfg u o = Some entry ->
  (hours (cache_ttl_hours cfg) <= now - timestamp entry)%Z ->
  get_cached_path u o self d = (Return None, self, d).
Proof.
  intros Httl Hentry Hage. unfold Cache.get_cached_path.
  destruct (cache_enabled cfg); cbn [negb]; [ | reflexivity ].
  rewrite Hentry, (timedelta_hours_representable _ Httl).
  destruct (Z.ltb_spec (now - timestamp entry) (hours (cache_ttl_hours cfg)));
    [ lia | reflexivity ].
Qed.

Lemma get_cached_path_disabled u o self d :
  cache_enabled cfg = false ->
  get_cached_path u o self d = (Return None, self, d).
Proof. intros H. unfold Cache.get_cached_path. now rewrite H. Qed.

(** No entry under the key: None, whatever the TTL is. *)
Lemma get_cached_path_unknown u o self d :
  metadata self !! get_cache_key cfg u o = None ->
  get_cached_path u o self d = (Return None, self, d).
Proof.
  intros H. unfold Cache.get_cached_path. rewrite H.
  now destruct (cache_enabled cfg).
Qed.

(** An entry under the key and a TTL of which [timedelta] makes no time
    span: line 67 raises OverflowError, and nothing has changed. *)
Lemma get_cached_path_overflow u o self d entry :
  cache_enabled cfg = true ->
  ~ representable (cache_ttl_hours cfg) ->
  metadata self !! get_cache_key cfg u o = Some entry ->
  exists msg,
    get_cached_path u o self d = (Raise (OverflowError msg), self, d).
Proof.
  intros Hon Httl Hentry. unfold Cache.get_cached_path.
  rewrite Hon, Hentry. cbn [negb].
  destruct (timedelta_hours_overflow _ Httl) as [msg ->]. eauto.
Qed.

(** A fresh entry whose file is gone, and an index file that cannot be
    written: the lookup raises CacheError (the entry is already gone from
    the index in memory). *)
Lemma get_cached_path_orphan_write_fails u o self d entry e :
  cache_enabled cfg = true ->
  representable (cache_ttl_hours cfg) ->
  metadata self !! get_cache_key cfg u o = Some entry ->
  (now - timestamp entry < hours (cache_ttl_hours cfg))%Z ->
  file_exists d (joinpath (cache_dir self) (filename entry)) = false ->
  write_error io = Some e ->
  get_cached_path u o self d
  = (Raise (CacheError (py "Failed to save cache metadata: " ++ str e)),
     mkCache (cache_dir self)
             (delete (get_cache_key cfg u o) (metadata self)),
     d).
Proof.
  intros Hon Httl Hentry Hage Hfile Hio. unfold Cache.get_cached_path.
  rewrite Hon, Hentry, (timedelta_hours_representable _ Httl). cbn [negb].
  destruct (Z.ltb_spec (now - timestamp entry) (hours (cache_ttl_hours cfg)));
    [ | lia ].
  rewrite Hfile. unfold _save_metadata. now rewrite Hio.
Qed.

Lemma get_cached_path_orphan_pruned u o self d entry :
  cache_enabled cfg = true ->
  representable (cache_ttl_hours cfg) ->
  metadata self !! get_cache_key cfg u o = Some entry ->
  (now - timestamp entry < hours (cache_ttl_hours cfg))%Z ->
  file_exists d (joinpath (cache_dir self) (filename entry)) = false ->
  write_error io = None ->
  get_cached_path u o self d
  = (Return None,
     mkCache (cache_dir self)
             (delete (get_cache_key cfg u o) (metadata self)),
     mkDisk (files d)
            (Some (delete (get_cache_key cfg u o) (metadata self)))
            (S (index_writes d))).
Proof.
  intros Hon Httl Hentry Hage Hfile Hio. unfold Cache.get_cached_path.
  rewrite Hon, Hentry, (timedelta_hours_representable _ Httl). cbn [negb].
  destruct (Z.ltb_spec (now - timestamp entry) (hours (cache_ttl_hours cfg)));
    [ | lia ].
  rewrite Hfile. unfold _save_metadata. now rewrite Hio.
Qed.


(** A hit: a fresh entry whose file exists. *)
Lemma get_cached_path_hit u o self d entry :
  cache_enabled cfg = true ->
  representable (cache_ttl_hours cfg) ->
  metadata self !! get_cache_key cfg u o = Some entry ->
  (now - timestamp entry < hours (cache_ttl_hours cfg))%Z ->
  file_exists d (joinpath (cache_dir self) (filename entry)) = true ->
  get_cached_path u o self d
  = (Return (Some (joinpath (cache_dir self) (filename entry))), self, d).
Proof.
  intros Hon Httl Hentry Hage Hfile. unfold Cache.get_cached_path.
  rewrite Hon, Hentry, (timedelta_hours_representable _ Httl). cbn [negb].
  destruct (Z.ltb_spec (now - timestamp entry) (hours (cache_ttl_hours cfg)));
    [ | lia ].
  now rewrite Hfile.
Qed.

(** *** Store *)


(** C6, as the code has it.  [save_to_cache] never raises.  With caching
    disabled it returns the source path and touches nothing.  With caching
    enabled: when the copy fails it returns the source path and nothing has
    changed; when the copy succeeds and the index write fails it returns the
    source path; when both succeed it returns the key-derived path in the
    cache directory, that path holds the content of the source file, and
    the index, in memory and on disk, holds the new entry under the key. *)
Theorem save_to_cache_outcome u path o self d :
  let key := get_cache_key cfg u o in
  let cache_path := joinpath (cache_dir self) (key ++ ".png") in
  let entry := mkEntry u (key ++ ".png") now o in
  let r := save_to_cache u path o self d in
  (r.1.1 = Return path \/ r.1.1 = Return cache_path)
  /\ (cache_enabled cfg = false -> r = (Return path, self, d))
  /\ (cache_enabled cfg = true ->
      raises (copy2 io path cache_path d).1 = true ->
      r = (Return path, self, d))
  /\ (cache_enabled cfg = true ->
      raises (copy2 io path cache_path d).1 = false ->
      write_error io <> None ->
      r.1.1 = Return path)
  /\ (cache_enabled cfg = true ->
      raises (copy2 io path cache_path d).1 = false ->
      write_error io = None ->
      r.1.1 = Return cache_path
      /\ metadata r.1.2 = <[key := entry]> (metadata self)
      /\ index_file r.2 = Some (<[key := entry]> (metadata self))
      /\ index_writes r.2 = S (index_writes d)
      /\ files r.2 !! cache_path = files d !! path
      /\ is_Some (files d !! path)).
Proof.
  intros key cache_path entry r. subst r. unfold Cache.save_to_cache.
  fold key. fold cache_path. fold entry.
  destruct (cache_enabled cfg); cbn [negb]; [ | cases_done ].
  unfold copy2.
  destruct (files d !! path) as [content | ] eqn:Hsrc; cbn [raises fst];
    [ | cases_done ].
  destruct (bool_decide (path = cache_path)); cbn [raises fst];
    [ cases_done | ].
  destruct (copy_error io path cache_path); cbn [raises fst];
    [ cases_done | ].
  unfold _save_metadata.
  destruct (write_error io) as [e | ];
    cbn [fst snd metadata index_file index_writes files]; [ cases_done | ].
  split_all; intros; try discriminate; try congruence; auto.
  split_all; auto. apply lookup_insert_eq.
Qed.

(** *** Eviction *)

(** The age limit of [cleanup_old_cache]: the TTL when forced, twice the
    TTL otherwise. *)
Definition age_limit (force : bool) : Z :=
  if force then hours (cache_ttl_hours cfg)
  else (2 * hours (cache_ttl_hours cfg))%Z.

Lemma age_limit_hours force :
  hours (cache_ttl_hours cfg * ttl_multiplier force) = age_limit force.
Proof. unfold age_limit, hours, ttl_multiplier. destruct force; lia. Qed.

Lemma too_old_spec limit entry :
  too_old now limit entry = true <-> (limit < now - timestamp entry)%Z.
Proof. unfold too_old. apply Z.ltb_lt. Qed.

(** What the loop of lines 118-129 does to the disk, entry by entry. *)
Definition sweep (limit : Z) (dir : string) (d : Disk)
  (item : string * CacheEntry) : Disk :=
  if too_old now limit item.2 then
    if file_exists d (joinpath dir (filename item.2))
    then (unlink io (joinpath dir (filename item.2)) d).2
    else d
  else d.

Lemma scan_fold limit dir items : forall keys d,
  fold_left (scan_entry io now limit dir) items (keys, d)
  = (keys ++ map fst (List.filter (fun it => too_old now limit it.2) items),
     fold_left (sweep limit dir) items d).
Proof.
  induction items as [ | [k e] items IH ]; intros keys d.
  - cbn. now rewrite app_nil_r.
  - cbn [fold_left]. unfold scan_entry at 2, sweep at 2. cbn [snd List.filter].
    destruct (too_old now limit e).
    + rewrite IH. cbn [map fst]. now rewrite <- app_assoc.
    + now rewrite IH.
Qed.

Lemma sweep_index limit dir items : forall d,
  index_file (fold_left (sweep limit dir) items d) = index_file d
  /\ index_writes (fold_left (sweep limit dir) items d) = index_writes d.
Proof.
  induction items as [ | it items IH ]; intros d; [ easy | ].
  cbn [fold_left]. destruct (IH (sweep limit dir d it)) as [-> ->].
  unfold sweep, unlink.
  destruct (too_old now limit it.2); [ | easy ].
  destruct (file_exists d _); [ | easy ].
  destruct (unlink_error io _); easy.
Qed.

(** The paths the sweep removes: those of entries that are too old, where
    the deletion does not fail. *)
Definition swept (limit : Z) (dir : string)
  (items : list (string * CacheEntry)) (path : string) : bool :=
  existsb (fun it => too_old now limit it.2
                     && bool_decide (joinpath dir (filename it.2) = path))
          items
  && bool_decide (unlink_error io path = None).

Lemma sweep_files limit dir items : forall d path,
  files (fold_left (sweep limit dir) items d) !! path
  = if swept limit dir items path then None else files d !! path.
Proof.
  unfold swept.
  induction items as [ | [k e] items IH ]; intros d path; [ easy | ].
  cbn [fold_left existsb snd]. rewrite IH. clear IH.
  unfold sweep. cbn [snd].
  destruct (too_old now limit e); cbn [andb orb]; [ | easy ].
  destruct (decide (joinpath dir (filename e) = path)) as [Heq | Hne].
  - rewrite (bool_decide_eq_true_2 _ Heq). cbn [orb]. subst path.
    destruct (bool_decide (unlink_error io _ = None)) eqn:Herr; cbn [andb].
    + apply bool_decide_eq_true in Herr.
      destruct (existsb _ items); cbn [orb andb]; [ easy | ].
      destruct (file_exists d _) eqn:Hex.
      * unfold unlink. rewrite Herr. cbn [snd files].
        apply lookup_delete_eq.
      * now apply file_exists_false in Hex.
    + apply bool_decide_eq_false in Herr. rewrite andb_false_r.
      destruct (file_exists d _); [ | easy ].
      unfold unlink. destruct (unlink_error io _); [ easy | congruence ].
  - rewrite (bool_decide_eq_false_2 _ Hne). cbn [orb].
    destruct (existsb _ items && _); [ easy | ].
    destruct (file_exists d _); [ | easy ].
    unfold unlink. destruct (unlink_error io _); [ easy | ].
    cbn [snd files]. now apply lookup_delete_ne.
Qed.

Lemma delete_all_lookup (keys : list string) : forall (m : gmap string CacheEntry) k,
  fold_left (fun m key => delete key m) keys m !! k
  = if bool_decide (k ∈ keys) then None else m !! k.
Proof.
  induction keys as [ | key keys IH ]; intros m k; [ easy | ].
  cbn [fold_left]. rewrite IH.
  destruct (decide (k ∈ keys)) as [Hin | Hnin].
  - rewrite (bool_decide_eq_true_2 _ Hin).
    rewrite bool_decide_eq_true_2; [ easy | now right ].
  - rewrite (bool_decide_eq_false_2 _ Hnin).
    destruct (decide (k = key)) as [-> | Hne].
    + rewrite lookup_delete_eq.
      rewrite bool_decide_eq_true_2; [ easy | now left ].
    + rewrite lookup_delete_ne by congruence.
      rewrite bool_decide_eq_false_2; [ easy | ].
      intros Hin. apply elem_of_cons in Hin as [ | ]; congruence.
Qed.

Lemma expired_keys_spec limit (m : gmap string CacheEntry) k :
  k ∈ map fst (List.filter (fun it => too_old now limit it.2)
                           (map_to_list m))
  <-> exists e, m !! k = Some e /\ too_old now limit e = true.
Proof.
  rewrite list_elem_of_In, in_map_iff. split.
  - intros ([k' e] & Hk & Hin). cbn in Hk. subst k'.
    apply filter_In in Hin as [Hin Hold]. cbn in Hold.
    apply list_elem_of_In, elem_of_map_to_list in Hin. eauto.
  - intros (e & Hm & Hold). exists (k, e). split; [ easy | ].
    apply filter_In. split; [ | exact Hold ].
    now apply list_elem_of_In, elem_of_map_to_list.
Qed.

Lemma swept_spec limit dir (m : gmap string CacheEntry) path :
  swept limit dir (map_to_list m) path = true
  <-> (exists k e, m !! k = Some e /\ too_old now limit e = true
                   /\ joinpath dir (filename e) = path)
      /\ unlink_error io path = None.
Proof.
  unfold swept. rewrite andb_true_iff, bool_decide_eq_true, existsb_exists.
  split.
  - intros [([k e] & Hin & Hb) Herr]. cbn in Hb.
    apply andb_true_iff in Hb as [Hold Hp]. apply bool_decide_eq_true in Hp.
    apply list_elem_of_In, elem_of_map_to_list in Hin. eauto 10.
  - intros [(k & e & Hm & Hold & Hp) Herr]. split; [ | exact Herr ].
    exists (k, e). split.
    + now apply list_elem_of_In, elem_of_map_to_list.
    + cbn. rewrite Hold. now apply bool_decide_eq_true.
Qed.

Lemma sweep_nothing limit dir items : forall d,
  Forall (fun it => too_old now limit it.2 = false) items ->
  fold_left (sweep limit dir) items d = d
  /\ List.filter (fun it => too_old now limit it.2) items = [].
Proof.
  induction items as [ | it items IH ]; intros d Hall; [ easy | ].
  apply Forall_cons in Hall as [Hit Hall].
  cbn [fold_left List.filter]. unfold sweep at 2. rewrite Hit.
  now apply IH.
Qed.

(** The entries of [self] that [cleanup_old_cache] has to remove. *)
Definition overdue (force : bool) (self : ScreenshotCache) (k : string)
  (e : CacheEntry) : Prop :=
  metadata self !! k = Some e /\ (age_limit force < now - timestamp e)%Z.

(** The cleanup when line 116 goes through. *)
Lemma cleanup_unfold force self d :
  representable (cache_ttl_hours cfg * ttl_multiplier force) ->
  cleanup_old_cache force self d
  = let expired_keys :=
      map fst (List.filter (fun it => too_old now (age_limit force) it.2)
                           (map_to_list (metadata self))) in
    let d1 := fold_left (sweep (age_limit force) (cache_dir self))
                        (map_to_list (metadata self)) d in
    let self1 := mkCache (cache_dir self)
                   (fold_left (fun m key => delete key m) expired_keys
                              (metadata self)) in
    if BrowserManager.truthy expired_keys then
      match _save_metadata io self1 d1 with
      | (Raise e, d2) => (Raise e, self1, d2)
      | (Return _, d2) => (Return tt, self1, d2)
      end
    else (Return tt, self1, d1).
Proof.
  intros Hlimit. unfold Cache.cleanup_old_cache.
  rewrite (timedelta_hours_representable _ Hlimit), age_limit_hours.
  rewrite scan_fold. reflexivity.
Qed.

(** The cleanup when line 116 raises: nothing has been looked at. *)
Lemma cleanup_overflow force self d :
  ~ representable (cache_ttl_hours cfg * ttl_multiplier force) ->
  exists msg,
    cleanup_old_cache force self d = (Raise (OverflowError msg), self, d).
Proof.
  intros Hlimit. unfold Cache.cleanup_old_cache.
  destruct (timedelta_hours_overflow _ Hlimit) as [msg ->]. eauto.
Qed.

Lemma cleanup_metadata force self d k :
  representable (cache_ttl_hours cfg * ttl_multiplier force) ->
  metadata (cleanup_old_cache force self d).1.2 !! k
  = match metadata self !! k with
    | Some e => if (age_limit force <? now - timestamp e)%Z
                then None else Some e
    | None => None
    end.
Proof.
  intros Hlimit. rewrite cleanup_unfold by exact Hlimit. cbv zeta.
  set (keys := map fst _).
  transitivity
    (fold_left (fun m key => delete key m) keys (metadata self) !! k).
  { destruct (BrowserManager.truthy keys);
      [ unfold _save_metadata; destruct (write_error io) | ]; reflexivity. }
  rewrite delete_all_lookup. subst keys.
  destruct (metadata self !! k) as [e | ] eqn:Hk.
  - destruct (Z.ltb_spec (age_limit force) (now - timestamp e)) as [Hold | Hyoung].
    + rewrite bool_decide_eq_true_2; [ easy | ].
      apply expired_keys_spec. exists e. split; [ easy | ].
      now apply too_old_spec.
    + rewrite bool_decide_eq_false_2; [ easy | ].
      rewrite expired_keys_spec. intros (e' & He' & Hold).
      assert (e' = e) as -> by congruence.
      apply too_old_spec in Hold. lia.
  - now destruct (bool_decide _).
Qed.

Lemma cleanup_files force self d path :
  representable (cache_ttl_hours cfg * ttl_multiplier force) ->
  files (cleanup_old_cache force self d).2 !! path
  = if swept (age_limit force) (cache_dir self)
             (map_to_list (metadata self)) path
    then None else files d !! path.
Proof.
  intros Hlimit. rewrite cleanup_unfold by exact Hlimit. cbv zeta.
  rewrite <- sweep_files.
  destruct (BrowserManager.truthy _); [ | reflexivity ].
  unfold _save_metadata. destruct (write_error io); reflexivity.
Qed.


End cache_facts.

(** *** A concrete cache: one entry for the front page of example.com *)

Definition example_cfg : Cache.Settings := Cache.mkSettings true 6 1920 1080.
Definition example_url : pystr := py "https://example.com".
Definition example_options : option Cache.CacheOptions :=
  Some (Cache.mkOptions true None false None).
Definition example_key : string := "5d4c2f308a4d26e0abd2a78c8863fe08".
Definition example_file : string := "cache/screenshots/5d4c2f308a4d26e0abd2a78c8863fe08.png".
Definition example_entry : Cache.CacheEntry :=
  Cache.mkEntry example_url "5d4c2f308a4d26e0abd2a78c8863fe08.png" 0
                example_options.
Definition example_cache : Cache.ScreenshotCache :=
  Cache.mkCache "cache/screenshots" {[ example_key := example_entry ]}.
Definition empty_cache : Cache.ScreenshotCache :=
  Cache.mkCache "cache/screenshots" ∅.
Definition permission_denied : exn := OSError (py "Permission denied").

(** The digest is the one CPython computes for these arguments. *)
Lemma example_key_correct :
  Cache.get_cache_key example_cfg example_url example_options = example_key.
Proof. vm_compute. reflexivity. Qed.


(** C6 fails on the code when caching is switched off: the source file
    exists and nothing fails, yet the call returns the source path, copies
    nothing and records nothing. *)
Lemma store_disabled_counterexample :
  let cfg := Cache.mkSettings false 6 1920 1080 in
  let d := Cache.mkDisk {[ "shot.png" := "PNG" ]} None 0 in
  Cache.save_to_cache cfg Cache.no_faults 0 example_url "shot.png"
    example_options empty_cache d
  = (Return "shot.png", empty_cache, d)
  /\ "shot.png" <> Cache.joinpath "cache/screenshots"
        (Cache.get_cache_key cfg example_url example_options ++ ".png")
  /\ Cache.metadata empty_cache
       !! Cache.get_cache_key cfg example_url example_options = None.
Proof. vm_compute. repeat split. discriminate. Qed.


(** With a TTL of 12000000000 hours, twice of which is a thousand million
    days, the cleanup that is not forced raises OverflowError even on an
    empty index. *)
Lemma cleanup_overflow_example :
  let d := Cache.mkDisk ∅ None 0 in
  Cache.cleanup_old_cache (Cache.mkSettings true 12000000000 1920 1080)
    Cache.no_faults 0 false empty_cache d
  = (Raise (OverflowError
       (py "days=1000000000; must have magnitude <= 999999999")),
     empty_cache, d).
Proof. vm_compute. reflexivity. Qed.

(** ** core.py: the retry loop of capture_screenshot *)

Section capture_facts.

Import Core Capture.

Variable cfg : Settings.
Variable world : World.
Variable req : Request.

Local Abbreviation out := (resolve_output_path cfg world req).
Local Abbreviation attempt_body := (attempt_body world req).
Local Abbreviation one_attempt := (one_attempt cfg world req).
Local Abbreviation attempts := (attempts cfg world req).

(** *** What an attempt can end in *)

(** Attempt [j] raises [e] out of the try block. *)
Definition raises_at (j : nat) (e : exn) : Prop :=
  forall s, (attempt_body j out s).1 = Raise e.

(** Attempt [j] fails with an exception that is no BrowserError. *)
Definition fails_unclassified (j : nat) : Prop :=
  exists e, raises_at j e /\ is_BrowserError e = false.

(** Attempt [j] gets to the return statement of line 168. *)
Definition succeeds (j : nat) : Prop :=
  forall s, (attempt_body j out s).1 = Return out.

(** *** The calls an attempt makes *)

Definition is_start (ev : event) : bool :=
  match ev with
  | GetContext => true
  | _ => false
  end.

Definition opened_page (ev : event) : option nat :=
  match ev with
  | NewPage _ (Some p) => Some p
  | _ => None
  end.

(** The number of attempts begun in a trace: each begins with the call of
    [get_context] of line 98. *)
Definition attempts_made (t : list event) : nat :=
  length (List.filter is_start t).

Definition navigations (t : list event) : nat :=
  length (List.filter (fun ev => match ev with Goto _ _ => true | _ => false end)
                      t).

(** What a piece of the try block of attempt [k] does to the run: it adds
    calls to the trace, none of them [get_context]; and either it opens no
    page and leaves the variable [page] alone, or the pages it opens are
    page [k] and the variable holds page [k] afterwards. *)
Definition footprint {A} (k : nat) (m : M unit A) : Prop :=
  forall s, exists t,
    trace (m s).2 = trace s ++ t
    /\ Forall (fun ev => is_start ev = false) t
    /\ ((page (m s).2 = page s
         /\ Forall (fun ev => opened_page ev = None) t)
        \/ (page (m s).2 = Some k
            /\ Forall (fun ev => opened_page ev = None
                                 \/ opened_page ev = Some k) t)).

Lemma footprint_ret {A} k (a : A) : footprint k (ret a).
Proof.
  intros s. exists []. cbn. rewrite app_nil_r. split_all; auto.
Qed.

Lemma footprint_raise {A} k e : footprint k (@raise unit A e).
Proof.
  intros s. exists []. cbn. rewrite app_nil_r. split_all; auto.
Qed.

Lemma footprint_call k ev response :
  is_start ev = false -> opened_page ev = None ->
  footprint k (call ev response).
Proof.
  intros Hs Ho s. exists [ev]. cbn. split_all; auto.
Qed.

Lemma footprint_ask {A} k ev (response : outcome A) :
  is_start ev = false -> opened_page ev = None ->
  footprint k (ask ev response).
Proof.
  intros Hs Ho s. exists [ev]. cbn. split_all; auto.
Qed.

Lemma footprint_new_page k r : footprint k (new_page req r k).
Proof.
  intros s. unfold new_page. destruct (on_new_page r).
  - exists [NewPage (emulation req) None]. cbn. split_all; auto.
  - exists [NewPage (emulation req) (Some k)]. cbn. split_all; auto.
Qed.

Lemma footprint_step {A B} k (m : M unit A) (s : Run unit)
  (rest : outcome A -> Run unit -> outcome B * Run unit) :
  footprint k m ->
  (forall r s1, exists t,
      trace (rest r s1).2 = trace s1 ++ t
      /\ Forall (fun ev => is_start ev = false) t
      /\ ((page (rest r s1).2 = page s1
           /\ Forall (fun ev => opened_page ev = None) t)
          \/ (page (rest r s1).2 = Some k
              /\ Forall (fun ev => opened_page ev = None
                                   \/ opened_page ev = Some k) t))) ->
  exists t,
    trace (rest (m s).1 (m s).2).2 = trace s ++ t
    /\ Forall (fun ev => is_start ev = false) t
    /\ ((page (rest (m s).1 (m s).2).2 = page s
         /\ Forall (fun ev => opened_page ev = None) t)
        \/ (page (rest (m s).1 (m s).2).2 = Some k
            /\ Forall (fun ev => opened_page ev = None
                                 \/ opened_page ev = Some k) t)).
Proof.
  intros Hm Hrest.
  destruct (Hm s) as (t1 & Ht1 & Hs1 & Hp1).
  destruct (Hrest (m s).1 (m s).2) as (t2 & Ht2 & Hs2 & Hp2).
  exists (t1 ++ t2). rewrite Ht2, Ht1, app_assoc. split_all; [ easy | | ].
  - apply Forall_app; auto.
  - destruct Hp2 as [[Hpage2 Ho2] | [Hpage2 Ho2]].
    + destruct Hp1 as [[Hpage1 Ho1] | [Hpage1 Ho1]].
      * left. split; [ congruence | apply Forall_app; auto ].
      * right. split; [ congruence | ]. apply Forall_app. split; [ easy | ].
        eapply Forall_impl; [ exact Ho2 | ]. cbn. auto.
    + right. split; [ easy | ]. apply Forall_app. split; [ | easy ].
      destruct Hp1 as [[_ Ho1] | [_ Ho1]]; [ | easy ].
      eapply Forall_impl; [ exact Ho1 | ]. cbn. auto.
Qed.

Lemma footprint_bind {A B} k (m : M unit A) (f : A -> M unit B) :
  footprint k m -> (forall a, footprint k (f a)) -> footprint k (bind m f).
Proof.
  intros Hm Hf s.
  pose proof (footprint_step k m s
    (fun r s1 => match r with
                 | Return a => f a s1
                 | Raise e => (Raise e, s1)
                 end) Hm) as Hstep.
  unfold bind. destruct (m s) as [[a | e] s1]; apply Hstep;
    intros [a' | e'] s'; try apply Hf;
    exists []; cbn; rewrite app_nil_r; split_all; auto.
Qed.

Lemma footprint_try_except {A} k (m : M unit A) (h : exn -> M unit A) :
  footprint k m -> (forall e, footprint k (h e)) ->
  footprint k (try_except m h).
Proof.
  intros Hm Hh s.
  pose proof (footprint_step k m s
    (fun r s1 => match r with
                 | Return a => (Return a, s1)
                 | Raise e => h e s1
                 end) Hm) as Hstep.
  unfold try_except. destruct (m s) as [[a | e] s1]; apply Hstep;
    intros [a' | e'] s'; try apply Hh;
    exists []; cbn; rewrite app_nil_r; split_all; auto.
Qed.

Lemma footprint_wait_each k r p sels : forall i,
  footprint k (wait_each req r p i sels).
Proof.
  induction sels as [ | sel sels IH ]; intros i; cbn [wait_each].
  - apply footprint_ret.
  - apply footprint_bind; [ | intros _; apply IH ].
    apply footprint_try_except; [ now apply footprint_call | ].
    intros e. destruct (is_PlaywrightError e); apply footprint_raise.
Qed.

Lemma footprint_after_get_context k r :
  footprint k
    (p <- new_page req r k ;;
     _ <- navigate req r p ;;
     _ <- wait_for_content req r p ;;
     _ <- (if (0 <? extra_wait req)%Z
           then call (WaitForTimeout p (extra_wait req))
                     (on_wait_for_timeout r)
           else ret tt) ;;
     _ <- take_screenshot req r p out ;;
     _ <- (if use_cache req
           then call (SaveToCache (url req) out) (on_save_to_cache r)
           else ret tt) ;;
     ret out).
Proof.
  apply footprint_bind; [ apply footprint_new_page | intros p ].
  apply footprint_bind; [ | intros _ ].
  { apply footprint_try_except; [ now apply footprint_call | ].
    intros e. destruct (is_PlaywrightError e); apply footprint_raise. }
  apply footprint_bind; [ | intros _ ].
  { unfold wait_for_content. destruct (wait_for req) as [ | [ | c sel ] | sels ];
      try apply footprint_ret; apply footprint_wait_each. }
  apply footprint_bind; [ | intros _ ].
  { destruct (0 <? extra_wait req)%Z;
      [ now apply footprint_call | apply footprint_ret ]. }
  apply footprint_bind; [ | intros _ ].
  { apply footprint_try_except.
    - destruct (str_truthy (selector req)); [ | now apply footprint_call ].
      apply footprint_bind; [ now apply footprint_ask | intros [ | ] ];
        [ now apply footprint_call | apply footprint_raise ].
    - intros e. destruct (is_PlaywrightError e); apply footprint_raise. }
  apply footprint_bind; [ | intros _; apply footprint_ret ].
  destruct (use_cache req); [ now apply footprint_call | apply footprint_ret ].
Qed.

(** The trace of one round of the loop: the call of [get_context], then
    calls that start no attempt, then the closing of the page.  Every page
    opened in the round is closed at its end. *)
Definition round_trace (k : nat) (t : list event) : Prop :=
  exists body closing,
    t = GetContext :: body ++ closing
    /\ Forall (fun ev => is_start ev = false) (body ++ closing)
    /\ Forall (fun ev => opened_page ev = None) closing
    /\ (Forall (fun ev => opened_page ev = None) body
        \/ (closing = [ClosePage k]
            /\ Forall (fun ev => opened_page ev = None
                                 \/ opened_page ev = Some k) body)).

Lemma one_attempt_eq k s :
  one_attempt k out s
  = (match (attempt_body k out s).1 with
     | Return path => Return (Some (Some path))
     | Raise e =>
         if is_BrowserError e then Raise e
         else if (Z.of_nat k =? max_retries cfg - 1)%Z then Return (Some None)
              else Return None
     end,
     close_page (attempt_body k out s).2).
Proof.
  unfold Capture.one_attempt, finally, try_except, bind, ret, raise.
  destruct (attempt_body k out s) as [[path | e] s1]; cbn [fst snd];
    [ reflexivity | ].
  destruct (is_BrowserError e); [ reflexivity | ].
  destruct (Z.of_nat k =? max_retries cfg - 1)%Z; reflexivity.
Qed.

Lemma round_trace_intro k body closing :
  Forall (fun ev => is_start ev = false) body ->
  Forall (fun ev => is_start ev = false) closing ->
  Forall (fun ev => opened_page ev = None) closing ->
  (Forall (fun ev => opened_page ev = None) body
   \/ (closing = [ClosePage k]
       /\ Forall (fun ev => opened_page ev = None
                            \/ opened_page ev = Some k) body)) ->
  round_trace k (GetContext :: body ++ closing).
Proof.
  intros H1 H2 H3 H4. exists body, closing. split_all; auto.
  apply Forall_app; auto.
Qed.

Lemma one_attempt_trace k s :
  exists t, trace (one_attempt k out s).2 = trace s ++ t /\ round_trace k t.
Proof.
  rewrite one_attempt_eq. cbn [snd].
  unfold Capture.attempt_body, bind at 1, call at 1.
  set (rest := bind (new_page req _ k) _).
  assert (footprint k rest) as Hrest by apply footprint_after_get_context.
  destruct (on_get_context (renderer world k)) as [e0 | ].
  - (* get_context raised: nothing else is called in this attempt *)
    cbn [snd]. unfold close_page, log. cbn [page trace].
    destruct (page s) as [p | ].
    + exists (GetContext :: [] ++ [ClosePage p]). cbn [trace]. split.
      * now rewrite <- app_assoc.
      * apply round_trace_intro; repeat constructor.
    + exists (GetContext :: [] ++ []). cbn [trace]. split; [ easy | ].
      apply round_trace_intro; repeat constructor.
  - destruct (Hrest (log GetContext s)) as (t & Ht & Hs & Hp).
    unfold close_page.
    destruct Hp as [[Hpage Ho] | [Hpage Ho]]; rewrite Hpage.
    + cbn [log page]. destruct (page s) as [p | ].
      * exists (GetContext :: t ++ [ClosePage p]). cbn [log trace].
        rewrite Ht. cbn [log trace]. split.
        { now rewrite <- !app_assoc. }
        apply round_trace_intro; auto; repeat constructor.
      * exists (GetContext :: t ++ []). rewrite Ht. cbn [log trace]. split.
        { now rewrite app_nil_r, <- !app_assoc. }
        apply round_trace_intro; auto; repeat constructor.
    + exists (GetContext :: t ++ [ClosePage k]). cbn [log trace].
      rewrite Ht. cbn [log trace]. split.
      { now rewrite <- !app_assoc. }
      apply round_trace_intro; auto; repeat constructor.
Qed.

(** *** Pages are closed *)

(** Page [p] is closed in [t] before another attempt starts. *)
Fixpoint closed_in_round (p : nat) (t : list event) : bool :=
  match t with
  | [] => false
  | ClosePage q :: rest => (q =? p)%nat || closed_in_round p rest
  | ev :: rest => negb (is_start ev) && closed_in_round p rest
  end.

(** Every page opened in [t] is closed before the next attempt starts. *)
Fixpoint closes_pages (t : list event) : bool :=
  match t with
  | [] => true
  | ev :: rest =>
      match opened_page ev with
      | Some p => closed_in_round p rest
      | None => true
      end && closes_pages rest
  end.

Lemma closed_in_round_app p t1 t2 :
  closed_in_round p t1 = true -> closed_in_round p (t1 ++ t2) = true.
Proof.
  induction t1 as [ | ev t1 IH ]; [ easy | ].
  destruct ev; cbn; intros H; try discriminate; try (now apply IH).
  apply orb_true_iff in H as [H | H]; [ now rewrite H | ].
  rewrite IH by easy. apply orb_true_r.
Qed.

Lemma closes_pages_app t1 t2 :
  closes_pages t1 = true -> closes_pages t2 = true ->
  closes_pages (t1 ++ t2) = true.
Proof.
  induction t1 as [ | ev t1 IH ]; [ easy | ].
  cbn [app closes_pages]. intros H1 H2.
  apply andb_true_iff in H1 as [Hev H1]. rewrite IH by easy.
  destruct (opened_page ev); [ | easy ].
  now rewrite closed_in_round_app.
Qed.

Lemma closes_pages_none t :
  Forall (fun ev => opened_page ev = None) t -> closes_pages t = true.
Proof.
  induction 1 as [ | ev t Hev _ IH ]; [ easy | ].
  cbn [closes_pages]. now rewrite Hev, IH.
Qed.

Lemma closed_in_round_end k t :
  Forall (fun ev => is_start ev = false) t ->
  closed_in_round k (t ++ [ClosePage k]) = true.
Proof.
  induction 1 as [ | ev t Hev _ IH ].
  - cbn. now rewrite Nat.eqb_refl.
  - destruct ev; cbn; rewrite ?IH; try easy. apply orb_true_r.
Qed.

Lemma closes_pages_round k t : round_trace k t -> closes_pages t = true.
Proof.
  intros (body & closing & -> & Hs & Hc & Hb).
  cbn [closes_pages opened_page andb].
  destruct Hb as [Hb | [-> Hb]].
  - apply closes_pages_none, Forall_app. auto.
  - apply Forall_app in Hs as [Hs _]. clear Hc.
    induction body as [ | ev body IH ]; [ easy | ].
    apply Forall_cons in Hs as [Hev Hs]. apply Forall_cons in Hb as [Ho Hb].
    cbn [app closes_pages]. rewrite IH by easy.
    destruct Ho as [-> | ->]; [ easy | ].
    now rewrite closed_in_round_end.
Qed.

(** *** The loop *)

(** [t] is the trace of the [k] rounds that start with round [a]. *)
Fixpoint rounds (a k : nat) (t : list event) : Prop :=
  match k with
  | O => t = []
  | S k' => exists t1 t2, t = t1 ++ t2 /\ round_trace a t1 /\ rounds (S a) k' t2
  end.

Lemma attempts_made_app t1 t2 :
  attempts_made (t1 ++ t2) = attempts_made t1 + attempts_made t2.
Proof. unfold attempts_made. now rewrite List.filter_app, length_app. Qed.

Lemma attempts_made_round k t : round_trace k t -> attempts_made t = 1.
Proof.
  intros (body & closing & -> & Hs & _). unfold attempts_made.
  cbn [List.filter is_start length]. f_equal.
  induction Hs as [ | ev t Hev _ IH ]; [ easy | ].
  cbn [List.filter]. now rewrite Hev.
Qed.

Lemma rounds_attempts_made k : forall a t,
  rounds a k t -> attempts_made t = k.
Proof.
  induction k as [ | k IH ]; intros a t; cbn [rounds].
  - now intros ->.
  - intros (t1 & t2 & -> & H1 & H2).
    rewrite attempts_made_app, (attempts_made_round _ _ H1), (IH _ _ H2).
    reflexivity.
Qed.

Lemma rounds_close_pages k : forall a t,
  rounds a k t -> closes_pages t = true.
Proof.
  induction k as [ | k IH ]; intros a t; cbn [rounds].
  - now intros ->.
  - intros (t1 & t2 & -> & H1 & H2).
    apply closes_pages_app; [ eapply closes_pages_round | eapply IH ]; eauto.
Qed.

Lemma rounds_one a t : round_trace a t -> rounds a 1 t.
Proof. intros H. exists t, []. now rewrite app_nil_r. Qed.

Lemma rounds_cons a k t1 t2 :
  round_trace a t1 -> rounds (S a) k t2 -> rounds a (S k) (t1 ++ t2).
Proof. intros H1 H2. exists t1, t2. auto. Qed.

(** Whatever happens, the loop leaves the trace of some rounds behind. *)
Lemma attempts_trace n : forall a s,
  exists k t,
    k <= n
    /\ trace (attempts n a out s).2 = trace s ++ t
    /\ rounds a k t.
Proof.
  induction n as [ | n IH ]; intros a s; cbn [Capture.attempts].
  - exists 0, []. cbn. now rewrite app_nil_r.
  - unfold bind.
    destruct (one_attempt_trace a s) as (t1 & Ht1 & Hr1).
    destruct (one_attempt a out s) as [[[result | ] | e] s1]; cbn [snd] in *.
    + exists 1, t1. split_all; [ lia | easy | now apply rounds_one ].
    + destruct (IH (S a) s1) as (k & t2 & Hk & Ht2 & Hr2).
      exists (S k), (t1 ++ t2). split_all; [ lia | | now apply rounds_cons ].
      now rewrite Ht2, Ht1, app_assoc.
    + exists 1, t1. split_all; [ lia | easy | now apply rounds_one ].
Qed.

Lemma attempts_S n a s :
  attempts (S n) a out s
  = match one_attempt a out s with
    | (Return (Some result), s1) => (Return result, s1)
    | (Return None, s1) => attempts n (S a) out s1
    | (Raise e, s1) => (Raise e, s1)
    end.
Proof.
  cbn [Capture.attempts]. unfold bind.
  now destruct (one_attempt a out s) as [[[result | ] | e] s1].
Qed.

Lemma not_last_attempt a n :
  a + S (S n) = Z.to_nat (max_retries cfg) ->
  (Z.of_nat a =? max_retries cfg - 1)%Z = false.
Proof. intros H. apply Z.eqb_neq. lia. Qed.

Lemma last_attempt a :
  a + 1 = Z.to_nat (max_retries cfg) ->
  (Z.of_nat a =? max_retries cfg - 1)%Z = true.
Proof. intros H. apply Z.eqb_eq. lia. Qed.

(** A round whose attempt fails with an unclassified exception, and which
    is not the last one, hands over to the next round. *)
Lemma one_attempt_unclassified a n s :
  a + S (S n) = Z.to_nat (max_retries cfg) ->
  fails_unclassified a ->
  (one_attempt a out s).1 = Return None.
Proof.
  intros Hn (e & Hraise & Hclass). rewrite one_attempt_eq. cbn [fst].
  now rewrite Hraise, Hclass, (not_last_attempt a n).
Qed.

(** A BrowserError in attempt [a + k], after [k] attempts that failed with
    unclassified exceptions, comes out of the loop, and the loop has run
    [k + 1] rounds. *)
Lemma attempts_classified e k : forall n a s,
  a + n = Z.to_nat (max_retries cfg) ->
  k < n ->
  (forall j, j < k -> fails_unclassified (a + j)) ->
  raises_at (a + k) e ->
  is_BrowserError e = true ->
  (attempts n a out s).1 = Raise e
  /\ exists t, trace (attempts n a out s).2 = trace s ++ t
               /\ rounds a (S k) t.
Proof.
  induction k as [ | k IH ]; intros n a s Hn Hk Hfail Hraise Hclass.
  - destruct n as [ | n ]; [ lia | ].
    destruct (one_attempt_trace a s) as (t1 & Ht1 & Hr1).
    pose proof (one_attempt_eq a s) as Heq.
    rewrite Nat.add_0_r in Hraise. rewrite (Hraise s), Hclass in Heq.
    rewrite attempts_S, Heq. rewrite Heq in Ht1.
    split; [ easy | ]. exists t1. split; [ easy | now apply rounds_one ].
  - destruct n as [ | [ | n ] ]; [ lia | lia | ]. rewrite attempts_S.
    destruct (one_attempt_trace a s) as (t1 & Ht1 & Hr1).
    pose proof (Hfail 0 ltac:(lia)) as Hfirst. rewrite Nat.add_0_r in Hfirst.
    pose proof (one_attempt_unclassified a n s Hn Hfirst) as Hone.
    destruct (one_attempt a out s) as [r s1]. cbn [fst snd] in *. subst r.
    destruct (IH (S n) (S a) s1) as (Hres & t2 & Ht2 & Hr2); try lia.
    + intros j Hj. replace (S a + j) with (a + S j) by lia.
      apply Hfail. lia.
    + now replace (S a + k) with (a + S k) by lia.
    + easy.
    + split; [ easy | ]. exists (t1 ++ t2).
      split; [ now rewrite Ht2, Ht1, app_assoc | now apply rounds_cons ].
Qed.

(** When every attempt fails with an unclassified exception the loop
    returns None after all its rounds. *)
Lemma attempts_exhausted n : forall a s,
  a + n = Z.to_nat (max_retries cfg) ->
  (forall j, j < n -> fails_unclassified (a + j)) ->
  (attempts n a out s).1 = Return None
  /\ exists t, trace (attempts n a out s).2 = trace s ++ t /\ rounds a n t.
Proof.
  induction n as [ | n IH ]; intros a s Hn Hfail.
  - cbn. split; [ easy | ]. exists []. now rewrite app_nil_r.
  - destruct (one_attempt_trace a s) as (t1 & Ht1 & Hr1).
    destruct (Hfail 0 ltac:(lia)) as (e & Hraise & Hclass).
    rewrite Nat.add_0_r in Hraise.
    pose proof (one_attempt_eq a s) as Heq.
    rewrite (Hraise s), Hclass in Heq.
    destruct n as [ | n ].
    + rewrite (last_attempt a) in Heq by lia.
      rewrite attempts_S, Heq. rewrite Heq in Ht1. split; [ easy | ].
      exists t1. split; [ easy | now apply rounds_one ].
    + rewrite (not_last_attempt a n) in Heq by lia.
      rewrite attempts_S, Heq. rewrite Heq in Ht1. cbn [snd] in Ht1.
      destruct (IH (S a) (close_page (attempt_body a out s).2))
        as (Hres & t2 & Ht2 & Hr2); try lia.
      * intros j Hj. replace (S a + j) with (a + S j) by lia.
        apply Hfail. lia.
      * split; [ easy | ]. exists (t1 ++ t2).
        split; [ now rewrite Ht2, Ht1, app_assoc | now apply rounds_cons ].
Qed.

(** When the attempts before the last fail with unclassified exceptions and
    the last one succeeds, the loop returns the output path. *)
Lemma attempts_last_succeeds n : forall a s,
  a + S n = Z.to_nat (max_retries cfg) ->
  (forall j, j < n -> fails_unclassified (a + j)) ->
  succeeds (a + n) ->
  (attempts (S n) a out s).1 = Return (Some out)
  /\ exists t, trace (attempts (S n) a out s).2 = trace s ++ t
               /\ rounds a (S n) t.
Proof.
  induction n as [ | n IH ]; intros a s Hn Hfail Hok.
  - destruct (one_attempt_trace a s) as (t1 & Ht1 & Hr1).
    pose proof (one_attempt_eq a s) as Heq.
    rewrite Nat.add_0_r in Hok. rewrite (Hok s) in Heq.
    rewrite attempts_S, Heq. rewrite Heq in Ht1. split; [ easy | ].
    exists t1. split; [ easy | now apply rounds_one ].
  - rewrite attempts_S.
    destruct (one_attempt_trace a s) as (t1 & Ht1 & Hr1).
    pose proof (Hfail 0 ltac:(lia)) as Hfirst. rewrite Nat.add_0_r in Hfirst.
    pose proof (one_attempt_unclassified a n s Hn Hfirst) as Hone.
    destruct (one_attempt a out s) as [r s1]. cbn [fst snd] in *. subst r.
    destruct (IH (S a) s1) as (Hres & t2 & Ht2 & Hr2); try lia.
    + intros j Hj. replace (S a + j) with (a + S j) by lia.
      apply Hfail. lia.
    + now replace (S a + n) with (a + S n) by lia.
    + split; [ easy | ]. exists (t1 ++ t2).
      split; [ now rewrite Ht2, Ht1, app_assoc | now apply rounds_cons ].
Qed.

(** *** Where the classified errors come from *)

Ltac run_body :=
  repeat progress
    (unfold Capture.attempt_body, bind, call, ask, ret, new_page, navigate,
       wait_for_content, take_screenshot, try_except, raise, log;
     cbv beta match zeta; cbn [page trace local]).

Ltac answer H := rewrite ?H; run_body.

Lemma navigation_error_raised j err :
  on_get_context (renderer world j) = None ->
  on_new_page (renderer world j) = None ->
  on_goto (renderer world j) = Some err ->
  is_PlaywrightError err = true ->
  forall s,
    attempt_body j out s
    = (Raise (NavigationError
                (py "Failed to navigate to " ++ url req ++ py ": " ++ str err)),
       mkRun (Some j)
             (trace s ++ [GetContext; NewPage (emulation req) (Some j);
                          Goto j (url req)])
             (local s)).
Proof.
  intros Hc Hp Hg He s. run_body.
  answer Hc. answer Hp. answer Hg. answer He.
  now rewrite <- !app_assoc.
Qed.

Lemma timeout_error_raised j sel sels err :
  on_get_context (renderer world j) = None ->
  on_new_page (renderer world j) = None ->
  on_goto (renderer world j) = None ->
  wait_for req = WaitAll (sel :: sels) ->
  on_wait_for_selector (renderer world j) 0 sel = Some err ->
  is_PlaywrightError err = true ->
  raises_at j (TimeoutError (py "Timeout waiting for selector: " ++ sel)).
Proof.
  intros Hc Hp Hg Hw Hs He s. run_body.
  answer Hc. answer Hp. answer Hg. answer Hw.
  cbn [wait_each]. run_body. answer Hs. answer He. reflexivity.
Qed.

Lemma element_not_found_raised j c sel :
  on_get_context (renderer world j) = None ->
  on_new_page (renderer world j) = None ->
  on_goto (renderer world j) = None ->
  wait_for req = NoWait ->
  (extra_wait req <= 0)%Z ->
  selector req = Some (c :: sel) ->
  on_query_selector (renderer world j) = Return false ->
  raises_at j (ElementNotFoundError
                 (py "Selector '" ++ c :: sel ++ py "' not found")).
Proof.
  intros Hc Hp Hg Hw Hx Hsel Hq s. run_body.
  answer Hc. answer Hp. answer Hg. answer Hw.
  destruct (Z.ltb_spec 0 (extra_wait req)) as [ | _ ]; [ lia | ].
  answer Hsel. cbn [str_truthy default]. answer Hq. reflexivity.
Qed.

Lemma screenshot_error_raised j err :
  on_get_context (renderer world j) = None ->
  on_new_page (renderer world j) = None ->
  on_goto (renderer world j) = None ->
  wait_for req = NoWait ->
  (extra_wait req <= 0)%Z ->
  selector req = None ->
  on_page_screenshot (renderer world j) = Some err ->
  is_PlaywrightError err = true ->
  raises_at j (ScreenshotError (py "Failed to capture screenshot: " ++ str err)).
Proof.
  intros Hc Hp Hg Hw Hx Hsel Hq He s. run_body.
  answer Hc. answer Hp. answer Hg. answer Hw.
  destruct (Z.ltb_spec 0 (extra_wait req)) as [ | _ ]; [ lia | ].
  answer Hsel. cbn [str_truthy]. answer Hq. answer He. reflexivity.
Qed.

Lemma classified_is_BrowserError e :
  is_classified e = true -> is_BrowserError e = true.
Proof. now destruct e. Qed.

(** *** The whole call *)

(** The call gets to the retry loop: the cache is not asked or has nothing,
    and the directory of the output file can be made. *)
Definition reaches_loop : Prop :=
  (use_cache req = false \/ on_cache_lookup world = Return None)
  /\ on_mkdir world = None.

(** The calls made before the loop. *)
Definition preamble : list event :=
  (if use_cache req then [CacheLookup (url req)] else [])
  ++ [MakeParentDirs out].

Lemma capture_screenshot_loop :
  reaches_loop ->
  capture_screenshot cfg world req start
  = attempts (Z.to_nat (max_retries cfg)) 0 out (mkRun None preamble tt).
Proof.
  intros [Hcache Hmkdir].
  unfold Capture.capture_screenshot, bind, ask, call, ret, retry_loop, log,
    start, preamble.
  rewrite Hmkdir.
  destruct Hcache as [-> | Hc]; [ reflexivity | ]. rewrite Hc.
  now destruct (use_cache req).
Qed.

Lemma preamble_quiet :
  attempts_made preamble = 0 /\ navigations preamble = 0
  /\ closes_pages preamble = true.
Proof. unfold preamble. now destruct (use_cache req). Qed.

(** C4.  Take a call that gets to the retry loop.  (1) If attempt [k]
    (counted from 0, and within the configured number of attempts) raises a
    BrowserError, which covers the Navigation, Timeout, ElementNotFound and
    Screenshot errors, after [k] attempts that failed with unclassified
    exceptions, then the call raises that very error; it does not return
    None; and [k + 1] attempts have been made in all, so none after the one
    that raised.  (2) In particular, when the navigation of the first
    attempt fails with a Playwright error, the call raises NavigationError
    and has navigated exactly once. *)
Theorem classified_errors_propagate :
  reaches_loop ->
  let r := capture_screenshot cfg world req start in
  (forall k e,
      k < Z.to_nat (max_retries cfg) ->
      (forall j, j < k -> fails_unclassified j) ->
      raises_at k e ->
      is_BrowserError e = true ->
      r.1 = Raise e
      /\ r.1 <> Return None
      /\ attempts_made (trace r.2) = S k)
  /\ (forall err,
        0 < Z.to_nat (max_retries cfg) ->
        on_get_context (renderer world 0) = None ->
        on_new_page (renderer world 0) = None ->
        on_goto (renderer world 0) = Some err ->
        is_PlaywrightError err = true ->
        r.1 = Raise (NavigationError
                (py "Failed to navigate to " ++ url req ++ py ": " ++ str err))
        /\ attempts_made (trace r.2) = 1
        /\ navigations (trace r.2) = 1).
Proof.
  intros Hloop r. subst r. rewrite (capture_screenshot_loop Hloop).
  destruct preamble_quiet as (Hpre1 & Hpre2 & Hpre3). split.
  - intros k e Hk Hfail Hraise Hclass.
    destruct (attempts_classified e k (Z.to_nat (max_retries cfg)) 0
                (mkRun None preamble tt))
      as (Hres & t & Ht & Hrounds); auto.
    rewrite Hres, Ht. cbn [trace]. split_all; [ easy | easy | ].
    rewrite attempts_made_app, Hpre1, (rounds_attempts_made _ _ _ Hrounds).
    reflexivity.
  - intros err Hn Hc Hp Hg He.
    destruct (Z.to_nat (max_retries cfg)) as [ | n ]; [ lia | ].
    rewrite attempts_S, one_attempt_eq.
    rewrite (navigation_error_raised 0 err Hc Hp Hg He).
    cbn [fst snd is_BrowserError close_page page log trace local].
    unfold attempts_made, navigations in *.
    rewrite <- !app_assoc, !List.filter_app, !length_app, Hpre1, Hpre2.
    split_all; reflexivity.
Qed.


End capture_facts.

(** *** Two runs of capture_screenshot *)

Definition flaky : exn := OtherException (py "connection reset").
Definition unreachable : exn := PlaywrightError (py "net::ERR_NAME_NOT_RESOLVED").

(** A renderer that does everything asked of it. *)
Definition obliging : Core.Responses :=
  Core.mkResponses None None None (fun _ _ => None) None (Return true)
                   (fun _ => Return []) None None None.

(** A pool that has no context to give. *)
Definition no_context : Core.Responses :=
  Core.mkResponses (Some flaky) None None (fun _ _ => None) None (Return true)
                   (fun _ => Return []) None None None.

(** A renderer that cannot reach the site. *)
Definition offline : Core.Responses :=
  Core.mkResponses None None (Some unreachable) (fun _ _ => None) None
                   (Return true) (fun _ => Return []) None None None.

Definition three_attempts : Core.Settings := Core.mkSettings 3 "screenshots".

Definition plain_request : Capture.Request :=
  Capture.mkRequest example_url (Some "out.png") true None Capture.NoWait
                    5000 false 0 false None.

Definition world_of (renderer : nat -> Core.Responses) : Core.World :=
  Core.mkWorld (Return None) None 0 None renderer.

(** With three attempts allowed: the first finds no context, the second
    cannot navigate.  The call raises NavigationError and the third attempt
    is never made. *)
Lemma classified_errors_propagate_witness :
  let world := world_of (fun k => match k with
                                  | 0 => no_context
                                  | _ => offline
                                  end) in
  let r := Capture.capture_screenshot three_attempts world plain_request
             Capture.start in
  r.1 = Raise (NavigationError
          (py "Failed to navigate to https://example.com: net::ERR_NAME_NOT_RESOLVED"))
  /\ attempts_made (Core.trace r.2) = 2.
Proof.
  cbv zeta.
  assert (reaches_loop
            (world_of (fun k => match k with
                                | 0 => no_context
                                | _ => offline
                                end))
            plain_request) as Hloop.
  { split; [ now left | reflexivity ]. }
  destruct (classified_errors_propagate three_attempts _ _ Hloop) as [H _].
  destruct (H 1 (NavigationError
     (py "Failed to navigate to https://example.com: net::ERR_NAME_NOT_RESOLVED")))
    as (Hr & _ & Hn).
  - vm_compute. lia.
  - intros j Hj. assert (j = 0) as -> by lia.
    exists flaky. split; [ intros s; reflexivity | reflexivity ].
  - intros s. reflexivity.
  - reflexivity.
  - split; assumption.
Defined.


(** *** The cache theorems at work *)


(** Storing a screenshot of the example page in an empty cache. *)
Lemma save_to_cache_outcome_witness :
  let d := Cache.mkDisk {[ "shot.png" := "PNG" ]} None 0 in
  let r := Cache.save_to_cache example_cfg Cache.no_faults 0 example_url
             "shot.png" example_options empty_cache d in
  r.1.1 = Return example_file
  /\ Cache.metadata r.1.2 = {[ example_key := example_entry ]}
  /\ Cache.index_file r.2 = Some {[ example_key := example_entry ]}
  /\ Cache.files r.2 !! example_file = Some "PNG".
Proof.
  cbv zeta.
  destruct (save_to_cache_outcome example_cfg Cache.no_faults 0 example_url
              "shot.png" example_options empty_cache
              (Cache.mkDisk {[ "shot.png" := "PNG" ]} None 0))
    as (_ & _ & _ & _ & H).
  destruct H as (H1 & H2 & H3 & _ & H5 & _).
  - reflexivity.
  - vm_compute. reflexivity.
  - reflexivity.
  - rewrite example_key_correct in H1, H2, H3, H5.
    split; [ exact H1 | ]. split; [ rewrite H2; reflexivity | ].
    split; [ rewrite H3; reflexivity | ].
    exact H5.
Defined.


(** ** core.py: browse_and_extract *)

Section extract_facts.

Import Core Extract.

Variable cfg : Settings.
Variable world : World.
Variable req : Request.

Local Abbreviation r := (renderer world 0).

(** *** The value of a field, as the specification words it *)

(** The text taken from one element: its text content with the white space
    at both ends removed; an exception when reading it raises, or when the
    element has no text content. *)
Definition text_of (el : Element) : outcome pystr :=
  match el with
  | Return (Some text) => Return (strip text)
  | Return None =>
      Raise (AttributeError (py "'NoneType' object has no attribute 'strip'"))
  | Raise e => Raise e
  end.

(** The texts of the elements in order, or the first exception. *)
Fixpoint texts_of (els : list Element) : outcome (list pystr) :=
  match els with
  | [] => Return []
  | el :: rest =>
      match text_of el, texts_of rest with
      | Raise e, _ => Raise e
      | Return _, Raise e => Raise e
      | Return t, Return ts => Return (t :: ts)
      end
  end.

Definition error_marker (e : exn) : pyvalue := PStr (py "Error: " ++ str e).

(** No match: None.  One match: its text.  Several: the list of their
    texts.  An exception anywhere: the error string. *)
Definition field_value (sel : pystr) : pyvalue :=
  match on_query_selector_all r sel with
  | Raise e => error_marker e
  | Return [] => PNone
  | Return [el] =>
      match text_of el with
      | Return t => PStr t
      | Raise e => error_marker e
      end
  | Return els =>
      match texts_of els with
      | Return ts => PList ts
      | Raise e => error_marker e
      end
  end.

(** The call gets as far as the extraction loop. *)
Definition reaches_extraction : Prop :=
  on_get_context r = None
  /\ on_new_page r = None
  /\ on_goto r = None
  /\ match wait_for req with
     | Some (c :: sel) => on_wait_for_selector r 0 (c :: sel) = None
     | _ => True
     end.

(** The exception of the first call that fails before the extraction, if
    one does: getting the context, opening the page, the navigation, the
    wait. *)
Definition early_failure : option exn :=
  match on_get_context r with
  | Some e => Some e
  | None =>
      match on_new_page r with
      | Some e => Some e
      | None =>
          match on_goto r with
          | Some e => Some e
          | None =>
              match wait_for req with
              | Some (c :: sel) => on_wait_for_selector r 0 (c :: sel)
              | _ => None
              end
          end
      end
  end.

Lemma reaches_extraction_iff : reaches_extraction <-> early_failure = None.
Proof.
  unfold reaches_extraction, early_failure. split.
  - intros (-> & -> & -> & Hw).
    now destruct (wait_for req) as [[ | c sel] | ].
  - destruct (on_get_context r); [ discriminate | ].
    destruct (on_new_page r); [ discriminate | ].
    destruct (on_goto r); [ discriminate | ].
    intros Hw. split_all; try reflexivity.
    now destruct (wait_for req) as [[ | c sel] | ].
Qed.

(** *** The loop *)

Definition with_extracted (d : dict) (res : Result) : Result :=
  mkResult (r_url res) (r_timestamp res) d (screenshot res) (error res).

Lemma stripped_text_run el (s : Run Result) :
  stripped_text el s = (text_of el, s).
Proof. now destruct el as [[text | ] | e]. Qed.

Lemma stripped_texts_run els : forall s : Run Result,
  stripped_texts els s = (texts_of els, s).
Proof.
  induction els as [ | el els IH ]; intros s; [ easy | ].
  cbn [stripped_texts texts_of]. unfold bind.
  rewrite stripped_text_run. destruct (text_of el) as [t | e]; [ | easy ].
  rewrite IH. now destruct (texts_of els).
Qed.

Lemma extract_field_run p name sel (s : Run Result) :
  extract_field r p name sel s
  = (Return tt,
     mkRun (page s) (trace s ++ [QuerySelectorAll p sel])
           (with_extracted (dict_set (extracted (local s)) name
                                     (field_value sel))
                           (local s))).
Proof.
  unfold extract_field, field_value, try_except, bind, ask, set_extracted,
    update_result, with_extracted, error_marker, log.
  destruct (on_query_selector_all r sel) as [[ | el [ | el' els ] ] | e];
    cbn [page trace local]; try reflexivity.
  - rewrite stripped_text_run. now destruct (text_of el).
  - rewrite stripped_texts_run. now destruct (texts_of (el :: el' :: els)).
Qed.

Lemma extract_fields_run p selectors : forall s : Run Result,
  extract_fields r p selectors s
  = (Return tt,
     mkRun (page s)
           (trace s ++ map (fun ns => QuerySelectorAll p ns.2) selectors)
           (with_extracted
              (fold_left (fun d ns => dict_set d ns.1 (field_value ns.2))
                         selectors (extracted (local s)))
              (local s))).
Proof.
  induction selectors as [ | [name sel] selectors IH ]; intros s.
  - cbn. rewrite app_nil_r. now destruct s as [? ? []].
  - cbn [extract_fields]. unfold bind. rewrite extract_field_run, IH.
    cbn [page trace local map fold_left fst snd].
    unfold with_extracted. cbn [extracted r_url r_timestamp screenshot error].
    now rewrite <- app_assoc.
Qed.

Lemma dict_set_fresh (d : dict) name v :
  name ∉ map fst d -> dict_set d name v = d ++ [(name, v)].
Proof.
  induction d as [ | [k w] d IH ]; intros Hfresh; [ easy | ].
  cbn [dict_set]. cbn [map fst] in Hfresh.
  apply not_elem_of_cons in Hfresh as [Hne Hfresh].
  rewrite bool_decide_eq_false_2 by congruence. now rewrite IH.
Qed.

(** A dictionary with distinct keys is filled in the order of the keys. *)
Lemma fold_dict_set_fresh (f : pystr -> pyvalue) selectors :
  forall d : dict,
    NoDup (map fst selectors) ->
    (forall name, name ∈ map fst selectors -> name ∉ map fst d) ->
    fold_left (fun d (ns : pystr * pystr) => dict_set d ns.1 (f ns.2))
              selectors d
    = d ++ map (fun ns => (ns.1, f ns.2)) selectors.
Proof.
  induction selectors as [ | [name sel] selectors IH ]; intros d Hnd Hfresh.
  - cbn. now rewrite app_nil_r.
  - cbn [fold_left map fst snd] in *. apply NoDup_cons in Hnd as [Hname Hnd].
    rewrite dict_set_fresh by (apply Hfresh; now left).
    rewrite IH; [ now rewrite <- app_assoc | exact Hnd | ].
    intros k Hk. rewrite map_app. cbn [map fst].
    rewrite elem_of_app, list_elem_of_singleton.
    intros [Hin | ->]; [ | contradiction ].
    revert Hin. apply Hfresh. now right.
Qed.

(** *** The whole call *)

Lemma browse_and_extract_returns :
  exists res, (browse_and_extract cfg world req).1 = Return res.
Proof.
  unfold browse_and_extract, finally, try_except, update_result.
  destruct (body cfg world req _) as [[[] | e] s]; cbn; eauto.
Qed.

Lemma body_extracted (s : Run Result) :
  reaches_extraction ->
  extracted (local s) = [] ->
  NoDup (map fst (extract_selectors req)) ->
  extracted (local (body cfg world req s).2)
  = map (fun ns => (ns.1, field_value ns.2)) (extract_selectors req).
Proof.
  intros (Hc & Hp & Hg & Hw) Hempty Hnd.
  unfold body, bind, call, new_page, log. rewrite Hc, Hp.
  cbn [page trace local]. rewrite Hg.
  assert (forall s1 : Run Result,
    extracted (local s1) = [] ->
    extracted (local
      (match extract_fields r 0 (extract_selectors req) s1 with
       | (Return _, s') => optional_screenshot cfg world req r 0 s'
       | (Raise e, s') => (Raise e, s')
       end).2)
    = map (fun ns => (ns.1, field_value ns.2)) (extract_selectors req))
    as Hrest.
  { intros s1 Hs1. rewrite extract_fields_run.
    unfold optional_screenshot, bind, call, update_result, log.
    rewrite Hs1, (fold_dict_set_fresh field_value) by (easy || set_solver).
    destruct (want_screenshot req); [ | reflexivity ].
    cbn [trace page local]. now destruct (on_page_screenshot r). }
  destruct (wait_for req) as [[ | c sel] | ]; try (now apply Hrest).
  rewrite Hw. now apply Hrest.
Qed.

(** A call that fails before the extraction leaves the result as it was
    made, and the handler of lines 262-264 puts the message in. *)
Lemma body_early_failure (s : Run Result) e :
  early_failure = Some e ->
  exists s', body cfg world req s = (Raise e, s') /\ local s' = local s.
Proof.
  unfold early_failure, body, bind, call, new_page, log.
  destruct (on_get_context r) as [e1 | ];
    [ intros [= ->]; eexists; split; reflexivity | ].
  destruct (on_new_page r) as [e2 | ];
    [ intros [= ->]; eexists; split; reflexivity | ].
  cbn [page trace local].
  destruct (on_goto r) as [e3 | ];
    [ intros [= ->]; eexists; split; reflexivity | ].
  destruct (wait_for req) as [[ | c sel] | ]; try discriminate.
  intros ->. eexists; split; reflexivity.
Qed.

Lemma browse_and_extract_early_failure e :
  early_failure = Some e ->
  (browse_and_extract cfg world req).1
  = Return (mkResult (url req) (clock world) [] None (Some (str e))).
Proof.
  intros He. unfold browse_and_extract, finally, try_except, update_result.
  destruct (body_early_failure
              (mkRun None [] (mkResult (url req) (clock world) [] None None))
              e He) as (s' & -> & Hlocal).
  cbn [fst snd]. unfold close_page.
  destruct (page s'); cbn [local log]; now rewrite Hlocal.
Qed.

(** C9, as the code has it.  (1) The call never raises.  (2) When the call
    gets as far as the extraction loop, the extracted mapping has exactly
    the caller's field names, in the caller's order, each with the value of
    its field; this whether or not the screenshot that follows works.
    (3) The value of a field: None for no match; for one match the text of
    the element with the white space at both ends stripped; for several
    matches the list of the stripped texts in order; and the string made of
    "Error: " and the message when the query or the reading of a text
    raises, in which case the other fields are filled as usual.  (4) A call
    gets as far as the extraction loop unless getting the context, opening
    the page, the navigation or the wait raises; when one of them does, the
    result that comes back has an empty extracted mapping, no screenshot,
    and the message of that exception in its error field. *)
Theorem browse_and_extract_fields :
  let run := browse_and_extract cfg world req in
  (exists res, run.1 = Return res)
  /\ (reaches_extraction ->
      NoDup (map fst (extract_selectors req)) ->
      exists res,
        run.1 = Return res
        /\ extracted res
           = map (fun ns => (ns.1, field_value ns.2)) (extract_selectors req))
  /\ (reaches_extraction \/ exists e, early_failure = Some e)
  /\ (forall e,
        early_failure = Some e ->
        run.1 = Return (mkResult (url req) (clock world) [] None
                                 (Some (str e))))
  /\ (forall sel,
        on_query_selector_all r sel = Return [] -> field_value sel = PNone)
  /\ (forall sel text,
        on_query_selector_all r sel = Return [Return (Some text)] ->
        field_value sel = PStr (strip text))
  /\ (forall sel texts,
        2 <= length texts ->
        on_query_selector_all r sel
        = Return (map (fun t => Return (Some t)) texts) ->
        field_value sel = PList (map strip texts))
  /\ (forall sel e,
        on_query_selector_all r sel = Raise e ->
        field_value sel = PStr (py "Error: " ++ str e))
  /\ (forall sel els e,
        on_query_selector_all r sel = Return els ->
        texts_of els = Raise e ->
        field_value sel = PStr (py "Error: " ++ str e)).
Proof.
  cbv zeta. split_all.
  - apply browse_and_extract_returns.
  - intros Hreach Hnd.
    pose proof (body_extracted
                  (mkRun None [] (mkResult (url req) (clock world) [] None None))
                  Hreach eq_refl Hnd) as Hbody.
    unfold browse_and_extract, finally, try_except, update_result, close_page.
    destruct (body cfg world req _) as [[[] | e] s]; cbn [fst snd] in *.
    + eexists. split; [ reflexivity | ].
      destruct (page s); cbn [local log extracted]; exact Hbody.
    + eexists. split; [ reflexivity | ].
      destruct (page s); cbn [local log extracted]; exact Hbody.
  - destruct early_failure as [e | ] eqn:He; [ right; eauto | left ].
    now apply reaches_extraction_iff.
  - apply browse_and_extract_early_failure.
  - intros sel H. unfold field_value. now rewrite H.
  - intros sel text H. unfold field_value. now rewrite H.
  - intros sel texts Hlen H. unfold field_value. rewrite H.
    assert (texts_of (map (fun t => Return (Some t)) texts)
            = Return (map strip texts)) as Hts.
    { clear. induction texts as [ | t texts IH ]; [ easy | ].
      cbn [map texts_of text_of]. now rewrite IH. }
    rewrite Hts. destruct texts as [ | t1 [ | t2 texts ] ]; cbn in Hlen; try lia.
    reflexivity.
  - intros sel e H. unfold field_value. now rewrite H.
  - intros sel els e H Hts. unfold field_value. rewrite H.
    destruct els as [ | el [ | el' els ] ].
    + discriminate.
    + cbn [texts_of] in Hts. destruct (text_of el); [ discriminate | ].
      now injection Hts as ->.
    + now rewrite Hts.
Qed.

End extract_facts.

(** *** A page with a padded title, three list items and a broken element *)

Definition padded_page : Core.Responses :=
  Core.mkResponses None None None (fun _ _ => None) None (Return true)
    (fun sel =>
       if bool_decide (sel = py "h1") then
         Return [Return (Some (py "  Test Title "))]
       else if bool_decide (sel = py "li") then
         Return [Return (Some (py "Item 1")); Return (Some (py " Item 2"));
                 Return (Some (py "Item 3"))]
       else if bool_decide (sel = py ".broken") then
         Return [Raise (PlaywrightError (py "Element is detached"))]
       else Return [])
    None None None.

Definition extract_request : Extract.Request :=
  Extract.mkRequest example_url
    [ (py "title", py "h1"); (py "items", py "li");
      (py "price", py ".broken"); (py "missing", py ".none") ]
    false None None 5000.

(** C9 fails on the code where it speaks of the element's text: the title
    of the page is "  Test Title " and the value extracted is "Test Title";
    and where it speaks of every call: when the navigation fails the
    extracted mapping is empty and holds none of the caller's fields. *)
Lemma extraction_counterexample :
  (Extract.browse_and_extract three_attempts (world_of (fun _ => padded_page))
     extract_request).1
  = Return (Extract.mkResult example_url 0
      [ (py "title", Extract.PStr (py "Test Title"));
        (py "items", Extract.PList [py "Item 1"; py "Item 2"; py "Item 3"]);
        (py "price", Extract.PStr (py "Error: Element is detached"));
        (py "missing", Extract.PNone) ]
      None None)
  /\ Extract.PStr (py "Test Title") <> Extract.PStr (py "  Test Title ")
  /\ (Extract.browse_and_extract three_attempts (world_of (fun _ => offline))
        extract_request).1
     = Return (Extract.mkResult example_url 0 [] None
                 (Some (py "net::ERR_NAME_NOT_RESOLVED"))).
Proof. vm_compute. repeat split. discriminate. Qed.

(** The theorem on that page. *)
Lemma browse_and_extract_fields_witness :
  exists res,
    (Extract.browse_and_extract three_attempts
       (world_of (fun _ => padded_page)) extract_request).1 = Return res
    /\ Extract.extracted res
       = [ (py "title", Extract.PStr (py "Test Title"));
           (py "items", Extract.PList [py "Item 1"; py "Item 2"; py "Item 3"]);
           (py "price", Extract.PStr (py "Error: Element is detached"));
           (py "missing", Extract.PNone) ].
Proof.
  destruct (browse_and_extract_fields three_attempts
              (world_of (fun _ => padded_page)) extract_request)
    as (_ & H & _).
  destruct H as (res & Hres & Hex).
  - repeat split.
  - apply (bool_decide_unpack _). vm_compute. exact I.
  - exists res. split; [ exact Hres | ]. rewrite Hex. vm_compute. reflexivity.
Defined.
(** ** json.dumps and the cache key *)

Lemma app_String x (a b : string) : (String x a ++ b = String x (a ++ b))%string.
Proof. reflexivity. Qed.

Lemma app_Empty (b : string) : ("" ++ b = b)%string.
Proof. reflexivity. Qed.

Lemma String_eq a b (s t : string) : String a s = String b t -> a = b /\ s = t.
Proof. now intros [= -> ->]. Qed.

Ltac app_norm := rewrite ?app_String, ?app_Empty.
Ltac app_norm_in H := rewrite ?app_String, ?app_Empty in H.

Ltac digits16 x :=
  pose proof (N.div_mod' x 16); pose proof (N.mod_lt x 16 ltac:(discriminate)).

Ltac peel H := apply String_eq in H as [_ H].

(** Quotients and remainders as unknowns, for [lia]. *)
Ltac hide_divmod :=
  repeat match goal with
         | H : context [(?a mod ?b)%N] |- _ =>
             let m := fresh "m" in set (m := (a mod b)%N) in *; clearbody m
         | |- context [(?a mod ?b)%N] =>
             let m := fresh "m" in set (m := (a mod b)%N) in *; clearbody m
         | H : context [(?a / ?b)%N] |- _ =>
             let q := fresh "q" in set (q := (a / b)%N) in *; clearbody q
         | |- context [(?a / ?b)%N] =>
             let q := fresh "q" in set (q := (a / b)%N) in *; clearbody q
         end.

Section json_facts.
Import Hex Json.

Lemma string_app_assoc (a b c : string) : ((a ++ b) ++ c = a ++ (b ++ c))%string.
Proof. induction a as [ | x a IH ]; [ easy | ]. app_norm. now rewrite IH. Qed.

Lemma string_app_inv_head (a x y : string) : (a ++ x = a ++ y)%string -> x = y.
Proof. induction a as [ | c a IH ]; [ easy | ]. app_norm. intros [= H]. auto. Qed.

Lemma hex_chars_NoDup : List.NoDup hex_chars.
Proof. unfold hex_chars. repeat constructor; cbn; intuition discriminate. Qed.

Lemma hex_digit_In n : In (hex_digit n) hex_chars.
Proof.
  unfold hex_digit. apply nth_In. cbn [length hex_chars].
  pose proof (N.mod_lt n 16 ltac:(discriminate)). lia.
Qed.

Lemma hex_digit_inj a b : hex_digit a = hex_digit b -> (a mod 16 = b mod 16)%N.
Proof.
  unfold hex_digit. intros H.
  pose proof (N.mod_lt a 16 ltac:(discriminate)).
  pose proof (N.mod_lt b 16 ltac:(discriminate)).
  apply (proj1 (List.NoDup_nth hex_chars "0"%char) hex_chars_NoDup) in H;
    cbn [length hex_chars]; lia.
Qed.

Lemma hex4_inj a b s t :
  (a < 65536)%N -> (b < 65536)%N ->
  (hex4 a ++ s = hex4 b ++ t)%string -> a = b /\ s = t.
Proof.
  intros Ha Hb. unfold hex4. app_norm. intros [= H3 H2 H1 H0 Hst].
  apply hex_digit_inj in H3, H2, H1, H0. split; [ | easy ].
  digits16 a; digits16 (a / 16)%N; digits16 (a / 16 / 16)%N;
    digits16 (a / 16 / 16 / 16)%N.
  digits16 b; digits16 (b / 16)%N; digits16 (b / 16 / 16)%N;
    digits16 (b / 16 / 16 / 16)%N.
  lia.
Qed.

(** A code point that can stand in a well-formed string: below 0x110000 and
    no surrogate. *)
Definition scalar (c : N) : Prop :=
  (c < 0x110000)%N /\ ~ (0xD800 <= c <= 0xDFFF)%N.

Definition short_escapes : list (N * ascii) :=
  [ (34, quote); (92, backslash); (10, "n"); (13, "r"); (9, "t"); (12, "f");
    (8, "b") ]%N%char.

(** The four ways a code point is written. *)
Inductive shape (c : N) : string -> Prop :=
| shape_short a :
    In (c, a) short_escapes -> shape c (String backslash (String a ""))
| shape_literal :
    (32 <= c <= 126)%N -> c <> 34%N -> c <> 92%N ->
    shape c (String (ascii_of_N c) "")
| shape_bmp :
    (c < 65536)%N -> (c < 32 \/ 126 < c)%N ->
    shape c (String backslash (String "u" (hex4 c)))
| shape_pair :
    (65536 <= c)%N ->
    shape c (String.append
               (String backslash
                  (String "u" (hex4 (0xd800 + ((c - 65536) / 1024) mod 1024))))
               (String backslash
                  (String "u" (hex4 (0xdc00 + (c - 65536) mod 1024))))).

Lemma escape_char_shape c : shape c (escape_char c).
Proof.
  unfold escape_char.
  destruct (N.eqb_spec c 34) as [-> | H34];
    [ apply shape_short; cbn; auto | ].
  destruct (N.eqb_spec c 92) as [-> | H92];
    [ apply shape_short; cbn; auto | ].
  destruct (N.eqb_spec c 10) as [-> | H10];
    [ apply shape_short; cbn; auto | ].
  destruct (N.eqb_spec c 13) as [-> | H13];
    [ apply shape_short; cbn; auto 10 | ].
  destruct (N.eqb_spec c 9) as [-> | H9];
    [ apply shape_short; cbn; auto 10 | ].
  destruct (N.eqb_spec c 12) as [-> | H12];
    [ apply shape_short; cbn; auto 10 | ].
  destruct (N.eqb_spec c 8) as [-> | H8];
    [ apply shape_short; cbn; auto 10 | ].
  destruct (N.leb_spec 32 c); destruct (N.leb_spec c 126); cbn [andb];
    try (apply shape_literal; lia);
    (destruct (N.ltb_spec c 65536);
     [ apply shape_bmp; lia | apply shape_pair; lia ]).
Qed.

Lemma ascii_of_N_inj a b :
  (a < 256)%N -> (b < 256)%N -> ascii_of_N a = ascii_of_N b -> a = b.
Proof.
  intros Ha Hb H. apply (f_equal N_of_ascii) in H.
  now rewrite !N_ascii_embedding in H.
Qed.

Ltac table H :=
  cbn [short_escapes In] in H;
  repeat (destruct H as [H | H]; [ injection H as <- <- | ]);
  [ .. | destruct H ].

#[local] Opaque hex4.

Lemma escape_char_inj c1 c2 t1 t2 :
  scalar c1 -> scalar c2 ->
  (escape_char c1 ++ t1 = escape_char c2 ++ t2)%string ->
  c1 = c2 /\ t1 = t2.
Proof.
  intros [Hc1 Hs1] [Hc2 Hs2].
  pose proof (escape_char_shape c1) as S1.
  pose proof (escape_char_shape c2) as S2.
  destruct S1 as [a1 T1 | L1 L1' L1'' | B1 B1' | P1];
    destruct S2 as [a2 T2 | L2 L2' L2'' | B2 B2' | P2];
    rewrite ?string_app_assoc; app_norm; intros H.
  - (* short, short *)
    injection H as Ha Ht. split; [ | easy ].
    table T1; table T2; try discriminate Ha; reflexivity.
  - (* short, literal *)
    injection H as Ha _. exfalso.
    apply (ascii_of_N_inj 92 c2) in Ha; lia.
  - (* short, basic plane *)
    injection H as Ha _. table T1; discriminate Ha.
  - (* short, pair *)
    injection H as Ha _. table T1; discriminate Ha.
  - (* literal, short *)
    injection H as Ha _. exfalso.
    apply (ascii_of_N_inj c1 92) in Ha; lia.
  - (* literal, literal *)
    injection H as Ha Ht. split; [ | easy ].
    apply ascii_of_N_inj in Ha; lia.
  - injection H as Ha _. exfalso.
    apply (ascii_of_N_inj c1 92) in Ha; lia.
  - injection H as Ha _. exfalso.
    apply (ascii_of_N_inj c1 92) in Ha; lia.
  - (* basic plane, short *)
    injection H as Ha _. table T2; discriminate Ha.
  - injection H as Ha _. exfalso.
    apply (ascii_of_N_inj 92 c2) in Ha; lia.
  - (* basic plane, basic plane *)
    peel H. peel H. now apply hex4_inj in H.
  - (* basic plane, pair: the first unit of a pair is a surrogate *)
    peel H. peel H. exfalso.
    pose proof (N.mod_lt ((c2 - 65536) / 1024) 1024 ltac:(discriminate)).
    apply hex4_inj in H as [H _]; hide_divmod; lia.
  - injection H as Ha _. table T2; discriminate Ha.
  - injection H as Ha _. exfalso.
    apply (ascii_of_N_inj 92 c2) in Ha; lia.
  - peel H. peel H. exfalso.
    pose proof (N.mod_lt ((c1 - 65536) / 1024) 1024 ltac:(discriminate)).
    apply hex4_inj in H as [H _]; hide_divmod; lia.
  - (* pair, pair *)
    peel H. peel H.
    pose proof (N.mod_lt ((c1 - 65536) / 1024) 1024 ltac:(discriminate)).
    pose proof (N.mod_lt ((c2 - 65536) / 1024) 1024 ltac:(discriminate)).
    pose proof (N.mod_lt (c1 - 65536) 1024 ltac:(discriminate)).
    pose proof (N.mod_lt (c2 - 65536) 1024 ltac:(discriminate)).
    pose proof (N.div_mod' (c1 - 65536) 1024).
    pose proof (N.div_mod' (c2 - 65536) 1024).
    pose proof (N.div_mod' ((c1 - 65536) / 1024) 1024).
    pose proof (N.div_mod' ((c2 - 65536) / 1024) 1024).
    apply hex4_inj in H as [Hhi H]; [ | hide_divmod; lia | hide_divmod; lia ].
    app_norm_in H. peel H. peel H.
    apply hex4_inj in H as [Hlo H]; [ | hide_divmod; lia | hide_divmod; lia ].
    split; [ | easy ]. hide_divmod. lia.
Qed.

#[local] Transparent hex4.

Lemma escape_char_head c :
  exists a rest, escape_char c = String a rest /\ a <> quote.
Proof.
  destruct (escape_char_shape c) as [a T | L L' L'' | B B' | P].
  - exists backslash, (String a ""). now split.
  - exists (ascii_of_N c), "". split; [ easy | ].
    intros H. apply (ascii_of_N_inj c 34) in H; lia.
  - eexists backslash, _. now split.
  - eexists backslash, _. now split.
Qed.

(** A well-formed Python string. *)
Definition well_formed (s : pystr) : Prop := Forall scalar s.

(** The escaped characters of a string can be read back up to the closing
    quote. *)
Lemma escape_inj s1 : forall s2 t1 t2,
  well_formed s1 -> well_formed s2 ->
  (escape s1 ++ String quote t1 = escape s2 ++ String quote t2)%string ->
  s1 = s2 /\ t1 = t2.
Proof.
  induction s1 as [ | c1 s1 IH ]; intros [ | c2 s2 ] t1 t2 H1 H2;
    cbn [escape]; rewrite ?string_app_assoc; app_norm; intros H.
  - now injection H as ->.
  - exfalso. destruct (escape_char_head c2) as (a & rest & Hc & Ha).
    rewrite Hc in H. app_norm_in H. injection H as H _. congruence.
  - exfalso. destruct (escape_char_head c1) as (a & rest & Hc & Ha).
    rewrite Hc in H. app_norm_in H. injection H as H _. congruence.
  - apply Forall_cons in H1 as [Hc1 H1]. apply Forall_cons in H2 as [Hc2 H2].
    apply escape_char_inj in H as [-> H]; [ | easy | easy ].
    apply IH in H as [-> ->]; auto.
Qed.

Lemma json_string_inj s1 s2 t1 t2 :
  well_formed s1 -> well_formed s2 ->
  (json_string s1 ++ t1 = json_string s2 ++ t2)%string ->
  s1 = s2 /\ t1 = t2.
Proof.
  intros H1 H2. unfold json_string. app_norm. rewrite !string_app_assoc.
  app_norm. intros H. peel H. now apply escape_inj in H.
Qed.

Lemma json_bool_inj b1 b2 t1 t2 :
  (json_bool b1 ++ t1 = json_bool b2 ++ t2)%string -> b1 = b2 /\ t1 = t2.
Proof.
  destruct b1, b2; cbn [json_bool]; app_norm; intros H;
    try discriminate H;
    (split; [ reflexivity | ]; repeat (apply String_eq in H as [_ H]); exact H).
Qed.

Definition well_formed_opt (o : option pystr) : Prop :=
  match o with
  | Some s => well_formed s
  | None => True
  end.

Lemma json_optional_inj o1 o2 t1 t2 :
  well_formed_opt o1 -> well_formed_opt o2 ->
  (json_optional o1 ++ t1 = json_optional o2 ++ t2)%string ->
  o1 = o2 /\ t1 = t2.
Proof.
  destruct o1 as [s1 | ], o2 as [s2 | ]; cbn [json_optional well_formed_opt];
    intros H1 H2 H.
  - apply json_string_inj in H as [-> ->]; auto.
  - unfold json_string in H. app_norm_in H. discriminate H.
  - unfold json_string in H. app_norm_in H. discriminate H.
  - app_norm_in H. split; [ reflexivity | ].
    repeat (apply String_eq in H as [_ H]); exact H.
Qed.

(** Code points of an ASCII literal. *)
Lemma py_well_formed (s : string) : well_formed (py s).
Proof.
  unfold well_formed, py. apply Forall_forall. intros c Hc.
  apply list_elem_of_In, in_map_iff in Hc as (a & <- & _).
  pose proof (N_ascii_bounded a). unfold scalar. lia.
Qed.

Lemma py_inj (s t : string) : py s = py t -> s = t.
Proof.
  unfold py. revert t. induction s as [ | a s IH ]; intros [ | b t ];
    cbn; try discriminate; [ easy | ].
  intros [= Hab Hst]. f_equal; [ | now apply IH ].
  now rewrite <- (ascii_N_embedding a), Hab, ascii_N_embedding.
Qed.

(** *** Decimal numbers *)

Definition is_digit_or_sign (a : ascii) : Prop :=
  In a [ "0"; "1"; "2"; "3"; "4"; "5"; "6"; "7"; "8"; "9"; "-" ]%char.

Fixpoint chars_ok (s : string) : Prop :=
  match s with
  | EmptyString => True
  | String a rest => is_digit_or_sign a /\ chars_ok rest
  end.

Lemma string_of_uint_chars d : chars_ok (NilEmpty.string_of_uint d).
Proof.
  induction d; cbn [NilEmpty.string_of_uint chars_ok]; [ easy | .. ];
    (split; [ unfold is_digit_or_sign; cbn; auto 12 | assumption ]).
Qed.

Lemma str_int_chars n : chars_ok (str_int n).
Proof.
  unfold str_int, NilZero.string_of_int, NilZero.string_of_uint.
  destruct (Z.to_int n) as [d | d].
  - destruct d; try apply string_of_uint_chars.
    cbn. split; [ unfold is_digit_or_sign; cbn; auto 12 | easy ].
  - cbn [chars_ok]. split; [ unfold is_digit_or_sign; cbn; auto 12 | ].
    destruct d; try apply string_of_uint_chars.
    cbn. split; [ unfold is_digit_or_sign; cbn; auto 12 | easy ].
Qed.

Lemma to_int_not_nil n :
  Z.to_int n <> Decimal.Pos Decimal.Nil /\ Z.to_int n <> Decimal.Neg Decimal.Nil.
Proof.
  destruct n as [ | p | p ]; cbn; split; try discriminate;
    intros [= H]; now apply DecimalPos.Unsigned.to_uint_nonnil in H.
Qed.

Lemma str_int_inj n m : str_int n = str_int m -> n = m.
Proof.
  unfold str_int. intros H. apply to_int_inj.
  destruct (to_int_not_nil n) as [Hn1 Hn2].
  destruct (to_int_not_nil m) as [Hm1 Hm2].
  apply (f_equal NilZero.int_of_string) in H.
  rewrite !NilZero.isi in H by assumption. now injection H.
Qed.

(** Two numbers with an x between them can be read back. *)
Lemma split_at_x (s1 : string) : forall s2 t1 t2,
  chars_ok s1 -> chars_ok s2 ->
  (s1 ++ String "x" t1 = s2 ++ String "x" t2)%string ->
  s1 = s2 /\ t1 = t2.
Proof.
  induction s1 as [ | a s1 IH ]; intros [ | b s2 ] t1 t2 H1 H2;
    app_norm; intros H.
  - now injection H as ->.
  - exfalso. injection H as <- _. destruct H2 as [H2 _].
    unfold is_digit_or_sign in H2. cbn in H2. intuition discriminate.
  - exfalso. injection H as -> _. destruct H1 as [H1 _].
    unfold is_digit_or_sign in H1. cbn in H1. intuition discriminate.
  - apply String_eq in H as [-> H]. destruct H1 as [_ H1], H2 as [_ H2].
    apply IH in H as [-> ->]; auto.
Qed.

Lemma json_key_head k :
  json_key k = String quote (escape (py k) ++ String quote ": ")%string.
Proof.
  unfold json_key, json_string. app_norm. rewrite string_app_assoc.
  now app_norm.
Qed.

Import Cache.

Definition well_formed_options (o : option CacheOptions) : Prop :=
  match o with
  | Some o => well_formed_opt (selector o) /\ well_formed_opt (device_name o)
  | None => True
  end.

#[local] Opaque json_key json_string json_optional json_bool.

Ltac drop_prefix H := apply string_app_inv_head in H.

Lemma dumps_options_inj o1 o2 t1 t2 :
  well_formed_options o1 -> well_formed_options o2 ->
  (dumps_options o1 ++ t1 = dumps_options o2 ++ t2)%string ->
  o1 = o2 /\ t1 = t2.
Proof.
  destruct o1 as [[fp1 sel1 mob1 dev1] | ], o2 as [[fp2 sel2 mob2 dev2] | ];
    cbn [dumps_options well_formed_options selector device_name full_page
         mobile];
    intros H1 H2; rewrite ?string_app_assoc; intros H.
  - destruct H1 as [Hs1 Hd1], H2 as [Hs2 Hd2].
    drop_prefix H. drop_prefix H.
    apply json_optional_inj in H as [-> H]; [ | easy | easy ].
    drop_prefix H. drop_prefix H.
    apply json_bool_inj in H as [-> H].
    drop_prefix H. drop_prefix H.
    apply json_bool_inj in H as [-> H].
    drop_prefix H. drop_prefix H.
    apply json_optional_inj in H as [-> H]; [ | easy | easy ].
    drop_prefix H. now subst.
  - exfalso. rewrite json_key_head in H. app_norm_in H.
    peel H. discriminate H.
  - exfalso. rewrite json_key_head in H. app_norm_in H.
    peel H. discriminate H.
  - split; [ reflexivity | ]. now drop_prefix H.
Qed.

(** The string that is hashed determines the url, the options and the
    viewport. *)
Lemma key_str_inj cfg1 cfg2 u1 u2 o1 o2 :
  well_formed u1 -> well_formed u2 ->
  well_formed_options o1 -> well_formed_options o2 ->
  key_str cfg1 u1 o1 = key_str cfg2 u2 o2 ->
  u1 = u2 /\ o1 = o2
  /\ viewport_width cfg1 = viewport_width cfg2
  /\ viewport_height cfg1 = viewport_height cfg2.
Proof.
  intros Hu1 Hu2 Ho1 Ho2. unfold key_str. intros H.
  drop_prefix H. drop_prefix H.
  apply dumps_options_inj in H as [-> H]; [ | easy | easy ].
  drop_prefix H. drop_prefix H.
  apply json_string_inj in H as [-> H]; [ | easy | easy ].
  drop_prefix H. drop_prefix H.
  apply json_string_inj in H as [H _]; try apply py_well_formed.
  apply py_inj in H. unfold viewport in H.
  apply split_at_x in H as [Hw Hh]; try apply str_int_chars.
  apply str_int_inj in Hw, Hh. auto.
Qed.

(** *** The digest has finitely many values *)

Import Md5.

Fixpoint hex_string (s : string) : Prop :=
  match s with
  | EmptyString => True
  | String a rest => In a hex_chars /\ hex_string rest
  end.

(** All strings of [n] hexadecimal digits. *)
Fixpoint hex_strings (n : nat) : list string :=
  match n with
  | O => [ "" ]
  | S n' => flat_map (fun a => map (String a) (hex_strings n')) hex_chars
  end.

Lemma hex_strings_complete n : forall s,
  String.length s = n -> hex_string s -> In s (hex_strings n).
Proof.
  induction n as [ | n IH ]; intros [ | a s ] Hlen Hhex;
    try discriminate Hlen.
  - now left.
  - cbn [hex_strings]. apply in_flat_map. exists a.
    destruct Hhex as [Ha Hs]. split; [ exact Ha | ].
    apply in_map, IH; [ now injection Hlen | exact Hs ].
Qed.

Lemma hex_of_bytes_spec bs :
  String.length (hex_of_bytes bs) = 2 * length bs
  /\ hex_string (hex_of_bytes bs).
Proof.
  induction bs as [ | b bs [IH1 IH2] ]; [ easy | ].
  cbn [hex_of_bytes length]. unfold hex2. rewrite !app_String, app_Empty.
  cbn [String.length hex_string]. rewrite IH1.
  split; [ lia | ]. auto using hex_digit_In.
Qed.

Lemma digest_length msg : length (digest msg) = 16.
Proof.
  unfold digest. destruct (digest_state msg) as [[[a b] c] d].
  now rewrite !length_app.
Qed.

Lemma hexdigest_in_range s : In (hexdigest s) (hex_strings 32).
Proof.
  unfold hexdigest. set (bs := digest _).
  destruct (hex_of_bytes_spec bs) as [Hlen Hhex].
  apply hex_strings_complete; [ | exact Hhex ].
  rewrite Hlen. subst bs. now rewrite digest_length.
Qed.

(** A function from the natural numbers into a finite list of values takes
    some value twice. *)
Lemma finite_range_collides {A} (f : nat -> A) (range : list A) :
  (forall n, In (f n) range) ->
  ~ (forall n m, n <> m -> f n <> f m).
Proof.
  intros Hrange Hinj.
  assert (List.NoDup (map f (seq 0 (S (length range))))) as Hnd.
  { apply NoDup_map_NoDup_ForallPairs; [ | apply seq_NoDup ].
    intros n m _ _ Heq. destruct (Nat.eq_dec n m) as [ | Hne ]; [ easy | ].
    now apply Hinj in Hne. }
  apply NoDup_incl_length with (l' := range) in Hnd.
  - rewrite length_map, length_seq in Hnd. lia.
  - intros x Hx. apply in_map_iff in Hx as (n & <- & _). apply Hrange.
Qed.

End json_facts.

(** The digests of the model are the digests of CPython: the key of two
    urls, one the code point U+1F600, the other the two surrogates that
    encode it. *)
Lemma surrogate_pair_key :
  Cache.get_cache_key example_cfg [128512%N] example_options
  = "7611edd31e3b13b0cbf67bccfd01d3bd"
  /\ Cache.get_cache_key example_cfg [55357%N; 56832%N] example_options
     = "7611edd31e3b13b0cbf67bccfd01d3bd".
Proof. vm_compute. split; reflexivity. Qed.

(** C7 fails on the code where it says that a change of the url changes the
    digest.  First, two different urls with the same digest: the code point
    U+1F600, and the pair of surrogates D83D DE00, which json.dumps writes
    the same way.  Second, the digest has 32 hexadecimal digits, so among
    the urls a, aa, aaa, ... two have the same digest. *)
Lemma cache_key_collision :
  ([128512%N] <> [55357%N; 56832%N]
   /\ Cache.get_cache_key example_cfg [128512%N] example_options
      = Cache.get_cache_key example_cfg [55357%N; 56832%N] example_options)
  /\ ~ (forall n m : nat,
          n <> m ->
          Cache.get_cache_key example_cfg (repeat 97%N n) example_options
          <> Cache.get_cache_key example_cfg (repeat 97%N m) example_options).
Proof.
  split.
  - split; [ discriminate | ]. vm_compute. reflexivity.
  - apply (finite_range_collides
             (fun n => Cache.get_cache_key example_cfg (repeat 97%N n)
                         example_options)
             (hex_strings 32)).
    intros n. apply hexdigest_in_range.
Qed.

Section cache_key_facts.

Import Cache.

Lemma key_str_viewport cfg1 cfg2 u o :
  viewport_width cfg1 = viewport_width cfg2 ->
  viewport_height cfg1 = viewport_height cfg2 ->
  key_str cfg1 u o = key_str cfg2 u o.
Proof. intros Hw Hh. unfold key_str, viewport. now rewrite Hw, Hh. Qed.

(** C7, as the code has it.  (1) The key is a function of the url, the
    options and the two viewport dimensions: equal arguments give equal
    digests, whatever the rest of the configuration.  (2) For well-formed
    strings (no code point is a surrogate), a change of the url, of any of
    full_page, selector, mobile, device_name, or of a viewport dimension
    changes the string that is hashed; the digest is the MD5 digest of that
    string, so the two digests differ unless MD5 collides on the two
    strings. *)
Theorem cache_key_determined cfg1 cfg2 u1 u2 o1 o2 :
  (u1 = u2 -> o1 = o2 ->
   viewport_width cfg1 = viewport_width cfg2 ->
   viewport_height cfg1 = viewport_height cfg2 ->
   get_cache_key cfg1 u1 o1 = get_cache_key cfg2 u2 o2)
  /\ (well_formed u1 -> well_formed u2 ->
      well_formed_options o1 -> well_formed_options o2 ->
      (u1 <> u2 \/ o1 <> o2
       \/ viewport_width cfg1 <> viewport_width cfg2
       \/ viewport_height cfg1 <> viewport_height cfg2) ->
      key_str cfg1 u1 o1 <> key_str cfg2 u2 o2
      /\ (get_cache_key cfg1 u1 o1 = get_cache_key cfg2 u2 o2
          <-> Md5.hexdigest (key_str cfg1 u1 o1)
              = Md5.hexdigest (key_str cfg2 u2 o2))).
Proof.
  split.
  - intros -> -> Hw Hh. unfold get_cache_key.
    now rewrite (key_str_viewport cfg1 cfg2 u2 o2 Hw Hh).
  - intros Hu1 Hu2 Ho1 Ho2 Hdiff. split; [ | reflexivity ].
    intros Heq.
    apply key_str_inj in Heq as (Hu & Ho & Hw & Hh); try assumption.
    destruct Hdiff as [H | [H | [H | H]]]; contradiction.
Qed.

End cache_key_facts.

(** Full page against viewport only: the strings hashed differ, and so do
    the digests. *)
Lemma cache_key_determined_witness :
  let viewport_only := Some (Cache.mkOptions false None false None) in
  Cache.key_str example_cfg example_url example_options
  <> Cache.key_str example_cfg example_url viewport_only
  /\ Cache.get_cache_key example_cfg example_url example_options
     <> Cache.get_cache_key example_cfg example_url viewport_only.
Proof.
  cbv zeta.
  destruct (cache_key_determined example_cfg example_cfg example_url
              example_url example_options
              (Some (Cache.mkOptions false None false None)))
    as [_ H].
  destruct H as [Hstr _].
  - apply py_well_formed.
  - apply py_well_formed.
  - split; exact I.
  - split; exact I.
  - right. left. discriminate.
  - split; [ exact Hstr | ]. vm_compute. discriminate.
Defined.
(** * Further properties *)

(** ** browser_manager.py: launch failures and shutting down *)

Section shutdown_facts.

Import BrowserManager.

Variable max_contexts : Z.

Local Abbreviation get_context := (get_context max_contexts).
Local Abbreviation busy := (fun ctx : BrowserContext => truthy (pages ctx)).

(** A launch that fails.  When the browser is not running and the pool is
    under its maximum, a failure to start Playwright or to launch the
    browser comes out of [get_context]: as BrowserError with the message
    "Failed to launch browser: ..." when it is a Playwright error,
    unchanged otherwise.  No context is created, the pool tracks the
    contexts with open pages it tracked before, and the browser stays
    unset, so that the next call launches again. *)
Theorem get_context_launch_failure eng self e :
  browser self = false ->
  (Z.of_nat (length (List.filter busy (contexts self))) < max_contexts)%Z ->
  start_error eng = Some e
  \/ (start_error eng = None /\ launch_error eng = Some e) ->
  let r := get_context eng self in
  r.1 = Raise (launch_failure e)
  /\ (is_PlaywrightError e = true ->
      r.1 = Raise (BrowserError (py "Failed to launch browser: " ++ str e)))
  /\ (is_PlaywrightError e = false -> r.1 = Raise e)
  /\ contexts r.2 = List.filter busy (contexts self)
  /\ created r.2 = created self
  /\ browser r.2 = false.
Proof.
  intros Hb Hroom Hfail r. subst r. unfold BrowserManager.get_context.
  cbn [contexts]. rewrite reuse_loop_dead.
  destruct (Z.ltb_spec (Z.of_nat (length (List.filter busy (contexts self))))
              max_contexts) as [_ | Hge]; [ | lia ].
  unfold get_browser, launch_failure. cbn [browser playwright contexts created].
  rewrite Hb.
  destruct Hfail as [-> | [-> ->]]; cbn [fst snd contexts created browser];
    destruct (is_PlaywrightError e); split_all; intros; congruence.
Qed.

Variable io : Closing.

Local Abbreviation close_each :=
  (fun rep context =>
     guarded (CloseContext (ctx_id context))
             (close_context_error io (ctx_id context))
             "Error closing context: " rep).

Lemma close_each_calls l : forall rep,
  calls (fold_left close_each l rep)
  = calls rep ++ map (fun c => CloseContext (ctx_id c)) l.
Proof.
  induction l as [ | c l IH ]; intros rep; cbn [fold_left map].
  - now rewrite app_nil_r.
  - rewrite IH. cbn [guarded calls]. now rewrite <- app_assoc.
Qed.

Lemma cleanup_calls self :
  calls (cleanup io self).1
  = map (fun c => CloseContext (ctx_id c)) (contexts self)
    ++ (if browser self then [CloseBrowser] else [])
    ++ (if playwright self then [StopPlaywright] else []).
Proof.
  unfold cleanup. cbn [fst].
  destruct (browser self), (playwright self); cbn [guarded calls];
    rewrite ?close_each_calls; cbn [calls app]; rewrite ?app_nil_r;
    rewrite <- ?app_assoc; reflexivity.
Qed.

(** [cleanup] asks every tracked context to close, in the order of
    tracking, then the browser if there is one, then Playwright if it was
    started: each call is made whatever the calls before it raised.
    Afterwards the manager holds no context, no browser and no Playwright,
    and a second [cleanup] makes no call at all. *)
Theorem cleanup_closes_everything self :
  let r := cleanup io self in
  calls r.1
  = map (fun c => CloseContext (ctx_id c)) (contexts self)
    ++ (if browser self then [CloseBrowser] else [])
    ++ (if playwright self then [StopPlaywright] else [])
  /\ contexts r.2 = [] /\ browser r.2 = false /\ playwright r.2 = false
  /\ (forall io', cleanup io' r.2 = (mkReport [] [], r.2)).
Proof.
  cbv zeta. split; [ apply cleanup_calls | ]. split_all; reflexivity.
Qed.

(** After [reset] the instance is initialized, its manager is empty, and
    [cleanup] is registered with atexit once more than before; the next
    [get_context] (working engine, positive maximum) starts Playwright and
    the browser again and returns a context created then. *)
Theorem reset_restarts self :
  (1 <= max_contexts)%Z ->
  let r := reset io self in
  let fresh := mkContext (created (manager self)) [] in
  calls r.1 = calls (cleanup io (manager self)).1
  /\ _initialized r.2 = true
  /\ registered r.2 = S (registered self)
  /\ manager r.2 = mkManager false false [] (created (manager self))
  /\ get_context engine_ok (manager r.2)
     = (Return fresh,
        mkManager true true [fresh] (S (created (manager self)))).
Proof.
  intros Hmax. cbv zeta. unfold reset, cleanup, __init__.
  cbn [fst snd _initialized manager registered created].
  split_all; try reflexivity.
  unfold BrowserManager.get_context. cbn [contexts List.filter find length].
  destruct (Z.ltb_spec (Z.of_nat 0) max_contexts) as [_ | Hge];
    [ reflexivity | simpl in Hge; lia ].
Qed.

(** *** Contexts that leave the pool *)

Definition tracked_ids (self : Manager) : list nat :=
  map ctx_id (contexts self).

(** The identities of the tracked contexts are distinct and were all given
    out already. *)
Definition well_numbered (self : Manager) : Prop :=
  List.NoDup (tracked_ids self)
  /\ Forall (fun id => id < created self) (tracked_ids self).

Lemma In_map_filter {A B} (g : A -> B) (f : A -> bool) (l : list A) x :
  In x (map g (List.filter f l)) -> In x (map g l).
Proof.
  rewrite !in_map_iff. intros (a & <- & Ha). apply filter_In in Ha as [Ha _].
  eauto.
Qed.

Lemma NoDup_map_filter {A B} (g : A -> B) (f : A -> bool) (l : list A) :
  List.NoDup (map g l) -> List.NoDup (map g (List.filter f l)).
Proof.
  induction l as [ | a l IH ]; cbn [map List.filter]; [ easy | ].
  intros Hnd. apply List.NoDup_cons_iff in Hnd as [Hnotin Hnd].
  destruct (f a); cbn [map]; [ | auto ].
  apply List.NoDup_cons_iff. split; [ | auto ].
  intros Hin. apply Hnotin. eapply In_map_filter; eauto.
Qed.

(** What one call does to the identities: those tracked afterwards were
    tracked before with an open page, or are new. *)
Lemma get_context_ids eng self :
  well_numbered self ->
  let self' := (get_context eng self).2 in
  well_numbered self'
  /\ created self <= created self'
  /\ (forall id, In id (tracked_ids self') ->
                 In id (map ctx_id (List.filter busy (contexts self)))
                 \/ created self <= id).
Proof.
  intros [Hnd Hlt]. cbv zeta.
  assert (well_numbered
            (mkManager (playwright self) (browser self)
                       (List.filter busy (contexts self)) (created self)))
    as Hkept.
  { split; unfold tracked_ids; cbn [contexts created].
    - now apply NoDup_map_filter.
    - apply List.Forall_forall. intros id Hin.
      rewrite List.Forall_forall in Hlt. apply Hlt.
      eapply In_map_filter; eauto. }
  assert (forall p b,
    well_numbered
      (mkManager p b
         (List.filter busy (contexts self) ++ [mkContext (created self) []])
         (S (created self)))) as Hadded.
  { intros p b. destruct Hkept as [Hnd' Hlt'].
    unfold well_numbered, tracked_ids in *. cbn [contexts created] in *.
    split; rewrite map_app; cbn [map ctx_id].
    - apply List.NoDup_app; [ easy | | ].
      + repeat constructor. easy.
      + intros id Hin [<- | []]. rewrite List.Forall_forall in Hlt'.
        apply Hlt' in Hin. lia.
    - apply Forall_app. split; [ | repeat constructor ].
      eapply Forall_impl; [ exact Hlt' | ]. cbn. lia. }
  assert (forall id,
    In id (map ctx_id
             (List.filter busy (contexts self) ++ [mkContext (created self) []])) ->
    In id (map ctx_id (List.filter busy (contexts self)))
    \/ created self <= id) as Hnew.
  { intros id. rewrite map_app, in_app_iff. cbn. intros [H | [<- | []]]; auto. }
  unfold BrowserManager.get_context, tracked_ids. cbn [contexts].
  rewrite reuse_loop_dead.
  destruct (Z.of_nat _ <? max_contexts)%Z.
  - unfold get_browser. cbn [browser playwright contexts created].
    destruct (browser self).
    + destruct (new_context_error eng); cbn [snd contexts created];
        split_all; auto.
    + destruct (start_error eng); [ cbn [snd contexts created];
                                    split_all; auto | ].
      destruct (launch_error eng);
        [ cbn [snd contexts created]; split_all; auto;
          destruct Hkept; split; assumption | ].
      destruct (new_context_error eng); cbn [snd contexts created];
        split_all; auto; destruct Hkept; split; assumption.
  - destruct (py_min _ _); cbn [snd contexts created]; split_all; auto.
Qed.

Lemma pool_step_ids self self' :
  pool_step max_contexts self self' ->
  well_numbered self ->
  well_numbered self'
  /\ created self <= created self'
  /\ (forall id, In id (tracked_ids self') ->
                 In id (tracked_ids self) \/ created self <= id).
Proof.
  intros Hstep Hwn. destruct Hstep as [eng s | s s' (_ & _ & Hc & Hids)].
  - destruct (get_context_ids eng s Hwn) as (H1 & H2 & H3).
    split_all; auto. intros id Hin. destruct (H3 id Hin) as [H | H]; auto.
    left. eapply In_map_filter; eauto.
  - unfold well_numbered, tracked_ids in *. rewrite Hids, Hc.
    split_all; auto; tauto.
Qed.

Lemma reachable_well_numbered self :
  rtc (pool_step max_contexts) initial self -> well_numbered self.
Proof.
  intros Hrun.
  assert (well_numbered initial) as Hinit by (split; constructor).
  revert Hinit. induction Hrun as [ s | s1 s2 s3 Hstep _ IH ]; [ easy | ].
  intros Hwn. apply IH. now apply (pool_step_ids s1 s2).
Qed.

(** An identity that is not tracked and was given out before does not come
    back. *)
Lemma untracked_stays id self self' :
  rtc (pool_step max_contexts) self self' ->
  well_numbered self -> id < created self -> ~ In id (tracked_ids self) ->
  ~ In id (tracked_ids self').
Proof.
  induction 1 as [ s | s1 s2 s3 Hstep _ IH ]; [ easy | ].
  intros Hwn Hlt Hout.
  destruct (pool_step_ids s1 s2 Hstep Hwn) as (Hwn2 & Hc & Hids).
  apply IH; [ easy | lia | ].
  intros Hin. destruct (Hids id Hin); [ contradiction | lia ].
Qed.

(** A tracked context that has no open page when [get_context] is called
    leaves the pool for good: it is not tracked after the call nor at any
    later time, and [cleanup] never asks it to close (it lives on in the
    browser until the browser itself is closed). *)
Theorem dropped_context_never_closed eng self ctx self' :
  rtc (pool_step max_contexts) initial self ->
  In ctx (contexts self) ->
  pages ctx = [] ->
  rtc (pool_step max_contexts) (get_context eng self).2 self' ->
  ~ In (ctx_id ctx) (tracked_ids self')
  /\ ~ In (CloseContext (ctx_id ctx)) (calls (cleanup io self').1).
Proof.
  intros Hreach Hin Hidle Hlater.
  pose proof (reachable_well_numbered self Hreach) as Hwn.
  destruct (get_context_ids eng self Hwn) as (Hwn1 & Hc1 & Hids1).
  assert (ctx_id ctx < created self) as Hlt.
  { destruct Hwn as [_ Hlt]. rewrite List.Forall_forall in Hlt.
    apply Hlt. unfold tracked_ids. now apply in_map. }
  assert (~ In (ctx_id ctx) (tracked_ids self')) as Hout.
  { apply (untracked_stays _ _ _ Hlater Hwn1); [ lia | ].
    intros Hin1. destruct (Hids1 _ Hin1) as [Hk | Hk]; [ | lia ].
    apply in_map_iff in Hk as (c & Hid & Hc).
    apply filter_In in Hc as [Hc Hbusy].
    assert (c = ctx) as ->.
    { destruct Hwn as [Hnd _]. unfold tracked_ids in Hnd.
      clear - Hnd Hid Hc Hin.
      induction (contexts self) as [ | a l IH ]; [ easy | ].
      cbn [map] in Hnd. apply List.NoDup_cons_iff in Hnd as [Hnotin Hnd].
      destruct Hc as [-> | Hc], Hin as [-> | Hin]; auto.
      - exfalso. apply Hnotin. rewrite Hid. now apply in_map.
      - exfalso. apply Hnotin. rewrite <- Hid. now apply in_map. }
    cbn in Hbusy. now rewrite Hidle in Hbusy. }
  split; [ exact Hout | ].
  rewrite cleanup_calls, !in_app_iff. intros [H | [H | H]].
  - apply in_map_iff in H as (c & [= Hid] & Hc). apply Hout.
    unfold tracked_ids. rewrite <- Hid. now apply in_map.
  - destruct (browser self'); [ destruct H as [H | []]; discriminate | easy ].
  - destruct (playwright self'); [ destruct H as [H | []]; discriminate | easy ].
Qed.

End shutdown_facts.

(** ** cache.py: round trips, frames, clearing and restarts *)

Section cache_more_facts.

Import Cache.

Variable cfg : Settings.


(** What lookup and store leave alone.  A lookup never touches a file, and
    the only change it ever makes to the index is to drop the entry of the
    key it looked up.  A store never removes a file, writes no file but the
    one named after its key, and changes no index entry but the one of
    that key. *)
Theorem lookup_and_store_frame io now u path o self d :
  let key := get_cache_key cfg u o in
  (let r := get_cached_path cfg io now u o self d in
   files r.2 = files d
   /\ cache_dir r.1.2 = cache_dir self
   /\ (metadata r.1.2 = metadata self
       \/ metadata r.1.2 = delete key (metadata self)))
  /\ (let r := save_to_cache cfg io now u path o self d in
      (forall p, p <> joinpath (cache_dir self) (key ++ ".png") ->
                 files r.2 !! p = files d !! p)
      /\ (forall p, is_Some (files d !! p) -> is_Some (files r.2 !! p))
      /\ cache_dir r.1.2 = cache_dir self
      /\ (forall k, k <> key -> metadata r.1.2 !! k = metadata self !! k)).
Proof.
  intros key. split.
  - cbv zeta. unfold Cache.get_cached_path. fold key.
    destruct (cache_enabled cfg); cbn [negb]; [ | auto ].
    destruct (metadata self !! key) as [entry | ]; [ | auto ].
    destruct (timedelta_hours _) as [ttl | e]; [ | auto ].
    destruct (_ <? _)%Z; [ | auto ].
    destruct (file_exists d _); [ auto | ].
    unfold _save_metadata. destruct (write_error io); cbn; auto.
  - cbv zeta. unfold Cache.save_to_cache. fold key.
    destruct (cache_enabled cfg); cbn [negb]; [ | auto ].
    unfold copy2.
    destruct (files d !! path) as [content | ]; [ | auto ].
    destruct (bool_decide _); [ auto | ].
    destruct (copy_error io _ _); [ auto | ].
    unfold _save_metadata.
    destruct (write_error io); cbn [fst snd files metadata cache_dir];
      (split_all; [ intros p Hp; now rewrite lookup_insert_ne
                  | intros p Hp;
                    destruct (decide (joinpath (cache_dir self) (key ++ ".png") = p))
                      as [<- | Hne];
                    [ rewrite lookup_insert_eq; eauto
                    | now rewrite lookup_insert_ne ]
                  | reflexivity
                  | intros k Hk; now rewrite lookup_insert_ne ]).
Qed.

(** *** Clearing *)

Lemma unlink_all_files io (l : list string) : forall d p,
  files (fold_left (fun d cache_file => (unlink io cache_file d).2) l d) !! p
  = match bool_decide (p ∈ l), unlink_error io p with
    | true, None => None
    | _, _ => files d !! p
    end.
Proof.
  induction l as [ | q l IH ]; intros d p; cbn [fold_left].
  - rewrite bool_decide_eq_false_2 by apply not_elem_of_nil. reflexivity.
  - rewrite IH. unfold unlink.
    destruct (decide (q = p)) as [-> | Hne].
    + rewrite (bool_decide_eq_true_2 (p ∈ p :: l))
        by (apply elem_of_cons; now left).
      destruct (unlink_error io p) eqn:Herr; cbn [snd files].
      * now destruct (bool_decide _).
      * rewrite lookup_delete_eq. now destruct (bool_decide _).
    + assert (bool_decide (p ∈ q :: l) = bool_decide (p ∈ l)) as ->.
      { apply bool_decide_ext. rewrite elem_of_cons. intuition congruence. }
      destruct (unlink_error io q); cbn [snd files];
        [ reflexivity | ].
      now rewrite lookup_delete_ne.
Qed.

Lemma unlink_all_index io (l : list string) : forall d,
  index_file (fold_left (fun d cache_file => (unlink io cache_file d).2) l d)
  = index_file d
  /\ index_writes (fold_left (fun d cache_file => (unlink io cache_file d).2) l d)
     = index_writes d.
Proof.
  induction l as [ | q l IH ]; intros d; cbn [fold_left]; [ easy | ].
  destruct (IH (unlink io q d).2) as [-> ->]. unfold unlink.
  now destruct (unlink_error io q).
Qed.

Lemma glob_png_spec dir d p :
  In p (glob_png dir d) <-> matches_png dir p = true /\ is_Some (files d !! p).
Proof.
  unfold glob_png. rewrite filter_In, in_map_iff. split.
  - intros [((q & content) & <- & Hin) Hm]. split; [ exact Hm | ].
    apply list_elem_of_In, elem_of_map_to_list in Hin. cbn. eauto.
  - intros [Hm [content Hp]]. split; [ | exact Hm ].
    exists (p, content). split; [ reflexivity | ].
    now apply list_elem_of_In, elem_of_map_to_list.
Qed.

(** [clear_cache] always leaves the index in memory empty.  It deletes
    every file of the cache directory whose name ends in .png, whether the
    index knew it or not, except those whose deletion fails; it touches no
    other file.  Then it writes the empty index once; when that write
    fails it raises CacheError, with the files already gone.  After it,
    every lookup returns None. *)
Theorem clear_cache_spec io self d :
  let r := clear_cache io self d in
  metadata r.1.2 = ∅
  /\ cache_dir r.1.2 = cache_dir self
  /\ (forall p,
        files r.2 !! p
        = match matches_png (cache_dir self) p, unlink_error io p with
          | true, None => None
          | _, _ => files d !! p
          end)
  /\ match write_error io with
     | None =>
         r.1.1 = Return tt
         /\ index_file r.2 = Some ∅
         /\ index_writes r.2 = S (index_writes d)
     | Some e =>
         r.1.1 = Raise (CacheError
                          (py "Failed to save cache metadata: " ++ str e))
         /\ index_file r.2 = index_file d
         /\ index_writes r.2 = index_writes d
     end
  /\ (forall io' now u o,
        get_cached_path cfg io' now u o r.1.2 r.2 = (Return None, r.1.2, r.2)).
Proof.
  cbv zeta. unfold clear_cache.
  set (d1 := fold_left _ _ d).
  assert (forall p,
    files d1 !! p
    = match matches_png (cache_dir self) p, unlink_error io p with
      | true, None => None
      | _, _ => files d !! p
      end) as Hfiles.
  { intros p. subst d1. rewrite unlink_all_files.
    destruct (matches_png (cache_dir self) p) eqn:Hm.
    - destruct (files d !! p) as [content | ] eqn:Hp.
      + rewrite bool_decide_eq_true_2; [ reflexivity | ].
        apply list_elem_of_In, glob_png_spec. split; [ exact Hm | ].
        rewrite Hp. eauto.
      + destruct (bool_decide _); now destruct (unlink_error io p).
    - rewrite bool_decide_eq_false_2; [ reflexivity | ].
      rewrite list_elem_of_In, glob_png_spec. intros [Hm' _]. congruence. }
  destruct (unlink_all_index io (glob_png (cache_dir self) d) d) as [Hi Hw].
  fold d1 in Hi, Hw.
  assert (forall s' d',
    metadata s' = ∅ ->
    forall io' now u o,
      get_cached_path cfg io' now u o s' d' = (Return None, s', d'))
    as Hmiss.
  { intros s' d' Ha io' now u o. unfold Cache.get_cached_path.
    destruct (cache_enabled cfg); cbn [negb]; [ | reflexivity ].
    now rewrite Ha, lookup_empty. }
  unfold _save_metadata. destruct (write_error io) as [e | ];
    cbn [fst snd metadata cache_dir files index_file index_writes];
    split_all; auto; now apply Hmiss.
Qed.

(** *** The index on disk *)

Lemma reloaded_cons c c2 rest2 :
  Json.reloaded (c :: c2 :: rest2)
  = if Json.is_high_surrogate c && Json.is_low_surrogate c2
    then (0x10000 + (c - 0xd800) * 0x400 + (c2 - 0xdc00))%N
         :: Json.reloaded rest2
    else c :: Json.reloaded (c2 :: rest2).
Proof. reflexivity. Qed.

(** A string without surrogates is read back as it was written. *)
Lemma reloaded_well_formed s : well_formed s -> Json.reloaded s = s.
Proof.
  unfold well_formed.
  induction s as [ | c [ | c2 rest ] IH ]; intros Hs; try reflexivity.
  apply Forall_cons in Hs as [[_ Hc] Hs].
  rewrite reloaded_cons.
  assert (Json.is_high_surrogate c = false) as ->.
  { unfold Json.is_high_surrogate. apply andb_false_iff.
    rewrite !N.leb_gt. lia. }
  cbn [andb]. now rewrite IH.
Qed.

(** What a string read back begins with is no low surrogate, unless the
    string itself began with it. *)
Lemma reloaded_head c rest :
  exists x xs,
    Json.reloaded (c :: rest) = x :: xs
    /\ (x = c \/ Json.is_low_surrogate x = false).
Proof.
  destruct rest as [ | c2 rest2 ]; [ cbn; eauto | ].
  rewrite reloaded_cons.
  destruct (Json.is_high_surrogate c && Json.is_low_surrogate c2);
    [ | eauto ].
  eexists _, _. split; [ reflexivity | right ].
  unfold Json.is_low_surrogate. apply andb_false_iff. right.
  apply N.leb_gt. lia.
Qed.

(** Reading back what was read back changes nothing more. *)
Lemma reloaded_idem_upto n : forall s,
  length s <= n -> Json.reloaded (Json.reloaded s) = Json.reloaded s.
Proof.
  induction n as [ | n IH ]; intros s Hlen.
  { destruct s; [ reflexivity | cbn in Hlen; lia ]. }
  destruct s as [ | c [ | c2 rest2 ] ]; try reflexivity.
  cbn [length] in Hlen.
  rewrite reloaded_cons.
  destruct (Json.is_high_surrogate c && Json.is_low_surrogate c2) eqn:Hpair.
  - (* the pair comes back as one code point, which is no surrogate *)
    set (m := (0x10000 + (c - 0xd800) * 0x400 + (c2 - 0xdc00))%N).
    assert (Json.is_high_surrogate m = false) as Hm.
    { unfold Json.is_high_surrogate. apply andb_false_iff. right.
      apply N.leb_gt. subst m. lia. }
    specialize (IH rest2 ltac:(lia)).
    destruct (Json.reloaded rest2) as [ | x xs ] eqn:Hrest; [ reflexivity | ].
    rewrite reloaded_cons, Hm. cbn [andb]. now rewrite IH.
  - specialize (IH (c2 :: rest2) ltac:(cbn [length]; lia)).
    destruct (reloaded_head c2 rest2) as (x & xs & Hx & Hhead).
    rewrite Hx in *.
    assert (Json.is_high_surrogate c && Json.is_low_surrogate x = false)
      as Hno.
    { destruct Hhead as [-> | ->]; [ exact Hpair | apply andb_false_r ]. }
    rewrite reloaded_cons, Hno. now rewrite IH.
Qed.

Lemma reloaded_idem s : Json.reloaded (Json.reloaded s) = Json.reloaded s.
Proof. now apply (reloaded_idem_upto (length s)). Qed.

Lemma reload_entry_idem e : reload_entry (reload_entry e) = reload_entry e.
Proof.
  destruct e as [u f t [[fp sel mob dev] | ]];
    unfold reload_entry, reload_options;
    cbn [url filename timestamp options full_page selector mobile device_name
         fmap option_fmap option_map];
    rewrite reloaded_idem; [ | reflexivity ].
  destruct sel, dev; cbn [fmap option_fmap option_map];
    now rewrite ?reloaded_idem.
Qed.

Lemma reload_entry_well_formed e :
  well_formed (url e) -> well_formed_options (options e) ->
  reload_entry e = e.
Proof.
  destruct e as [u f t [[fp sel mob dev] | ]];
    unfold reload_entry, reload_options;
    cbn [url filename timestamp options full_page selector mobile device_name
         fmap option_fmap option_map well_formed_options];
    intros Hu Ho; rewrite (reloaded_well_formed _ Hu); [ | reflexivity ].
  destruct Ho as [Hsel Hdev].
  destruct sel, dev; cbn [fmap option_fmap option_map well_formed_opt] in *;
    now rewrite ?reloaded_well_formed.
Qed.

(** The index file holds the index that the object holds in memory: what
    a new object reads from the file is that index read back from JSON. *)
Definition in_sync (self : ScreenshotCache) (d : Disk) : Prop :=
  _load_metadata None d = reload_entry <$> metadata self.

(** One call of a method of the cache, made under some configuration and
    at some time, with anything failing except the write of the index
    file. *)
Inductive cache_step : ScreenshotCache * Disk -> ScreenshotCache * Disk -> Prop :=
| step_lookup c io now u o self d :
    write_error io = None ->
    cache_step (self, d)
      (let r := get_cached_path c io now u o self d in (r.1.2, r.2))
| step_store c io now u path o self d :
    write_error io = None ->
    cache_step (self, d)
      (let r := save_to_cache c io now u path o self d in (r.1.2, r.2))
| step_cleanup c io now force self d :
    write_error io = None ->
    cache_step (self, d)
      (let r := cleanup_old_cache c io now force self d in (r.1.2, r.2))
| step_clear io self d :
    write_error io = None ->
    cache_step (self, d)
      (let r := clear_cache io self d in (r.1.2, r.2)).

Lemma loaded_in_sync dir d :
  in_sync (mkCache dir (_load_metadata None d)) d.
Proof.
  unfold in_sync, _load_metadata. cbn [metadata].
  destruct (index_file d) as [m | ]; [ | now rewrite fmap_empty ].
  rewrite <- map_fmap_compose. apply map_fmap_ext.
  intros k e _. cbn. now rewrite reload_entry_idem.
Qed.

Lemma saved_in_sync io self d :
  write_error io = None ->
  in_sync self (_save_metadata io self d).2.
Proof. intros H. unfold in_sync, _save_metadata, _load_metadata. now rewrite H. Qed.

Lemma files_in_sync self d d' :
  index_file d' = index_file d -> in_sync self d -> in_sync self d'.
Proof. unfold in_sync, _load_metadata. now intros ->. Qed.

Lemma cache_step_in_sync s s' :
  cache_step s s' -> in_sync s.1 s.2 -> in_sync s'.1 s'.2 /\ cache_dir s'.1 = cache_dir s.1.
Proof.
  intros Hstep. destruct Hstep as [c io now u o self d Hw
                                  | c io now u path o self d Hw
                                  | c io now force self d Hw
                                  | io self d Hw]; cbn [fst snd]; intros Hs.
  - unfold Cache.get_cached_path.
    destruct (cache_enabled c); cbn [negb]; [ | auto ].
    destruct (metadata self !! _); [ | auto ].
    destruct (timedelta_hours _) as [ttl | e]; [ | auto ].
    destruct (_ <? _)%Z; [ | auto ].
    destruct (file_exists d _); [ auto | ].
    pose proof (saved_in_sync io
                  (mkCache (cache_dir self)
                     (delete (get_cache_key c u o) (metadata self))) d Hw)
      as Hsaved.
    destruct (_save_metadata io _ d) as [[ | ] d']; auto.
  - unfold Cache.save_to_cache.
    destruct (cache_enabled c); cbn [negb]; [ | auto ].
    unfold copy2.
    destruct (files d !! path) as [content | ]; [ | auto ].
    destruct (bool_decide _); [ auto | ].
    destruct (copy_error io _ _); [ auto | ].
    match goal with
    | |- context [_save_metadata io ?s ?d1] =>
        pose proof (saved_in_sync io s d1 Hw) as Hsaved;
        destruct (_save_metadata io s d1) as [[ | ] d']; auto
    end.
  - destruct (timedelta_hours_cases (cache_ttl_hours c * ttl_multiplier force))
      as [[Hlimit _] | [Hlimit _]].
    2: { destruct (cleanup_overflow c io now force self d Hlimit) as [msg ->].
         auto. }
    rewrite cleanup_unfold by exact Hlimit. cbv zeta.
    destruct (sweep_index io now (age_limit c force) (cache_dir self)
                (map_to_list (metadata self)) d) as [Hi _].
    set (d1 := fold_left _ _ d) in *.
    destruct (map fst _) as [ | key keys ]; cbn [BrowserManager.truthy].
    + cbn [fst snd fold_left]. split; [ | reflexivity ].
      apply (files_in_sync _ d); [ exact Hi | now destruct self ].
    + match goal with
      | |- context [_save_metadata io ?s d1] =>
          pose proof (saved_in_sync io s d1 Hw) as Hsaved;
          destruct (_save_metadata io s d1) as [[ | ] d']; auto
      end.
  - unfold clear_cache.
    match goal with
    | |- context [_save_metadata io ?s ?d1] =>
        pose proof (saved_in_sync io s d1 Hw) as Hsaved;
        destruct (_save_metadata io s d1) as [[ | ] d']; auto
    end.
Qed.

(** A lookup reads of an entry its file name and its time, which come back
    from the index file as they were: so it returns on the index read back
    what it returns on the index itself. *)
Lemma lookup_reloaded c io now u o self d :
  (get_cached_path c io now u o
     (mkCache (cache_dir self) (reload_entry <$> metadata self)) d).1.1
  = (get_cached_path c io now u o self d).1.1.
Proof.
  unfold Cache.get_cached_path. cbn [metadata cache_dir].
  destruct (cache_enabled c); cbn [negb]; [ | reflexivity ].
  rewrite lookup_fmap.
  destruct (metadata self !! _) as [entry | ]; cbn [fmap option_fmap option_map];
    [ | reflexivity ].
  destruct (timedelta_hours _) as [ttl | e]; [ | reflexivity ].
  cbn [reload_entry timestamp filename].
  destruct (_ <? _)%Z; [ | reflexivity ].
  destruct (file_exists d _); [ reflexivity | ].
  unfold _save_metadata. now destruct (write_error io).
Qed.

(** The index survives a restart.  Take a cache object made by [__init__]
    from a readable disk, and any calls of its methods during which the
    index file can be written.  An object made afterwards from the disk, as
    a new process does, has the same directory and holds the index that the
    old one held as JSON gives it back: the same keys, and under each the
    entry with the same file name and the same time, its url and the
    strings of its options read back from their escapes.  Every lookup
    returns on the new object what it returns on the old one.  When no
    string of the index holds a surrogate the new object is equal to the
    old one. *)
Theorem index_survives_restart dir d self0 self d' :
  __init__ dir None None d = Return self0 ->
  rtc cache_step (self0, d) (self, d') ->
  exists self',
    __init__ dir None None d' = Return self'
    /\ cache_dir self' = cache_dir self
    /\ (forall k, metadata self' !! k = reload_entry <$> metadata self !! k)
    /\ (forall k e,
          metadata self !! k = Some e ->
          exists e',
            metadata self' !! k = Some e'
            /\ filename e' = filename e
            /\ timestamp e' = timestamp e
            /\ url e' = Json.reloaded (url e))
    /\ (forall c io now u o d'',
          (get_cached_path c io now u o self' d'').1.1
          = (get_cached_path c io now u o self d'').1.1)
    /\ ((forall k e,
           metadata self !! k = Some e ->
           well_formed (url e) /\ well_formed_options (options e)) ->
        self' = self).
Proof.
  intros [= <-] Hrun.
  assert (in_sync self d' /\ cache_dir self = dir) as [Hs Hd].
  { remember (mkCache dir (_load_metadata None d), d) as s0 eqn:E0.
    remember (self, d') as s1 eqn:E1.
    assert (in_sync s0.1 s0.2 /\ cache_dir s0.1 = dir) as H0
      by (subst s0; split; [ apply loaded_in_sync | reflexivity ]).
    clear E0. revert self d' E1.
    induction Hrun as [ s | s1 s2 s3 Hstep _ IH ]; intros self d' ->.
    - exact H0.
    - destruct H0 as [H0 Hd0].
      destruct (cache_step_in_sync _ _ Hstep H0) as [H2 Hd2].
      apply IH; [ split; congruence | reflexivity ]. }
  unfold __init__. unfold in_sync in Hs. rewrite Hs. subst dir.
  eexists. split; [ reflexivity | ]. cbn [cache_dir metadata].
  split_all.
  - reflexivity.
  - intros k. apply lookup_fmap.
  - intros k e Hk. exists (reload_entry e). rewrite lookup_fmap, Hk.
    now split_all.
  - intros c io now u o d''. apply lookup_reloaded.
  - intros Hwf. destruct self as [dir m]. cbn [cache_dir metadata] in *.
    f_equal. rewrite <- (map_fmap_id m) at 2. apply map_fmap_ext.
    intros k e Hk. destruct (Hwf k e Hk). now apply reload_entry_well_formed.
Qed.

(** *** Statistics *)

Lemma fold_min_le (l : list Z) : forall x y,
  In y (x :: l) -> (fold_left Z.min l x <= y)%Z.
Proof.
  induction l as [ | a l IH ]; intros x y; cbn [fold_left].
  - intros [-> | []]. lia.
  - intros [-> | [-> | Hin]].
    + pose proof (IH (Z.min y a) (Z.min y a) ltac:(now left)). lia.
    + pose proof (IH (Z.min x y) (Z.min x y) ltac:(now left)). lia.
    + apply IH. now right.
Qed.

Lemma fold_max_ge (l : list Z) : forall x y,
  In y (x :: l) -> (y <= fold_left Z.max l x)%Z.
Proof.
  induction l as [ | a l IH ]; intros x y; cbn [fold_left].
  - intros [-> | []]. lia.
  - intros [-> | [-> | Hin]].
    + pose proof (IH (Z.max y a) (Z.max y a) ltac:(now left)). lia.
    + pose proof (IH (Z.max x y) (Z.max x y) ltac:(now left)). lia.
    + apply IH. now right.
Qed.

(** [get_cache_stats] counts the entries of the index, expired ones
    included, and reports no oldest and no newest entry exactly when there
    is none; otherwise the time of every entry lies between the two.  The
    size it reports is that of the .png files of the directory, whether the
    index knows them or not: it is zero when there is no such file. *)
Theorem cache_stats_bounds self d :
  let s := get_cache_stats self d in
  total_entries s = size (metadata self)
  /\ (metadata self = ∅ -> oldest_entry s = None /\ newest_entry s = None)
  /\ (forall k e,
        metadata self !! k = Some e ->
        exists lo hi,
          oldest_entry s = Some lo /\ newest_entry s = Some hi
          /\ (lo <= timestamp e <= hi)%Z)
  /\ (glob_png (cache_dir self) d = [] -> total_size_mb s == 0).
Proof.
  cbv zeta. unfold get_cache_stats.
  cbn [total_entries oldest_entry newest_entry total_size_mb].
  split_all.
  - reflexivity.
  - intros ->. now rewrite map_to_list_empty.
  - intros k e Hk.
    assert (In (timestamp e)
               (map (fun e => timestamp e.2) (map_to_list (metadata self))))
      as Hin.
    { apply in_map_iff. exists (k, e). split; [ reflexivity | ].
      now apply list_elem_of_In, elem_of_map_to_list. }
    destruct (map _ (map_to_list (metadata self))) as [ | x l ]; [ easy | ].
    cbn [min_default max_default]. eexists _, _. split_all; try reflexivity.
    + now apply fold_min_le.
    + now apply fold_max_ge.
  - intros ->. reflexivity.
Qed.

End cache_more_facts.

(** ** cache.py: what is hashed, and the name of a cached file *)

Section key_shape_facts.

Import Hex Json Cache Md5.

#[local] Transparent json_key json_string json_optional json_bool.

(** A printable ASCII character. *)
Definition printable (a : ascii) : Prop := (32 <= N_of_ascii a <= 126)%N.

Fixpoint all_printable (s : string) : Prop :=
  match s with
  | EmptyString => True
  | String a rest => printable a /\ all_printable rest
  end.

Lemma all_printable_app (a b : string) :
  all_printable a -> all_printable b -> all_printable (a ++ b).
Proof.
  induction a as [ | x a IH ]; app_norm; [ easy | ].
  cbn [all_printable]. intros [Hx Ha] Hb. auto.
Qed.

(** A string given character by character. *)
Ltac spelt s :=
  lazymatch s with
  | EmptyString => idtac
  | String _ ?rest => spelt rest
  end.

Ltac literal :=
  lazymatch goal with
  | |- all_printable ?s =>
      let s' := eval cbv [quote backslash] in s in
      spelt s'; change (all_printable s');
      cbn [all_printable]; unfold printable; repeat split; vm_compute;
      discriminate
  end.

Lemma hex_digit_printable n : printable (hex_digit n).
Proof.
  pose proof (hex_digit_In n) as H. unfold hex_chars in H.
  cbn [In] in H. unfold printable.
  repeat (destruct H as [<- | H]; [ cbn; lia | ]). destruct H.
Qed.

Lemma hex4_printable n : all_printable (hex4 n).
Proof.
  unfold hex4. cbn [all_printable]. auto using hex_digit_printable.
Qed.

Lemma escape_char_printable c : all_printable (escape_char c).
Proof.
  unfold escape_char.
  repeat (destruct (_ =? _)%N; [ literal | ]).
  destruct (_ && _) eqn:Hrange.
  - apply andb_true_iff in Hrange as [Hlo Hhi].
    apply N.leb_le in Hlo, Hhi. cbn [all_printable]. split; [ | easy ].
    unfold printable. rewrite N_ascii_embedding by lia. lia.
  - assert (forall n, all_printable (String backslash (String "u" (hex4 n))))
      as Hu.
    { intros n. cbn [all_printable]. split_all; try apply hex4_printable;
        unfold printable; cbn; lia. }
    destruct (_ <? _)%N; [ apply Hu | ].
    apply all_printable_app; apply Hu.
Qed.

Lemma escape_printable s : all_printable (escape s).
Proof.
  induction s as [ | c s IH ]; [ easy | ]. cbn [escape].
  apply all_printable_app; [ apply escape_char_printable | exact IH ].
Qed.

Lemma json_string_printable s : all_printable (json_string s).
Proof.
  unfold json_string. cbn [all_printable]. split; [ unfold printable; cbn; lia | ].
  apply all_printable_app; [ apply escape_printable | literal ].
Qed.

Lemma str_int_printable n : all_printable (str_int n).
Proof.
  pose proof (str_int_chars n) as H.
  induction (str_int n) as [ | a s IH ]; [ easy | ].
  destruct H as [Ha Hs]. cbn [all_printable]. split; [ | auto ].
  unfold is_digit_or_sign in Ha. cbn [In] in Ha. unfold printable.
  repeat (destruct Ha as [<- | Ha]; [ cbn; lia | ]). destruct Ha.
Qed.

Lemma json_key_printable k : all_printable (json_key k).
Proof.
  unfold json_key.
  apply all_printable_app; [ apply json_string_printable | literal ].
Qed.

Lemma json_optional_printable o : all_printable (json_optional o).
Proof.
  destruct o; cbn [json_optional]; [ apply json_string_printable | literal ].
Qed.

Lemma json_bool_printable b : all_printable (json_bool b).
Proof. destruct b; cbn [json_bool]; literal. Qed.

Ltac pieces :=
  repeat first
    [ apply json_key_printable | apply json_string_printable
    | apply json_optional_printable | apply json_bool_printable
    | literal | apply all_printable_app ].

Lemma dumps_options_printable o : all_printable (dumps_options o).
Proof.
  destruct o as [o | ]; cbn [dumps_options]; [ pieces | literal ].
Qed.

Lemma cache_key_hex cfg u o :
  String.length (get_cache_key cfg u o) = 32
  /\ hex_string (get_cache_key cfg u o).
Proof.
  unfold get_cache_key, hexdigest.
  destruct (hex_of_bytes_spec
              (digest (map N_of_ascii
                         (list_ascii_of_string (key_str cfg u o)))))
    as [Hlen Hhex].
  rewrite Hlen, digest_length. split; [ reflexivity | exact Hhex ].
Qed.

(** The string that [get_cache_key] hashes is made of printable ASCII
    characters only, whatever code points the url, the selector and the
    device name hold (lone surrogates included): encoding it cannot fail
    and gives one byte per character.  The key itself is 32 lower-case
    hexadecimal digits. *)
Theorem cache_key_shape cfg u o :
  all_printable (key_str cfg u o)
  /\ String.length (get_cache_key cfg u o) = 32
  /\ hex_string (get_cache_key cfg u o).
Proof.
  split.
  - unfold key_str.
    repeat first
      [ apply json_key_printable | apply json_string_printable
      | apply dumps_options_printable | literal | apply all_printable_app ].
  - apply cache_key_hex.
Qed.

(** *** File names *)

Lemma strip_prefix_app p s : strip_prefix p (p ++ s) = Some s.
Proof.
  induction p as [ | a p IH ]; app_norm; [ now destruct s | ].
  cbn [strip_prefix]. now rewrite Ascii.eqb_refl.
Qed.

Lemma ends_with_app suffix s : ends_with suffix (s ++ suffix) = true.
Proof.
  induction s as [ | a s IH ]; app_norm.
  - destruct suffix; cbn [ends_with]; now rewrite String.eqb_refl.
  - cbn [ends_with]. rewrite IH. apply orb_true_r.
Qed.

Lemma has_separator_app a b :
  has_separator (a ++ b) = has_separator a || has_separator b.
Proof.
  induction a as [ | x a IH ]; app_norm; [ easy | ].
  cbn [has_separator]. now rewrite IH, orb_assoc.
Qed.

Lemma hex_string_no_separator s : hex_string s -> has_separator s = false.
Proof.
  induction s as [ | a s IH ]; [ easy | ]. intros [Ha Hs].
  cbn [has_separator]. rewrite (IH Hs), orb_false_r.
  unfold hex_chars in Ha. cbn [In] in Ha.
  repeat (destruct Ha as [<- | Ha]; [ reflexivity | ]). destruct Ha.
Qed.

(** A name without a separator is a relative one. *)
Lemma no_separator_relative s :
  has_separator s = false -> Pathlib.is_absolute s = false.
Proof.
  destruct s as [ | a s ]; [ easy | ]. cbn [has_separator].
  intros H. apply orb_false_iff in H as [H _]. exact H.
Qed.

Lemma string_length_app (a b : string) :
  String.length (a ++ b) = String.length a + String.length b.
Proof.
  induction a as [ | x a IH ]; app_norm; [ easy | ].
  cbn [String.length]. now rewrite IH.
Qed.

(** The name under which [save_to_cache] files a screenshot has 36
    characters, the key and the extension; it holds no path separator,
    whatever the url, so the file lies in the cache directory itself, and
    it is one of the files [clear_cache] looks for. *)
Theorem cache_file_name_shape cfg u o dir :
  let cache_filename := (get_cache_key cfg u o ++ ".png")%string in
  String.length cache_filename = 36
  /\ has_separator cache_filename = false
  /\ matches_png dir (joinpath dir cache_filename) = true.
Proof.
  destruct (cache_key_hex cfg u o) as (Hlen & Hhex). cbv zeta.
  assert (has_separator (get_cache_key cfg u o ++ ".png") = false) as Hsep.
  { rewrite has_separator_app, (hex_string_no_separator _ Hhex).
    reflexivity. }
  split_all.
  - now rewrite string_length_app, Hlen.
  - exact Hsep.
  - unfold matches_png, joinpath.
    rewrite (no_separator_relative _ Hsep).
    rewrite <- string_app_assoc, strip_prefix_app, Hsep, ends_with_app.
    reflexivity.
Qed.

End key_shape_facts.

(** ** core.py: more about capture_screenshot *)

Section capture_more_facts.

Import Core Capture.

Variable cfg : Settings.
Variable world : World.
Variable req : Request.

Local Abbreviation out := (resolve_output_path cfg world req).
Local Abbreviation attempt_body := (attempt_body world req).
Local Abbreviation one_attempt := (one_attempt cfg world req).
Local Abbreviation attempts := (attempts cfg world req).
Local Abbreviation raises_at := (raises_at cfg world req).
Local Abbreviation fails_unclassified := (fails_unclassified cfg world req).
Local Abbreviation succeeds := (succeeds cfg world req).
Local Abbreviation reaches_loop := (reaches_loop world req).
Local Abbreviation preamble := (preamble cfg world req).

(** *** A success ends the retries *)

Lemma attempts_succeed k : forall n a s,
  a + n = Z.to_nat (max_retries cfg) ->
  k < n ->
  (forall j, j < k -> fails_unclassified (a + j)) ->
  succeeds (a + k) ->
  (attempts n a out s).1 = Return (Some out)
  /\ exists t, trace (attempts n a out s).2 = trace s ++ t
               /\ rounds a (S k) t.
Proof.
  induction k as [ | k IH ]; intros n a s Hn Hk Hfail Hok.
  - destruct n as [ | n ]; [ lia | ].
    destruct (one_attempt_trace cfg world req a s) as (t1 & Ht1 & Hr1).
    pose proof (one_attempt_eq cfg world req a s) as Heq.
    rewrite Nat.add_0_r in Hok. rewrite (Hok s) in Heq.
    rewrite attempts_S, Heq. rewrite Heq in Ht1.
    split; [ easy | ]. exists t1. split; [ easy | now apply rounds_one ].
  - destruct n as [ | [ | n ] ]; [ lia | lia | ]. rewrite attempts_S.
    destruct (one_attempt_trace cfg world req a s) as (t1 & Ht1 & Hr1).
    pose proof (Hfail 0 ltac:(lia)) as Hfirst. rewrite Nat.add_0_r in Hfirst.
    pose proof (one_attempt_unclassified cfg world req a n s Hn Hfirst)
      as Hone.
    destruct (one_attempt a out s) as [r s1]. cbn [fst snd] in *. subst r.
    destruct (IH (S n) (S a) s1) as (Hres & t2 & Ht2 & Hr2); try lia.
    + intros j Hj. replace (S a + j) with (a + S j) by lia.
      apply Hfail. lia.
    + now replace (S a + k) with (a + S k) by lia.
    + split; [ easy | ]. exists (t1 ++ t2).
      split; [ now rewrite Ht2, Ht1, app_assoc | now apply rounds_cons ].
Qed.

(** When attempt [k] (counted from 0, within the configured number of
    attempts) succeeds after [k] attempts that failed with unclassified
    exceptions, the call returns the output path and has made [k + 1]
    attempts: none after the one that succeeded. *)
Theorem success_ends_retries k :
  reaches_loop ->
  k < Z.to_nat (max_retries cfg) ->
  (forall j, j < k -> fails_unclassified j) ->
  succeeds k ->
  let r := capture_screenshot cfg world req start in
  r.1 = Return (Some out)
  /\ attempts_made (trace r.2) = S k
  /\ closes_pages (trace r.2) = true.
Proof.
  intros Hloop Hk Hfail Hok r. subst r.
  rewrite (capture_screenshot_loop cfg world req Hloop).
  destruct (preamble_quiet cfg world req) as (Hpre1 & _ & Hpre3).
  destruct (attempts_succeed k (Z.to_nat (max_retries cfg)) 0
              (mkRun None preamble tt))
    as (Hres & t & Ht & Hrounds); auto.
  rewrite Hres, Ht. cbn [trace]. split_all; [ easy | | ].
  - rewrite attempts_made_app, Hpre1, (rounds_attempts_made _ _ _ Hrounds).
    reflexivity.
  - apply closes_pages_app; [ easy | ]. eapply rounds_close_pages; eauto.
Qed.

(** *** The calls of an attempt that gets to the screenshot *)

Ltac run_body :=
  repeat progress
    (unfold Capture.attempt_body, bind, call, ask, ret, new_page, navigate,
       wait_for_content, take_screenshot, try_except, raise, log;
     cbv beta match zeta; cbn [page trace local fst snd]).

(** The selectors the attempt waits for, in order. *)
Definition waits : list pystr :=
  match wait_for req with
  | NoWait => []
  | WaitOne [] => []
  | WaitOne sel => [sel]
  | WaitAll sels => sels
  end.

Definition wait_calls (p : nat) (sels : list pystr) : list event :=
  map (fun sel => WaitForSelector p sel (wait_timeout req)) sels.

(** The calls of attempt [j] up to the navigation. *)
Definition arrival (j : nat) : list event :=
  [GetContext; NewPage (emulation req) (Some j); Goto j (url req)].

(** The calls of attempt [j] before the screenshot is taken. *)
Definition approach (j : nat) : list event :=
  arrival j ++ wait_calls j waits
  ++ (if (0 <? extra_wait req)%Z then [WaitForTimeout j (extra_wait req)]
      else []).

(** In attempt [j] the context, the page and the navigation work. *)
Definition navigates (j : nat) : Prop :=
  on_get_context (renderer world j) = None
  /\ on_new_page (renderer world j) = None
  /\ on_goto (renderer world j) = None.

(** In attempt [j] everything before the screenshot works. *)
Definition arrives (j : nat) : Prop :=
  navigates j
  /\ (forall i sel, on_wait_for_selector (renderer world j) i sel = None)
  /\ on_wait_for_timeout (renderer world j) = None.

Lemma wait_each_ok r p sels : forall i (s : Run unit),
  (forall i sel, on_wait_for_selector r i sel = None) ->
  wait_each req r p i sels s
  = (Return tt, mkRun (page s) (trace s ++ wait_calls p sels) (local s)).
Proof.
  induction sels as [ | sel sels IH ]; intros i s Hok; cbn [wait_each].
  - unfold ret, wait_calls. cbn. rewrite app_nil_r. now destruct s.
  - run_body. rewrite Hok. rewrite IH by exact Hok.
    cbn [page trace local wait_calls map]. now rewrite <- app_assoc.
Qed.

(** The waits up to the first one that times out. *)
Lemma wait_each_timeout r p pre sel post err : forall i (s : Run unit),
  (forall j sel', pre !! j = Some sel' ->
                  on_wait_for_selector r (i + j) sel' = None) ->
  on_wait_for_selector r (i + length pre) sel = Some err ->
  is_PlaywrightError err = true ->
  wait_each req r p i (pre ++ sel :: post) s
  = (Raise (TimeoutError (py "Timeout waiting for selector: " ++ sel)),
     mkRun (page s) (trace s ++ wait_calls p (pre ++ [sel])) (local s)).
Proof.
  induction pre as [ | sel0 pre IH ]; intros i s Hpre Hsel Herr;
    cbn [app wait_each].
  - run_body. cbn [length] in Hsel. rewrite Nat.add_0_r in Hsel.
    rewrite Hsel. run_body. now rewrite Herr.
  - run_body. pose proof (Hpre 0 sel0 eq_refl) as H0.
    rewrite Nat.add_0_r in H0. rewrite H0.
    rewrite (IH (S i)).
    + cbn [page trace local wait_calls map app]. now rewrite <- app_assoc.
    + intros j sel' Hj. replace (S i + j) with (i + S j) by lia.
      now apply Hpre.
    + now replace (S i + length pre) with (i + length (sel0 :: pre))
        by (cbn [length]; lia).
    + exact Herr.
Qed.

Lemma wait_for_content_eq r p :
  wait_for_content req r p = wait_each req r p 0 waits.
Proof.
  unfold wait_for_content, waits.
  now destruct (wait_for req) as [ | [ | c sel ] | sels ].
Qed.

(** What is left of the try block once the navigation has worked. *)
Definition after_navigation (j : nat) : M unit string :=
  _ <- wait_for_content req (renderer world j) j ;;
  _ <- (if (0 <? extra_wait req)%Z
        then call (WaitForTimeout j (extra_wait req))
                  (on_wait_for_timeout (renderer world j))
        else ret tt) ;;
  _ <- take_screenshot req (renderer world j) j out ;;
  _ <- (if use_cache req
        then call (SaveToCache (url req) out)
                  (on_save_to_cache (renderer world j))
        else ret tt) ;;
  ret out.

Lemma attempt_body_navigates j s :
  navigates j ->
  attempt_body j out s
  = after_navigation j (mkRun (Some j) (trace s ++ arrival j) (local s)).
Proof.
  intros (Hc & Hp & Hg). unfold Capture.attempt_body, after_navigation.
  unfold bind at 1, call at 1. rewrite Hc.
  unfold bind at 1, new_page. rewrite Hp.
  unfold bind at 1, navigate, try_except, call at 1. rewrite Hg.
  unfold log, arrival. cbn [page trace local].
  now rewrite <- !app_assoc.
Qed.

(** What is left of the try block once the waits are over. *)
Definition shot_and_save (j : nat) : M unit string :=
  _ <- take_screenshot req (renderer world j) j out ;;
  _ <- (if use_cache req
        then call (SaveToCache (url req) out)
                  (on_save_to_cache (renderer world j))
        else ret tt) ;;
  ret out.

Lemma attempt_body_arrives j s :
  arrives j ->
  attempt_body j out s
  = shot_and_save j (mkRun (Some j) (trace s ++ approach j) (local s)).
Proof.
  intros (Hnav & Hw & Hx). rewrite (attempt_body_navigates j s Hnav).
  unfold after_navigation, shot_and_save.
  unfold bind at 1. rewrite wait_for_content_eq, wait_each_ok by exact Hw.
  cbn [page trace local]. unfold bind at 1, approach.
  destruct (0 <? extra_wait req)%Z.
  - unfold call at 1, log. rewrite Hx. cbn [page trace local].
    now rewrite <- !app_assoc.
  - unfold ret at 1. now rewrite app_nil_r, <- !app_assoc.
Qed.

(** The whole call, when the first attempt raises a BrowserError: the
    error comes out, and the trace is that of the attempt followed by the
    closing of its page. *)
Lemma first_attempt_raises e s1 :
  reaches_loop ->
  0 < Z.to_nat (max_retries cfg) ->
  attempt_body 0 out (mkRun None preamble tt) = (Raise e, s1) ->
  is_BrowserError e = true ->
  capture_screenshot cfg world req start = (Raise e, close_page s1).
Proof.
  intros Hloop Hn Hbody Hclass.
  rewrite (capture_screenshot_loop cfg world req Hloop).
  destruct (Z.to_nat (max_retries cfg)) as [ | n ]; [ lia | ].
  rewrite attempts_S, one_attempt_eq, Hbody. cbn [fst snd].
  now rewrite Hclass.
Qed.

(** A wait that times out.  When in the first attempt the navigation works
    and, of the selectors to wait for, those of [pre] appear and the next
    one, [sel], does not (the wait raises a Playwright error), the call
    raises TimeoutError naming [sel].  The calls made are those up to the
    wait for [sel], then the closing of the page: the selectors after [sel]
    are not waited for, no screenshot is taken, and there is no second
    attempt. *)
Theorem wait_timeout_stops pre sel post err :
  reaches_loop ->
  0 < Z.to_nat (max_retries cfg) ->
  navigates 0 ->
  waits = pre ++ sel :: post ->
  (forall j sel', pre !! j = Some sel' ->
                  on_wait_for_selector (renderer world 0) j sel' = None) ->
  on_wait_for_selector (renderer world 0) (length pre) sel = Some err ->
  is_PlaywrightError err = true ->
  capture_screenshot cfg world req start
  = (Raise (TimeoutError (py "Timeout waiting for selector: " ++ sel)),
     mkRun (Some 0)
           (preamble ++ arrival 0 ++ wait_calls 0 (pre ++ [sel])
            ++ [ClosePage 0])
           tt).
Proof.
  intros Hloop Hn Hnav Hwaits Hpre Hsel Herr.
  pose proof (attempt_body_navigates 0 (mkRun None preamble tt) Hnav)
    as Hbody.
  unfold after_navigation in Hbody. unfold bind at 1 in Hbody.
  rewrite wait_for_content_eq, Hwaits in Hbody.
  rewrite (wait_each_timeout _ _ pre sel post err 0) in Hbody by auto.
  rewrite (first_attempt_raises _ _ Hloop Hn Hbody eq_refl).
  unfold close_page, log; cbn [page trace local].
  now rewrite <- !app_assoc.
Qed.

(** *** The screenshot step *)

(** The selector as the code uses it: None and the empty string both mean
    the whole page. *)
Definition element_selector : option pystr :=
  if str_truthy (selector req) then selector req else None.

Lemma take_screenshot_page (s : Run unit) j :
  element_selector = None ->
  take_screenshot req (renderer world j) j out s
  = (match on_page_screenshot (renderer world j) with
     | None => Return tt
     | Some e =>
         Raise (if is_PlaywrightError e
                then ScreenshotError
                       (py "Failed to capture screenshot: " ++ str e)
                else e)
     end,
     mkRun (page s) (trace s ++ [PageScreenshot j out (full_page req)])
           (local s)).
Proof.
  unfold element_selector. intros Hsel. run_body.
  destruct (str_truthy (selector req)) eqn:Ht.
  - destruct (selector req) as [[ | c sel ] | ]; discriminate.
  - run_body. destruct (on_page_screenshot (renderer world j)) as [e | ];
      [ | reflexivity ].
    now destruct (is_PlaywrightError e).
Qed.

Lemma take_screenshot_element (s : Run unit) j sel :
  element_selector = Some sel ->
  take_screenshot req (renderer world j) j out s
  = match on_query_selector (renderer world j) with
    | Raise e =>
        (Raise (if is_PlaywrightError e
                then ScreenshotError
                       (py "Failed to capture screenshot: " ++ str e)
                else e),
         mkRun (page s) (trace s ++ [QuerySelector j sel]) (local s))
    | Return false =>
        (Raise (ElementNotFoundError
                  (py "Selector '" ++ sel ++ py "' not found")),
         mkRun (page s) (trace s ++ [QuerySelector j sel]) (local s))
    | Return true =>
        (match on_element_screenshot (renderer world j) with
         | None => Return tt
         | Some e =>
             Raise (if is_PlaywrightError e
                    then ScreenshotError
                           (py "Failed to capture screenshot: " ++ str e)
                    else e)
         end,
         mkRun (page s)
               (trace s ++ [QuerySelector j sel; ElementScreenshot j out])
               (local s))
    end.
Proof.
  unfold element_selector. intros Hsel. run_body.
  destruct (str_truthy (selector req)) eqn:Ht; [ | discriminate ].
  rewrite Hsel. cbn [default]. run_body.
  destruct (on_query_selector (renderer world j)) as [[ | ] | e].
  - run_body.
    destruct (on_element_screenshot (renderer world j)) as [e | ];
      run_body; rewrite <- ?app_assoc; [ | reflexivity ].
    now destruct (is_PlaywrightError e).
  - reflexivity.
  - now destruct (is_PlaywrightError e).
Qed.

(** What goes wrong at the screenshot.  The first attempt gets to the
    screenshot step.  (1) With a selector that matches nothing the call
    raises ElementNotFoundError naming the selector, and no screenshot is
    asked for.  (2) With a selector whose query raises a Playwright error
    (a selector that cannot be parsed, for one) the call raises
    ScreenshotError.  (3), (4) A Playwright error raised by the screenshot
    of the element or of the page becomes a ScreenshotError with the
    message of the error.  In each case the page is closed, nothing is
    stored in the cache and there is no second attempt. *)
Theorem screenshot_step_errors :
  reaches_loop ->
  0 < Z.to_nat (max_retries cfg) ->
  arrives 0 ->
  let r := capture_screenshot cfg world req start in
  let wrapped err :=
    ScreenshotError (py "Failed to capture screenshot: " ++ str err) in
  (forall sel,
      element_selector = Some sel ->
      on_query_selector (renderer world 0) = Return false ->
      r = (Raise (ElementNotFoundError
                    (py "Selector '" ++ sel ++ py "' not found")),
           mkRun (Some 0)
                 (preamble ++ approach 0
                  ++ [QuerySelector 0 sel; ClosePage 0]) tt))
  /\ (forall sel err,
        element_selector = Some sel ->
        on_query_selector (renderer world 0) = Raise err ->
        is_PlaywrightError err = true ->
        r = (Raise (wrapped err),
             mkRun (Some 0)
                   (preamble ++ approach 0
                    ++ [QuerySelector 0 sel; ClosePage 0]) tt))
  /\ (forall sel err,
        element_selector = Some sel ->
        on_query_selector (renderer world 0) = Return true ->
        on_element_screenshot (renderer world 0) = Some err ->
        is_PlaywrightError err = true ->
        r = (Raise (wrapped err),
             mkRun (Some 0)
                   (preamble ++ approach 0
                    ++ [QuerySelector 0 sel; ElementScreenshot 0 out;
                        ClosePage 0]) tt))
  /\ (forall err,
        element_selector = None ->
        on_page_screenshot (renderer world 0) = Some err ->
        is_PlaywrightError err = true ->
        r = (Raise (wrapped err),
             mkRun (Some 0)
                   (preamble ++ approach 0
                    ++ [PageScreenshot 0 out (full_page req); ClosePage 0])
                   tt)).
Proof.
  intros Hloop Hn Harr. cbv zeta.
  pose proof (attempt_body_arrives 0 (mkRun None preamble tt) Harr) as Hbody.
  unfold shot_and_save in Hbody. unfold bind at 1 in Hbody.
  cbn [trace local] in Hbody.
  split_all.
  - intros sel Hsel Hq.
    rewrite (take_screenshot_element _ 0 sel Hsel), Hq in Hbody.
    rewrite (first_attempt_raises _ _ Hloop Hn Hbody eq_refl).
    unfold close_page, log; cbn [page trace local].
    now rewrite <- !app_assoc.
  - intros sel err Hsel Hq Herr.
    rewrite (take_screenshot_element _ 0 sel Hsel), Hq, Herr in Hbody.
    rewrite (first_attempt_raises _ _ Hloop Hn Hbody eq_refl).
    unfold close_page, log; cbn [page trace local].
    now rewrite <- !app_assoc.
  - intros sel err Hsel Hq Hshot Herr.
    rewrite (take_screenshot_element _ 0 sel Hsel), Hq, Hshot, Herr in Hbody.
    rewrite (first_attempt_raises _ _ Hloop Hn Hbody eq_refl).
    unfold close_page, log; cbn [page trace local].
    now rewrite <- !app_assoc.
  - intros err Hsel Hshot Herr.
    rewrite (take_screenshot_page _ 0 Hsel), Hshot, Herr in Hbody.
    rewrite (first_attempt_raises _ _ Hloop Hn Hbody eq_refl).
    unfold close_page, log; cbn [page trace local].
    now rewrite <- !app_assoc.
Qed.

(** The calls of a capture that works at once, in order: the cache lookup
    when the cache is used, the making of the directory, then one attempt:
    context, page, navigation, the waits, the screenshot of the element or
    of the page, the store into the cache when the cache is used, and the
    closing of the page.  The call returns the output path. *)
Theorem capture_first_attempt_succeeds :
  reaches_loop ->
  0 < Z.to_nat (max_retries cfg) ->
  arrives 0 ->
  match element_selector with
  | Some _ =>
      on_query_selector (renderer world 0) = Return true
      /\ on_element_screenshot (renderer world 0) = None
  | None => on_page_screenshot (renderer world 0) = None
  end ->
  (use_cache req = true -> on_save_to_cache (renderer world 0) = None) ->
  capture_screenshot cfg world req start
  = (Return (Some out),
     mkRun (Some 0)
           (preamble ++ approach 0
            ++ match element_selector with
               | Some sel => [QuerySelector 0 sel; ElementScreenshot 0 out]
               | None => [PageScreenshot 0 out (full_page req)]
               end
            ++ (if use_cache req then [SaveToCache (url req) out] else [])
            ++ [ClosePage 0])
           tt).
Proof.
  intros Hloop Hn Harr Hshot Hsave.
  pose proof (attempt_body_arrives 0 (mkRun None preamble tt) Harr) as Hbody.
  unfold shot_and_save in Hbody. unfold bind at 1 in Hbody.
  cbn [trace local] in Hbody.
  assert (forall s : Run unit,
    (_ <- (if use_cache req
           then call (SaveToCache (url req) out)
                     (on_save_to_cache (renderer world 0))
           else ret tt) ;;
     ret out) s
    = (Return out,
       mkRun (page s)
             (trace s
              ++ (if use_cache req then [SaveToCache (url req) out] else []))
             (local s))) as Hrest.
  { intros s. unfold bind, call, ret, log. destruct (use_cache req).
    - now rewrite Hsave.
    - rewrite app_nil_r. now destruct s. }
  rewrite (capture_screenshot_loop cfg world req Hloop).
  destruct (Z.to_nat (max_retries cfg)) as [ | n ]; [ lia | ].
  rewrite attempts_S, one_attempt_eq.
  destruct element_selector as [sel | ] eqn:Hsel.
  - destruct Hshot as [Hq Hs].
    rewrite (take_screenshot_element _ 0 sel Hsel), Hq, Hs, Hrest in Hbody.
    rewrite Hbody. cbn [fst snd]. unfold close_page, log.
    cbn [page trace local]. now rewrite <- !app_assoc.
  - rewrite (take_screenshot_page _ 0 Hsel), Hshot, Hrest in Hbody.
    rewrite Hbody. cbn [fst snd]. unfold close_page, log.
    cbn [page trace local]. now rewrite <- !app_assoc.
Qed.

End capture_more_facts.

(** *** The cache, from where capture_screenshot stands *)

Section capture_cache_facts.

Import Core Capture.

Variable cfg : Settings.
Variable world : World.
Variable req : Request.

Local Abbreviation out := (resolve_output_path cfg world req).

(** The calls that concern the cache. *)
Definition cache_call (ev : event) : bool :=
  match ev with
  | CacheLookup _ | CopyFile _ _ | SaveToCache _ _ => true
  | _ => false
  end.

(** The calls that go to the pool of contexts or to a page. *)
Definition browser_call (ev : event) : bool :=
  match ev with
  | CacheLookup _ | CopyFile _ _ | SaveToCache _ _ | MakeParentDirs _ => false
  | _ => true
  end.

(** A piece of code adds calls to the trace, all of them in [P]. *)
Definition emits {A} (P : event -> Prop) (m : M unit A) : Prop :=
  forall s, exists t, trace (m s).2 = trace s ++ t /\ Forall P t.

Lemma emits_ret {A} P (a : A) : emits P (ret a).
Proof. intros s. exists []. cbn. now rewrite app_nil_r. Qed.

Lemma emits_raise {A} P e : emits P (@raise unit A e).
Proof. intros s. exists []. cbn. now rewrite app_nil_r. Qed.

Lemma emits_call (P : event -> Prop) ev response :
  P ev -> emits P (call ev response).
Proof. intros H s. exists [ev]. cbn. auto. Qed.

Lemma emits_ask {A} (P : event -> Prop) ev (response : outcome A) :
  P ev -> emits P (ask ev response).
Proof. intros H s. exists [ev]. cbn. auto. Qed.

Lemma emits_bind {A B} P (m : M unit A) (f : A -> M unit B) :
  emits P m -> (forall a, emits P (f a)) -> emits P (bind m f).
Proof.
  intros Hm Hf s. unfold bind. destruct (Hm s) as (t1 & Ht1 & Hp1).
  destruct (m s) as [[a | e] s1]; cbn [snd] in *.
  - destruct (Hf a s1) as (t2 & Ht2 & Hp2). exists (t1 ++ t2).
    rewrite Ht2, Ht1, app_assoc. split; [ easy | ]. apply Forall_app. auto.
  - exists t1. auto.
Qed.

Lemma emits_try_except {A} P (m : M unit A) (h : exn -> M unit A) :
  emits P m -> (forall e, emits P (h e)) -> emits P (try_except m h).
Proof.
  intros Hm Hh s. unfold try_except. destruct (Hm s) as (t1 & Ht1 & Hp1).
  destruct (m s) as [[a | e] s1]; cbn [snd] in *.
  - exists t1. auto.
  - destruct (Hh e s1) as (t2 & Ht2 & Hp2). exists (t1 ++ t2).
    rewrite Ht2, Ht1, app_assoc. split; [ easy | ]. apply Forall_app. auto.
Qed.

Lemma emits_wait_each (P : event -> Prop) r p sels :
  (forall sel, P (WaitForSelector p sel (wait_timeout req))) ->
  forall i, emits P (wait_each req r p i sels).
Proof.
  intros HP. induction sels as [ | sel sels IH ]; intros i; cbn [wait_each].
  - apply emits_ret.
  - apply emits_bind; [ | intros _; apply IH ].
    apply emits_try_except; [ now apply emits_call | ].
    intros e. destruct (is_PlaywrightError e); apply emits_raise.
Qed.

(** An attempt of a call that does not use the cache makes no call that
    concerns the cache. *)
Lemma attempt_body_no_cache k :
  use_cache req = false ->
  emits (fun ev => cache_call ev = false) (attempt_body world req k out).
Proof.
  intros Hoff. unfold attempt_body.
  apply emits_bind; [ now apply emits_call | intros _ ].
  apply emits_bind; [ | intros p ].
  { intros s. unfold new_page. destruct (on_new_page _).
    - exists [NewPage (emulation req) None]. cbn. auto.
    - exists [NewPage (emulation req) (Some k)]. cbn. auto. }
  apply emits_bind; [ | intros _ ].
  { apply emits_try_except; [ now apply emits_call | ].
    intros e. destruct (is_PlaywrightError e); apply emits_raise. }
  apply emits_bind; [ | intros _ ].
  { unfold wait_for_content.
    destruct (wait_for req) as [ | [ | c sel ] | sels ];
      try apply emits_ret; now apply emits_wait_each. }
  apply emits_bind; [ | intros _ ].
  { destruct (0 <? extra_wait req)%Z;
      [ now apply emits_call | apply emits_ret ]. }
  apply emits_bind; [ | intros _ ].
  { apply emits_try_except.
    - destruct (str_truthy (selector req)); [ | now apply emits_call ].
      apply emits_bind; [ now apply emits_ask | intros [ | ] ];
        [ now apply emits_call | apply emits_raise ].
    - intros e. destruct (is_PlaywrightError e); apply emits_raise. }
  rewrite Hoff. apply emits_bind; [ | intros _ ]; apply emits_ret.
Qed.

Lemma attempts_no_cache n :
  use_cache req = false ->
  forall a, emits (fun ev => cache_call ev = false)
                  (attempts cfg world req n a out).
Proof.
  intros Hoff. induction n as [ | n IH ]; intros a s.
  - exists []. cbn. now rewrite app_nil_r.
  - rewrite attempts_S, one_attempt_eq.
    destruct (attempt_body_no_cache a Hoff s) as (t1 & Ht1 & Hp1).
    set (b := attempt_body world req a out s) in *.
    assert (exists t, trace (close_page b.2) = trace s ++ t
                      /\ Forall (fun ev => cache_call ev = false) t)
      as (t & Ht & Hp).
    { unfold close_page. destruct (page b.2) as [p | ].
      - exists (t1 ++ [ClosePage p]). cbn [log trace].
        rewrite Ht1, <- app_assoc. split; [ easy | ].
        apply Forall_app. split; [ easy | repeat constructor ].
      - exists t1. auto. }
    destruct b.1 as [path | e]; [ eauto | ].
    destruct (is_BrowserError e); [ eauto | ].
    destruct (_ =? _)%Z; [ eauto | ].
    destruct (IH (S a) (close_page b.2)) as (t2 & Ht2 & Hp2).
    exists (t ++ t2). rewrite Ht2, Ht, app_assoc. split; [ easy | ].
    apply Forall_app. auto.
Qed.

(** How the call uses the cache.  (1) Asked not to use it, it makes no
    call that concerns it: no lookup, no copy, no store, whatever the
    attempts do.  (2) When the lookup finds a file the call goes nowhere
    near the browser and makes no directory: it returns the cached path,
    or, given another output path, copies the file there and returns that
    path; an exception of the copy comes out as it is.  (3) An exception of
    the lookup comes out as it is, before anything else is done. *)
Theorem capture_cache_use :
  let r := capture_screenshot cfg world req start in
  (use_cache req = false ->
   Forall (fun ev => cache_call ev = false) (trace r.2))
  /\ (forall cached,
        use_cache req = true ->
        on_cache_lookup world = Return (Some cached) ->
        Forall (fun ev => browser_call ev = false) (trace r.2)
        /\ ~ In (MakeParentDirs out) (trace r.2)
        /\ match output_path req with
           | Some dst =>
               if negb (String.eqb dst "") && negb (String.eqb cached dst)
               then trace r.2 = [CacheLookup (url req); CopyFile cached dst]
                    /\ r.1 = match on_copy world with
                             | None => Return (Some dst)
                             | Some e => Raise e
                             end
               else trace r.2 = [CacheLookup (url req)]
                    /\ r.1 = Return (Some cached)
           | None => trace r.2 = [CacheLookup (url req)]
                     /\ r.1 = Return (Some cached)
           end)
  /\ (forall e,
        use_cache req = true ->
        on_cache_lookup world = Raise e ->
        r = (Raise e, mkRun None [CacheLookup (url req)] tt)).
Proof.
  cbv zeta. unfold Capture.capture_screenshot, start. split_all.
  - intros Hoff. rewrite Hoff. unfold bind at 1, ret at 1.
    unfold bind, call, retry_loop. cbn [log page trace local].
    destruct (on_mkdir world); cbn [snd trace];
      [ repeat constructor | ].
    destruct (attempts_no_cache (Z.to_nat (max_retries cfg)) Hoff 0
                (mkRun None ([] ++ [MakeParentDirs out]) tt))
      as (t & Ht & Hp).
    rewrite Ht. cbn [trace app]. constructor; [ reflexivity | exact Hp ].
  - intros cached Hon Hhit. rewrite Hon, Hhit.
    unfold bind, ask, call, ret, log. cbn [page trace local app].
    destruct (output_path req) as [dst | ].
    + destruct (negb (String.eqb dst "") && negb (String.eqb cached dst)).
      * destruct (on_copy world); cbn [fst snd trace];
          (split_all; [ repeat constructor | | reflexivity | reflexivity ]);
          cbn; intuition discriminate.
      * cbn [fst snd trace].
        split_all; [ repeat constructor | | reflexivity | reflexivity ].
        cbn; intuition discriminate.
    + cbn [fst snd trace].
      split_all; [ repeat constructor | | reflexivity | reflexivity ].
      cbn; intuition discriminate.
  - intros e Hon Herr. now rewrite Hon, Herr.
Qed.

End capture_cache_facts.

(** ** core.py: what browse_and_extract reports *)

Section extract_more_facts.

Import Core Extract.

Variable cfg : Settings.
Variable world : World.
Variable req : Request.

Local Abbreviation r := (renderer world 0).

(** The selector waited for, if any: None and the empty string ask for no
    wait. *)
Definition awaited : option pystr :=
  match wait_for req with
  | Some (c :: sel) => Some (c :: sel)
  | _ => None
  end.

(** Where the screenshot goes, when one is asked for. *)
Definition shot_path : string :=
  match screenshot_path req with
  | Some (String a path) => String a path
  | _ =>
      Cache.joinpath (default_output_dir cfg)
        ("browse_" ++ Json.str_int (clock world) ++ ".png")
  end.

(** The first call, outside the extraction of the fields, that raises. *)
Definition first_failure : option exn :=
  match on_get_context r with
  | Some e => Some e
  | None =>
      match on_new_page r with
      | Some e => Some e
      | None =>
          match on_goto r with
          | Some e => Some e
          | None =>
              match
                match awaited with
                | Some sel => on_wait_for_selector r 0 sel
                | None => None
                end
              with
              | Some e => Some e
              | None =>
                  if want_screenshot req then on_page_screenshot r else None
              end
          end
      end
  end.

Definition is_close (ev : event) : bool :=
  match ev with
  | ClosePage _ => true
  | _ => false
  end.

Definition fresh_result : Result :=
  mkResult (url req) (clock world) [] None None.

(** The try block, from a fresh result. *)
Lemma body_report :
  exists s',
    body cfg world req (mkRun None [] fresh_result)
    = (match first_failure with
       | Some e => Raise e
       | None => Return tt
       end, s')
    /\ r_url (local s') = url req
    /\ r_timestamp (local s') = clock world
    /\ error (local s') = None
    /\ screenshot (local s')
       = (if want_screenshot req
          then match first_failure with
               | None => Some shot_path
               | Some _ => None
               end
          else None)
    /\ match on_get_context r, on_new_page r with
       | None, None =>
           page s' = Some 0
           /\ exists calls,
                trace s' = [GetContext; NewPage None (Some 0)] ++ calls
                /\ Forall (fun ev => is_close ev = false) calls
       | _, _ =>
           page s' = None /\ Forall (fun ev => is_close ev = false) (trace s')
       end.
Proof.
  unfold body, first_failure.
  unfold bind at 1, call at 1.
  destruct (on_get_context r) as [e | ].
  { cbn. eexists. split_all; try reflexivity.
    - now destruct (want_screenshot req).
    - repeat constructor. }
  unfold bind at 1, new_page.
  destruct (on_new_page r) as [e | ].
  { cbn. eexists. split_all; try reflexivity.
    - now destruct (want_screenshot req).
    - repeat constructor. }
  unfold bind at 1, call at 1.
  destruct (on_goto r) as [e | ].
  { cbn. eexists. split_all; try reflexivity.
    - now destruct (want_screenshot req).
    - exists [Goto 0 (url req)]. split; [ reflexivity | repeat constructor ]. }
  unfold bind at 1.
  set (s0 := log (Goto 0 (url req)) _).
  assert (exists t0,
    trace s0 = [GetContext; NewPage None (Some 0)] ++ t0
    /\ Forall (fun ev => is_close ev = false) t0
    /\ page s0 = Some 0
    /\ local s0 = fresh_result)
    as (t0 & Ht0 & Hc0 & Hp0 & Hl0).
  { exists [Goto 0 (url req)]. subst s0. cbn. split_all; auto. }
  clearbody s0.
  assert (exists s1 t1,
    (match wait_for req with
     | Some (c :: sel) =>
         call (WaitForSelector 0 (c :: sel) (wait_timeout req))
              (on_wait_for_selector r 0 (c :: sel))
     | _ => ret tt
     end) s0
    = (match match awaited with
             | Some sel => on_wait_for_selector r 0 sel
             | None => None
             end with
       | Some e => Raise e
       | None => Return tt
       end, s1)
    /\ trace s1 = [GetContext; NewPage None (Some 0)] ++ t1
    /\ Forall (fun ev => is_close ev = false) t1
    /\ page s1 = Some 0
    /\ local s1 = fresh_result)
    as (s1 & t1 & Hwait & Ht1 & Hc1 & Hp1 & Hl1).
  { unfold awaited.
    destruct (wait_for req) as [[ | c sel ] | ];
      try (exists s0, t0; unfold ret; split_all; auto; fail).
    unfold call. eexists _, (t0 ++ [_]). split_all.
    - now destruct (on_wait_for_selector r 0 (c :: sel)).
    - cbn [log trace]. now rewrite Ht0, <- app_assoc.
    - apply Forall_app. split; [ easy | repeat constructor ].
    - easy.
    - easy. }
  rewrite Hwait. clear Hwait.
  destruct (match awaited with
            | Some sel => on_wait_for_selector r 0 sel
            | None => None
            end) as [e | ].
  { exists s1. rewrite Hl1. cbn. split_all; try reflexivity; try easy.
    - now destruct (want_screenshot req).
    - exists t1. auto. }
  unfold bind at 1. rewrite extract_fields_run.
  unfold optional_screenshot, shot_path.
  set (path := match match screenshot_path req with
                     | Some path => if String.eqb path "" then None else Some path
                     | None => None
                     end with
               | Some path => path
               | None => _
               end).
  assert (path = match screenshot_path req with
                 | Some (String a p) => String a p
                 | _ => Cache.joinpath (default_output_dir cfg)
                          ("browse_" ++ Json.str_int (clock world) ++ ".png")
                 end) as Hpath.
  { subst path. now destruct (screenshot_path req) as [[ | a p ] | ]. }
  rewrite <- Hpath. clearbody path.
  set (t2 := map _ (extract_selectors req)).
  assert (Forall (fun ev => is_close ev = false) t2) as Hc2.
  { subst t2. apply List.Forall_forall. intros ev Hin.
    apply in_map_iff in Hin as (ns & <- & _). reflexivity. }
  clearbody t2.
  destruct (want_screenshot req).
  - unfold bind, call, update_result, with_extracted, log.
    destruct (on_page_screenshot r) as [e | ];
      cbn [fst snd page trace local]; rewrite Hl1;
      (eexists; split_all; try reflexivity; try easy);
      exists (t1 ++ t2 ++ [PageScreenshot 0 path true]);
      (split; [ rewrite Ht1, <- !app_assoc; reflexivity | ]);
      repeat (apply Forall_app; split); auto; repeat constructor.
  - unfold ret, with_extracted. rewrite Hl1.
    eexists. split_all; try reflexivity; try easy.
    exists (t1 ++ t2). cbn [trace].
    split; [ rewrite Ht1, <- !app_assoc; reflexivity | ].
    apply Forall_app. auto.
Qed.

(** What the result says besides the fields.  The call returns a result
    with the url and the time of the call.  Its error is the message of
    the first call that raises, apart from the calls made for a single
    field, and None when there is no such call.  Its screenshot is the
    path of the screenshot when one was asked for and everything worked,
    None otherwise.  When a page was opened it is closed exactly once, and
    that is the last call made; when none was opened nothing is closed. *)
Theorem browse_and_extract_report :
  let run := browse_and_extract cfg world req in
  exists res,
    run.1 = Return res
    /\ r_url res = url req
    /\ r_timestamp res = clock world
    /\ error res = option_map str first_failure
    /\ screenshot res
       = (if want_screenshot req
          then match first_failure with
               | None => Some shot_path
               | Some _ => None
               end
          else None)
    /\ match on_get_context r, on_new_page r with
       | None, None =>
           exists calls,
             run.2 = [GetContext; NewPage None (Some 0)] ++ calls
                     ++ [ClosePage 0]
             /\ Forall (fun ev => is_close ev = false) calls
       | _, _ => Forall (fun ev => is_close ev = false) run.2
       end.
Proof.
  cbv zeta. destruct body_report as (s' & Hbody & Hu & Ht & He & Hs & Hcalls).
  unfold browse_and_extract, finally, try_except. fold fresh_result.
  rewrite Hbody. unfold update_result, close_page.
  destruct first_failure as [e | ]; cbn [fst snd page trace local option_map].
  - destruct (on_get_context r), (on_new_page r);
      try (destruct Hcalls as [-> Hcalls];
           cbn [fst snd local r_url r_timestamp error screenshot trace];
           eexists; split_all; eauto; fail).
    destruct Hcalls as [-> (calls & Htr & Hc)].
    cbn [fst snd local log r_url r_timestamp error screenshot trace].
    eexists. split_all; eauto.
    exists calls. rewrite Htr, <- app_assoc. auto.
  - destruct (on_get_context r), (on_new_page r);
      try (destruct Hcalls as [-> Hcalls];
           cbn [fst snd local r_url r_timestamp error screenshot trace];
           eexists; split_all; eauto; fail).
    destruct Hcalls as [-> (calls & Htr & Hc)].
    cbn [fst snd local log r_url r_timestamp error screenshot trace].
    eexists. split_all; eauto.
    exists calls. rewrite Htr, <- app_assoc. auto.
Qed.

End extract_more_facts.

(** ** core.py: the path that comes back *)

Section returned_path_facts.

Import Core Capture.

Variable cfg : Settings.
Variable world : World.

(** A piece of code returns nothing but [v]. *)
Definition returns_only {A} (v : A) (m : M unit A) : Prop :=
  forall s x, (m s).1 = Return x -> x = v.

Lemma returns_only_then {A B} (v : B) (m : M unit A) (k : A -> M unit B) :
  (forall a, returns_only v (k a)) -> returns_only v (bind m k).
Proof.
  intros Hk s x. unfold bind. destruct (m s) as [[a | e] s1];
    [ apply Hk | discriminate ].
Qed.

Lemma attempt_body_returns req k out :
  returns_only out (attempt_body world req k out).
Proof.
  unfold attempt_body.
  repeat (apply returns_only_then; intros ?).
  intros s x [= <-]. reflexivity.
Qed.

Lemma attempts_return req n out : forall a s p,
  (attempts cfg world req n a out s).1 = Return (Some p) -> p = out.
Proof.
  induction n as [ | n IH ]; intros a s p; cbn [attempts]; [ discriminate | ].
  unfold bind. destruct (one_attempt cfg world req a out s) as [r s1] eqn:Hone.
  assert ((one_attempt cfg world req a out s).1 = r) as Hr by now rewrite Hone.
  unfold one_attempt, finally, try_except in Hr.
  destruct (bind (attempt_body world req a out) _ s) as [r0 s0] eqn:Hbody.
  unfold bind in Hbody.
  pose proof (attempt_body_returns req a out s) as Hout.
  destruct (attempt_body world req a out s) as [[path | e] s2].
  - specialize (Hout path eq_refl). subst path.
    injection Hbody as <- <-. cbn in Hr. subst r. cbn. now intros [= <-].
  - injection Hbody as <- <-. cbn [fst snd] in Hr.
    destruct (is_BrowserError e); cbn in Hr; [ subst r; discriminate | ].
    destruct (_ =? _)%Z; cbn in Hr; subst r; cbn; [ discriminate | ].
    apply IH.
Qed.

(** With an output path given, the only path [capture_screenshot] ever
    returns is that path, whether the screenshot was taken or came from the
    cache. *)
Lemma capture_returns_output_path req dst q :
  output_path req = Some dst -> dst <> "" ->
  (capture_screenshot cfg world req start).1 = Return (Some q) ->
  q = dst.
Proof.
  intros Hout Hdst. unfold capture_screenshot, bind at 1.
  destruct (if use_cache req then _ else _) as [[[cached | ] | e] s1];
    [ | | discriminate ].
  - rewrite Hout.
    destruct (String.eqb_spec dst ""); [ contradiction | ].
    cbn [negb andb]. destruct (String.eqb_spec cached dst) as [-> | _];
      cbn [negb].
    + unfold ret. cbn. now intros [= <-].
    + unfold bind, call, ret. destruct (on_copy world); cbn;
        [ discriminate | now intros [= <-] ].
  - unfold bind, call. destruct (on_mkdir world); [ discriminate | ].
    unfold retry_loop. intros H. apply attempts_return in H.
    subst q. unfold resolve_output_path. now rewrite Hout.
Qed.

(** *** Paths as pathlib writes them *)

Lemma concat_app (l1 l2 : list string) :
  l1 <> [] -> l2 <> [] ->
  String.concat "/" (l1 ++ l2)
  = (String.concat "/" l1 ++ "/" ++ String.concat "/" l2)%string.
Proof.
  intros H1 H2. induction l1 as [ | x [ | y l1 ] IH ]; [ easy | | ].
  - destruct l2; [ easy | reflexivity ].
  - change (String.concat "/" ((x :: y :: l1) ++ l2))
      with (x ++ "/" ++ String.concat "/" ((y :: l1) ++ l2))%string.
    rewrite IH by easy.
    change (String.concat "/" (x :: y :: l1))
      with (x ++ "/" ++ String.concat "/" (y :: l1))%string.
    now rewrite <- !string_app_assoc.
Qed.

Lemma format_parts root ps :
  ps <> [] -> Pathlib.format root ps = (root ++ String.concat "/" ps)%string.
Proof. destruct ps; [ easy | ]. now destruct root. Qed.

Lemma relative_root s : Pathlib.is_absolute s = false -> Pathlib.root s = "".
Proof.
  destruct s as [ | a [ | b [ | c s ] ] ]; cbn; try reflexivity;
    now intros ->.
Qed.

Lemma absolute_root s : Pathlib.is_absolute s = true -> Pathlib.root s <> "".
Proof.
  destruct s as [ | a [ | b [ | c s ] ] ]; cbn; try discriminate; intros ->;
    try discriminate.
  - now destruct (Pathlib.is_sep b).
  - destruct (Pathlib.is_sep b); [ | discriminate ].
    now destruct (Pathlib.is_sep c).
Qed.

Lemma parts_count s x : In x (Pathlib.parts s) -> x <> "".
Proof.
  unfold Pathlib.parts. intros H. apply filter_In in H as [_ H].
  unfold Pathlib.counts in H. apply andb_true_iff in H as [H _].
  intros ->. discriminate.
Qed.

(** The string of a path is never empty. *)
Lemma format_nonempty root s ps :
  (forall x, In x ps -> x <> "") ->
  (root = "" \/ root = Pathlib.root s /\ Pathlib.root s <> "") ->
  Pathlib.format root ps <> "".
Proof.
  intros Hps Hroot. destruct ps as [ | x ps ].
  - destruct Hroot as [-> | [-> Hr]]; [ discriminate | ].
    unfold Pathlib.format. destruct (Pathlib.root s); [ easy | discriminate ].
  - rewrite format_parts by easy.
    assert (x <> "") as Hx by (apply Hps; now left).
    destruct root; [ | discriminate ].
    destruct x; [ easy | ]. destruct ps; discriminate.
Qed.

Lemma truediv_nonempty self key : Pathlib.truediv self key <> "".
Proof.
  unfold Pathlib.truediv, Pathlib.Path.
  destruct (Pathlib.is_absolute key) eqn:Habs.
  - apply (format_nonempty _ key); [ apply parts_count | ].
    right. split; [ reflexivity | now apply absolute_root ].
  - destruct (Pathlib.root self) eqn:Hr.
    + apply (format_nonempty _ self); [ | now left ].
      intros x Hx. apply in_app_or in Hx as [Hx | Hx];
        now apply parts_count in Hx.
    + intros H. unfold Pathlib.format in H.
      destruct (_ ++ _)%list; discriminate.
Qed.

(** A path that pathlib writes as it is given: [str(Path(s))] is [s]. *)
Definition verbatim (s : string) : Prop := Pathlib.Path s = s.

(** For a directory and a relative name that pathlib write as they are
    given, the directory being neither the current one nor a root, [/]
    puts the two together with a separator. *)
Lemma truediv_verbatim dir name :
  verbatim dir -> Pathlib.parts dir <> [] ->
  verbatim name -> Pathlib.is_absolute name = false -> name <> "." ->
  Pathlib.truediv dir name = (dir ++ "/" ++ name)%string.
Proof.
  unfold verbatim, Pathlib.truediv, Pathlib.Path.
  intros Hdir Hparts Hname Habs Hdot. rewrite Habs.
  rewrite (relative_root _ Habs) in Hname.
  assert (Pathlib.parts name <> []) as Hnparts.
  { intros H. rewrite H in Hname. cbn in Hname. congruence. }
  rewrite format_parts in Hname by exact Hnparts.
  rewrite format_parts in Hdir by exact Hparts.
  rewrite format_parts by (destruct (Pathlib.parts dir); easy).
  rewrite concat_app by assumption.
  change ("" ++ String.concat "/" (Pathlib.parts name))%string
    with (String.concat "/" (Pathlib.parts name)) in Hname.
  rewrite Hname. rewrite <- string_app_assoc. now rewrite Hdir.
Qed.

(** [screenshot] with a file name returns, if not None, the path
    [Path(default_output_dir) / filename], whether the screenshot was taken
    or came from the cache.  That is the file name itself, as pathlib
    writes it, when the name is absolute; and it is the name in the default
    output directory when the name is relative and both are written as
    pathlib writes them. *)
Theorem screenshot_returns_named_path url name p :
  name <> "" ->
  (Batch.screenshot cfg world url (Some name) start).1 = Return (Some p) ->
  p = Pathlib.truediv (default_output_dir cfg) name
  /\ (Pathlib.is_absolute name = true -> p = Pathlib.Path name)
  /\ (Pathlib.is_absolute name = true -> verbatim name -> p = name)
  /\ (Pathlib.is_absolute name = false ->
      verbatim (default_output_dir cfg) ->
      Pathlib.parts (default_output_dir cfg) <> [] ->
      verbatim name -> name <> "." ->
      p = (default_output_dir cfg ++ "/" ++ name)%string).
Proof.
  intros Hname Hrun.
  assert (p = Pathlib.truediv (default_output_dir cfg) name) as ->.
  { unfold Batch.screenshot in Hrun. destruct name as [ | a name ]; [ easy | ].
    revert Hrun. apply capture_returns_output_path; [ reflexivity | ].
    apply truediv_nonempty. }
  split_all.
  - reflexivity.
  - intros Habs. unfold Pathlib.truediv. now rewrite Habs.
  - intros Habs Hv. unfold Pathlib.truediv. now rewrite Habs.
  - intros Habs Hdir Hparts Hv Hdot. now apply truediv_verbatim.
Qed.

End returned_path_facts.

(** Pathlib on the paths of the examples: a relative name goes into the
    directory, an absolute one stands for itself, and empty components and
    dots are dropped. *)
Lemma truediv_examples :
  Pathlib.truediv "screenshots" "example.png" = "screenshots/example.png"
  /\ Pathlib.truediv "screenshots" "/tmp/x.png" = "/tmp/x.png"
  /\ Pathlib.truediv "screenshots" "./shots//x.png" = "screenshots/shots/x.png"
  /\ Pathlib.truediv "." "x.png" = "x.png"
  /\ Pathlib.truediv "/" "x.png" = "/x.png"
  /\ Pathlib.truediv "screenshots" "///tmp/x.png" = "/tmp/x.png"
  /\ Pathlib.truediv "screenshots" "//tmp/x.png" = "//tmp/x.png"
  /\ Pathlib.truediv "screenshots/" "." = "screenshots".
Proof. vm_compute. repeat split. Qed.

Lemma screenshot_returns_named_path_witness :
  (Batch.screenshot three_attempts (world_of (fun _ => obliging))
     example_url (Some "example.png") Capture.start).1
  = Return (Some "screenshots/example.png").
Proof.
  destruct (Batch.screenshot three_attempts (world_of (fun _ => obliging))
              example_url (Some "example.png") Capture.start).1
    as [[p | ] | e] eqn:Hrun; try (vm_compute in Hrun; discriminate).
  destruct (screenshot_returns_named_path three_attempts
              (world_of (fun _ => obliging)) example_url "example.png" p)
    as [H _]; [ discriminate | exact Hrun | ].
  rewrite H. reflexivity.
Defined.

(** ** core.py: batch_screenshots *)

Section batch_facts.

Import Core Batch.

Variable cfg : Settings.
Variable env : Surroundings.
Variable req : Request.

Local Abbreviation capture := (capture cfg env req).
Local Abbreviation captures := (captures cfg env req).
Local Abbreviation output_path := (output_path cfg env req).
Local Abbreviation batch_dir := (batch_dir cfg env req).
Local Abbreviation batch_screenshots := (batch_screenshots cfg env req).

Definition is_capture (st : step) : bool :=
  match st with
  | Captured _ _ _ => true
  | _ => false
  end.

Definition is_sleep (st : step) : bool :=
  match st with
  | Slept _ => true
  | _ => false
  end.

Definition captures_made (done : list step) : nat :=
  length (List.filter is_capture done).

Definition sleeps (done : list step) : nat :=
  length (List.filter is_sleep done).

(** *** Captures and pauses *)

Lemma captures_steps rest : forall i results done results' done',
  i + length rest = length (urls req) ->
  captures i rest results done = (Return results', done') ->
  exists added,
    done' = done ++ added
    /\ captures_made added = length rest
    /\ sleeps added
       = (if (0 <? delay_between req)%Z then length rest - 1 else 0)
    /\ (rest <> [] -> exists u p c, last added = Some (Captured u p c))
    /\ (rest = [] -> added = []).
Proof.
  induction rest as [ | u rest IH ]; intros i results done results' done' Hi.
  - cbn [Batch.captures]. intros [= <- <-]. exists []. rewrite app_nil_r.
    split_all; [ easy | easy | now destruct (_ <? _)%Z | congruence | easy ].
  - cbn [Batch.captures]. destruct (capture i u) as [[p | e] s];
      [ | discriminate ].
    cbn [length] in Hi.
    assert ((Z.of_nat i <? Z.of_nat (length (urls req)) - 1)%Z
            = negb (bool_decide (rest = []))) as ->.
    { destruct rest; cbn [length] in *.
      - rewrite bool_decide_eq_true_2 by easy. apply Z.ltb_ge. lia.
      - rewrite bool_decide_eq_false_2 by easy. apply Z.ltb_lt. lia. }
    set (here := Captured u (output_path i) (trace s)).
    destruct rest as [ | v rest ].
    + rewrite bool_decide_eq_true_2 by easy. cbn [negb andb Batch.captures].
      intros [= <- <-]. exists [here]. unfold captures_made, sleeps. cbn.
      split_all; eauto; [ now destruct (_ <? _)%Z | discriminate ].
    + rewrite bool_decide_eq_false_2 by easy. cbn [negb andb].
      intros Hrun.
      apply IH in Hrun as (added & -> & Hc & Hs & Hlast & _); [ | lia ].
      destruct Hlast as (u' & p' & c' & Hl); [ easy | ].
      assert (added <> []) as Hne by (intros ->; discriminate).
      unfold captures_made, sleeps in *.
      destruct (0 <? delay_between req)%Z.
      * exists (here :: Slept (delay_between req) :: added).
        rewrite <- !app_assoc.
        cbn [app List.filter is_capture is_sleep length here] in *.
        rewrite Hc, Hs. split_all; [ easy | easy | lia | | discriminate ].
        intros _. exists u', p', c'. destruct added; [ easy | exact Hl ].
      * exists (here :: added). rewrite <- !app_assoc.
        cbn [app List.filter is_capture is_sleep length here] in *.
        rewrite Hc, Hs. split_all; [ easy | easy | easy | | discriminate ].
        intros _. exists u', p', c'. destruct added; [ easy | exact Hl ].
Qed.

(** When every capture returns (a path or None), the call has made the
    directory first, then one capture for each url of the list, and,
    with a positive delay, has slept between two captures and not after
    the last one: one sleep less than there are urls.  With a delay that is
    not positive it does not sleep. *)
Theorem batch_pauses_between results :
  batch_screenshots.1 = Return results ->
  head batch_screenshots.2 = Some (MadeDirs batch_dir)
  /\ captures_made batch_screenshots.2 = length (urls req)
  /\ sleeps batch_screenshots.2
     = (if (0 <? delay_between req)%Z then length (urls req) - 1 else 0)
  /\ (forall ms, last batch_screenshots.2 <> Some (Slept ms)).
Proof.
  unfold Batch.batch_screenshots.
  destruct (on_make_dirs env); [ discriminate | ].
  destruct (captures 0 (urls req) [] [MadeDirs batch_dir])
    as [r done'] eqn:Hrun. cbn [fst snd]. intros ->.
  apply captures_steps in Hrun as (added & -> & Hc & Hs & Hlast & Hnil);
    [ | reflexivity ].
  split_all.
  - reflexivity.
  - exact Hc.
  - exact Hs.
  - intros ms. destruct (urls req) as [ | u l ].
    + rewrite Hnil by reflexivity. discriminate.
    + destruct Hlast as (u' & p' & c' & Hl); [ easy | ].
      destruct added; [ discriminate | ].
      cbn [app]. change (last (MadeDirs batch_dir :: s :: added))
        with (last (s :: added)). rewrite Hl. discriminate.
Qed.

(** *** The dictionary of results *)

Lemma dict_set_keys {V} (d : dict V) key v :
  map fst (dict_set d key v)
  = if bool_decide (key ∈ map fst d) then map fst d else map fst d ++ [key].
Proof.
  induction d as [ | [k w] d IH ]; [ easy | ].
  cbn [dict_set map fst]. destruct (decide (k = key)) as [-> | Hne].
  - rewrite bool_decide_eq_true_2 by reflexivity.
    rewrite bool_decide_eq_true_2 by (apply elem_of_cons; now left).
    reflexivity.
  - rewrite (bool_decide_eq_false_2 (k = key)) by exact Hne.
    cbn [map fst]. rewrite IH.
    assert (bool_decide (key ∈ k :: map fst d) = bool_decide (key ∈ map fst d))
      as ->.
    { apply bool_decide_ext. rewrite elem_of_cons. intuition congruence. }
    now destruct (bool_decide _).
Qed.

Lemma dict_get_set {V} (d : dict V) key v k :
  dict_get (dict_set d key v) k
  = if bool_decide (key = k) then Some v else dict_get d k.
Proof.
  induction d as [ | [k0 w0] d IH ]; cbn [dict_set dict_get]; [ easy | ].
  destruct (decide (k0 = key)) as [-> | Hne].
  - rewrite (bool_decide_eq_true_2 (key = key)) by reflexivity.
    cbn [dict_get]. now destruct (bool_decide (key = k)).
  - rewrite (bool_decide_eq_false_2 (k0 = key)) by exact Hne.
    cbn [dict_get]. rewrite IH.
    destruct (decide (k0 = k)) as [-> | Hk].
    + rewrite (bool_decide_eq_true_2 (k = k)) by reflexivity.
      now rewrite (bool_decide_eq_false_2 (key = k)) by congruence.
    + now rewrite (bool_decide_eq_false_2 (k0 = k)) by exact Hk.
Qed.

(** What the loop does to the dictionary. *)
Lemma captures_results rest : forall i results done results' done',
  captures i rest results done = (Return results', done') ->
  (forall u, u ∉ rest -> dict_get results' u = dict_get results u)
  /\ (forall j u,
        rest !! j = Some u ->
        (forall k, j < k -> rest !! k <> Some u) ->
        exists p, (capture (i + j) u).1 = Return p
                  /\ dict_get results' u = Some p)
  /\ (NoDup (map fst results ++ rest) ->
      map fst results' = map fst results ++ rest)
  /\ (NoDup (map fst results) -> NoDup (map fst results'))
  /\ length results' <= length results + length rest.
Proof.
  induction rest as [ | u rest IH ]; intros i results done results' done'.
  - cbn [Batch.captures]. intros [= <- <-]. split_all; auto.
    + intros j u Hj. discriminate.
    + now rewrite app_nil_r.
    + cbn. lia.
  - cbn [Batch.captures]. destruct (capture i u) as [[p | e] s] eqn:Hcap;
      [ | discriminate ].
    intros Hrun. apply IH in Hrun as (Hout & Hin & Hkeys & Hnd & Hlen).
    split_all.
    + intros v Hv. apply not_elem_of_cons in Hv as [Hne Hv].
      rewrite (Hout v Hv), dict_get_set.
      now rewrite bool_decide_eq_false_2 by congruence.
    + intros j v Hj Hlast. destruct j as [ | j ].
      * injection Hj as <-. exists p. rewrite Nat.add_0_r, Hcap.
        split; [ reflexivity | ].
        rewrite Hout, dict_get_set.
        -- now rewrite bool_decide_eq_true_2.
        -- intros Hmem. apply list_elem_of_lookup in Hmem as [k Hk].
           apply (Hlast (S k)); [ lia | exact Hk ].
      * cbn in Hj. replace (i + S j) with (S i + j) by lia.
        apply Hin; [ exact Hj | ].
        intros k Hk. apply (Hlast (S k)). lia.
    + intros Hdistinct. rewrite Hkeys.
      * rewrite dict_set_keys.
        rewrite bool_decide_eq_false_2; [ now rewrite <- app_assoc | ].
        apply NoDup_app in Hdistinct as (_ & Hdisj & _).
        intros Hmem. apply (Hdisj u Hmem). apply elem_of_cons. now left.
      * rewrite dict_set_keys.
        destruct (bool_decide (u ∈ map fst results)) eqn:Hmem.
        -- apply bool_decide_eq_true in Hmem.
           apply NoDup_app in Hdistinct as (_ & Hdisj & _).
           exfalso. apply (Hdisj u Hmem). apply elem_of_cons. now left.
        -- rewrite <- app_assoc. exact Hdistinct.
    + intros Hdistinct. apply Hnd. rewrite dict_set_keys.
      destruct (bool_decide (u ∈ map fst results)) eqn:Hmem; [ easy | ].
      apply bool_decide_eq_false in Hmem.
      apply NoDup_app. split_all; [ easy | | apply NoDup_singleton ].
      intros v Hv Hu. apply list_elem_of_singleton in Hu as ->. contradiction.
    + assert (length (dict_set results u p) <= S (length results)) as Hset.
      { clear. induction results as [ | [k w] d IH ]; cbn [dict_set length];
          [ lia | ].
        destruct (bool_decide _); cbn [length]; lia. }
      cbn [length]. lia.
Qed.

(** When every capture returns, the dictionary returned has one entry for
    each url of the list and none besides; its keys are distinct, and they
    are the urls in their order when no url is listed twice.  The value of
    a url is what the capture of that url returned, the last one when the
    url is listed more than once: the earlier results are overwritten. *)
Theorem batch_results results :
  batch_screenshots.1 = Return results ->
  (forall u, u ∉ urls req -> dict_get results u = None)
  /\ (forall i u,
        urls req !! i = Some u ->
        (forall k, i < k -> urls req !! k <> Some u) ->
        exists p, (capture i u).1 = Return p /\ dict_get results u = Some p)
  /\ (NoDup (urls req) -> map fst results = urls req)
  /\ NoDup (map fst results)
  /\ length results <= length (urls req).
Proof.
  unfold Batch.batch_screenshots.
  destruct (on_make_dirs env); [ discriminate | ].
  destruct (captures 0 (urls req) [] [MadeDirs batch_dir])
    as [r done'] eqn:Hrun. cbn [fst]. intros ->.
  apply captures_results in Hrun as (Hout & Hin & Hkeys & Hnd & Hlen).
  split_all.
  - intros u Hu. now rewrite Hout.
  - exact Hin.
  - intros Hdistinct. now apply Hkeys.
  - apply Hnd. constructor.
  - exact Hlen.
Qed.

(** *** A capture that raises *)

Lemma captures_abort rest : forall i results done k u e,
  rest !! k = Some u ->
  (forall j v, j < k -> rest !! j = Some v ->
               exists p, (capture (i + j) v).1 = Return p) ->
  (capture (i + k) u).1 = Raise e ->
  exists added,
    captures i rest results done
    = (Raise e,
       done ++ added
       ++ [Captured u (output_path (i + k)) (trace (capture (i + k) u).2)])
    /\ captures_made added = k.
Proof.
  induction rest as [ | v rest IH ]; intros i results done k u e Hk Hbefore He;
    [ discriminate | ].
  cbn [Batch.captures]. destruct k as [ | k ].
  - injection Hk as ->. rewrite Nat.add_0_r in *.
    destruct (capture i u) as [r s]. cbn [fst snd] in *. subst r.
    exists []. split; reflexivity.
  - cbn in Hk. destruct (Hbefore 0 v ltac:(lia) eq_refl) as [p Hp].
    rewrite Nat.add_0_r in Hp.
    destruct (capture i v) as [r s]. cbn [fst] in Hp. subst r.
    replace (i + S k) with (S i + k) in * by lia.
    match goal with
    | |- context [captures (S i) rest ?res ?dn] =>
        destruct (IH (S i) res dn k u e Hk) as (added & -> & Hc)
    end.
    + intros j w Hj Hw. replace (S i + j) with (i + S j) by lia.
      apply (Hbefore (S j)); [ lia | exact Hw ].
    + exact He.
    + destruct (_ && _).
      * exists (Captured v (output_path i) (trace s)
                :: Slept (delay_between req) :: added).
        rewrite <- !app_assoc. split; [ reflexivity | ].
        unfold captures_made in *. cbn. now rewrite Hc.
      * exists (Captured v (output_path i) (trace s) :: added).
        rewrite <- !app_assoc. split; [ reflexivity | ].
        unfold captures_made in *. cbn. now rewrite Hc.
Qed.


End batch_facts.

(** *** File names *)

Section batch_names.

Import Core Batch Json.

(** No character of [s] is [c]. *)
Fixpoint avoids (c : ascii) (s : string) : Prop :=
  match s with
  | EmptyString => True
  | String a rest => a <> c /\ avoids c rest
  end.

Lemma avoids_app c (a b : string) :
  avoids c a -> avoids c b -> avoids c (a ++ b).
Proof.
  induction a as [ | x a IH ]; app_norm; [ easy | ].
  cbn [avoids]. intros [Hx Ha] Hb. auto.
Qed.

(** Two strings without [c], each followed by [c], can be read back. *)
Lemma split_at c (s1 : string) : forall s2 t1 t2,
  avoids c s1 -> avoids c s2 ->
  (s1 ++ String c t1 = s2 ++ String c t2)%string ->
  s1 = s2 /\ t1 = t2.
Proof.
  induction s1 as [ | a s1 IH ]; intros [ | b s2 ] t1 t2 H1 H2;
    app_norm; intros H.
  - now injection H as ->.
  - exfalso. injection H as <- _. now destruct H2.
  - exfalso. injection H as -> _. now destruct H1.
  - apply String_eq in H as [-> H]. destruct H1 as [_ H1], H2 as [_ H2].
    apply IH in H as [-> ->]; auto.
Qed.

Lemma chars_ok_avoids s : chars_ok s -> avoids "_" s.
Proof.
  induction s as [ | a s IH ]; [ easy | ]. intros [Ha Hs].
  cbn [avoids]. split; [ | auto ].
  unfold is_digit_or_sign in Ha. cbn [In] in Ha.
  repeat (destruct Ha as [<- | Ha]; [ discriminate | ]). destruct Ha.
Qed.

Definition zeros (k : nat) : string :=
  string_of_list_ascii (repeat "0"%char k).

Lemma zeros_avoids k : avoids "_" (zeros k).
Proof.
  induction k as [ | k IH ]; [ easy | ]. cbn. split; [ discriminate | exact IH ].
Qed.

Lemma pad3_avoids i : avoids "_" (pad3 i).
Proof.
  unfold pad3. apply avoids_app; [ apply zeros_avoids | ].
  apply chars_ok_avoids, str_int_chars.
Qed.

(** The number a string of digits stands for. *)
Definition value (s : string) : option Z :=
  option_map Z.of_uint (NilEmpty.uint_of_string s).

Lemma value_zeros k s : value (zeros k ++ s) = value s.
Proof.
  induction k as [ | k IH ]; cbn [zeros repeat string_of_list_ascii];
    app_norm; [ reflexivity | ].
  fold (zeros k). rewrite <- IH. unfold value.
  cbn [NilEmpty.uint_of_string].
  now destruct (NilEmpty.uint_of_string (zeros k ++ s)).
Qed.

Lemma value_str_int i : value (str_int (Z.of_nat i)) = Some (Z.of_nat i).
Proof.
  unfold value, str_int. destruct (Z.of_nat i) as [ | p | p ] eqn:E;
    [ reflexivity | | lia ].
  cbn [Z.to_int NilZero.string_of_int]. unfold NilZero.string_of_uint.
  assert (NilEmpty.uint_of_string (NilEmpty.string_of_uint (Pos.to_uint p))
          = Some (Pos.to_uint p)) as Hread by apply NilEmpty.usu.
  destruct (Pos.to_uint p) eqn:Ep;
    [ now apply DecimalPos.Unsigned.to_uint_nonnil in Ep | .. ];
    rewrite Hread; cbn [option_map]; rewrite <- Ep; unfold Z.of_uint;
    now rewrite DecimalPos.Unsigned.of_to.
Qed.

Lemma pad3_inj i j : pad3 i = pad3 j -> i = j.
Proof.
  intros H. apply (f_equal value) in H. unfold pad3 in H.
  fold (zeros (3 - String.length (str_int (Z.of_nat i)))) in H.
  fold (zeros (3 - String.length (str_int (Z.of_nat j)))) in H.
  rewrite !value_zeros, !value_str_int in H. injection H. lia.
Qed.

(** The captures of one batch are written to different files: the output
    paths of two positions of the list differ, whatever the prefix, the
    directory and the clock are. *)
Theorem batch_output_paths_differ cfg env req i j :
  i <> j ->
  filename env req i <> filename env req j
  /\ output_path cfg env req i <> output_path cfg env req j.
Proof.
  intros Hne.
  assert (filename env req i <> filename env req j) as Hnames.
  { unfold filename. intros H.
    apply string_app_inv_head in H. revert H. app_norm. intros [= H].
    apply split_at in H as [H _]; try apply pad3_avoids.
    now apply pad3_inj in H. }
  split; [ exact Hnames | ].
  assert (Pathlib.is_absolute (filename env req i)
          = Pathlib.is_absolute (filename env req j)) as Habs.
  { unfold filename. destruct (name_prefix req); reflexivity. }
  unfold Batch.output_path, Cache.joinpath. rewrite Habs.
  destruct (Pathlib.is_absolute (filename env req j)); intros H;
    [ contradiction | ].
  apply string_app_inv_head in H. revert H. app_norm. intros [= H].
  contradiction.
Qed.

End batch_names.

(** ** config.py: reading back an update, and the environment *)

Section update_facts.

Import Config.

Variable object_attr : string -> bool.
Variable assign_error : string -> value -> option exn.

Local Abbreviation update_loop := (update_loop object_attr assign_error).
Local Abbreviation update := (update object_attr assign_error).

Lemma update_loop_returns self kwargs self' :
  update_loop self kwargs = (Return tt, self') ->
  self' = assign_all self kwargs.
Proof.
  revert self. induction kwargs as [ | [k v] kwargs IH ]; intros self.
  - cbn. now intros [= <-].
  - cbn [Config.update_loop]. destruct (hasattr object_attr self k);
      [ | discriminate ].
    unfold setattr. destruct (assign_error k v); [ discriminate | ].
    intros H. now apply IH in H.
Qed.

Lemma update_returns self kwargs self' :
  update self kwargs = (Return tt, self') ->
  self' = assign_all self kwargs.
Proof.
  unfold Config.update. destruct (names_self kwargs); [ discriminate | ].
  apply update_loop_returns.
Qed.

Lemma assign_all_other kwargs : forall (self : attrs) k,
  k ∉ map fst kwargs -> assign_all self kwargs !! k = self !! k.
Proof.
  induction kwargs as [ | [k0 v0] kwargs IH ]; intros self k Hk; [ easy | ].
  cbn [map fst] in Hk. apply not_elem_of_cons in Hk as [Hne Hk].
  cbn [assign_all fold_left fst snd].
  change (assign_all (<[k0 := v0]> self) kwargs !! k = self !! k).
  rewrite IH by exact Hk. now rewrite lookup_insert_ne.
Qed.

(** An update that returns has set every keyword to the value given and
    has left every other attribute as it was (the keywords of a call are
    distinct). *)
Theorem update_then_read self kwargs self' :
  NoDup (map fst kwargs) ->
  update self kwargs = (Return tt, self') ->
  (forall k v, (k, v) ∈ kwargs -> self' !! k = Some v)
  /\ (forall k, k ∉ map fst kwargs -> self' !! k = self !! k).
Proof.
  intros Hnd Hrun. apply update_returns in Hrun as ->.
  split; [ | intros k; apply assign_all_other ].
  revert self Hnd. induction kwargs as [ | [k0 v0] kwargs IH ];
    intros self Hnd k v Hin.
  - now apply elem_of_nil in Hin.
  - cbn [map fst] in Hnd. apply NoDup_cons in Hnd as [Hfresh Hnd].
    cbn [assign_all fold_left fst snd].
    change (assign_all (<[k0 := v0]> self) kwargs !! k = Some v).
    apply elem_of_cons in Hin as [[= -> ->] | Hin].
    + rewrite assign_all_other by exact Hfresh. apply lookup_insert_eq.
    + now apply IH.
Qed.

End update_facts.

(** The update of two known options on the defaults. *)
Lemma update_then_read_witness :
  let updated :=
    (Config.update (fun _ => false) (fun _ _ => None) Config.defaults
       [ ("headless", Config.VBool false);
         ("viewport_width", Config.VInt 1280) ]).2 in
  updated !! "viewport_width" = Some (Config.VInt 1280)
  /\ updated !! "timeout" = Config.defaults !! "timeout".
Proof.
  cbv zeta.
  destruct (update_then_read (fun _ => false) (fun _ _ => None)
              Config.defaults
              [ ("headless", Config.VBool false);
                ("viewport_width", Config.VInt 1280) ]
              (Config.update (fun _ => false) (fun _ _ => None)
                 Config.defaults
                 [ ("headless", Config.VBool false);
                   ("viewport_width", Config.VInt 1280) ]).2)
    as [Hset Hkept].
  - apply (bool_decide_unpack _). vm_compute. exact I.
  - reflexivity.
  - split.
    + apply Hset. rewrite !elem_of_cons. auto.
    + apply Hkept. apply (bool_decide_unpack _). vm_compute. exact I.
Defined.

Section env_facts.

Import Config.

Variable int_other : pystr -> outcome Z.
Variable lower_other : pystr -> pystr.

Local Abbreviation from_env :=
  (fun environ => from_env environ int_other lower_other).
Local Abbreviation number :=
  (fun environ => number environ int_other).
Local Abbreviation flag :=
  (fun environ => flag environ lower_other).

(** The variables [from_env] reads. *)
Definition variables : list string :=
  [ "BROWSER_HEADLESS"; "BROWSER_TIMEOUT"; "VIEWPORT_WIDTH";
    "VIEWPORT_HEIGHT"; "SCREENSHOT_CACHE"; "CACHE_DIR"; "CACHE_TTL_HOURS";
    "MAX_BROWSER_CONTEXTS"; "MAX_RETRIES"; "WAIT_UNTIL";
    "IGNORE_HTTPS_ERRORS" ].

(** The variables that hold numbers, with their defaults, in the order in
    which they are read. *)
Definition numbers : list (string * string) :=
  [ ("BROWSER_TIMEOUT", "30000"); ("VIEWPORT_WIDTH", "1920");
    ("VIEWPORT_HEIGHT", "1080"); ("CACHE_TTL_HOURS", "6");
    ("MAX_BROWSER_CONTEXTS", "3"); ("MAX_RETRIES", "2") ].

Ltac listed := cbn; auto 20.

Lemma from_env_agree environ environ' :
  (forall name, In name variables -> environ' name = environ name) ->
  from_env environ' = from_env environ.
Proof.
  intros H. unfold Config.from_env, Config.number, Config.flag, getenv.
  rewrite !H by listed. reflexivity.
Qed.

(** What [from_env] takes from the environment.  (1) With none of its
    eleven variables set it gives the defaults of the dataclass.  (2) No
    other variable matters.  (3) downloads_dir, default_output_dir and
    browser_args have their defaults whatever the environment holds.
    (4) A flag is on exactly when the value of its variable, lower-cased,
    is the word true; for a value in ASCII that is the word true in any
    mix of cases, and nothing else. *)
Theorem from_env_reads environ :
  ((forall name, In name variables -> environ name = None) ->
   from_env environ = Return default_config)
  /\ (forall environ',
        (forall name, In name variables -> environ' name = environ name) ->
        from_env environ' = from_env environ)
  /\ (forall c,
        from_env environ = Return c ->
        downloads_dir c = py "temp/downloads"
        /\ default_output_dir c = py "screenshots"
        /\ browser_args c = default_browser_args
        /\ headless c = flag environ "BROWSER_HEADLESS"
        /\ cache_enabled c = flag environ "SCREENSHOT_CACHE"
        /\ ignore_https_errors c = flag environ "IGNORE_HTTPS_ERRORS")
  /\ (forall name v,
        environ name = Some v ->
        forallb (fun c => (c <? 128)%N) v = true ->
        (flag environ name = true <-> map ascii_lower v = py "true")).
Proof.
  split_all.
  - intros Hunset.
    rewrite (from_env_agree (fun _ => None) environ)
      by (intros name Hname; now apply Hunset).
    vm_compute. reflexivity.
  - intros environ'. apply from_env_agree.
  - intros c. unfold Config.from_env.
    repeat match goal with
           | |- context [Config.number ?e ?i ?n ?d] =>
               destruct (Config.number e i n d); [ | discriminate ]
           end.
    intros [= <-]. cbn. split_all; reflexivity.
  - intros name v Hv Hascii. unfold Config.flag, getenv, lower.
    rewrite Hv, Hascii. apply bool_decide_eq_true.
Qed.

Ltac next_number Hsplit Hpre pre :=
  destruct pre as [ | [? ?] pre ]; cbn [app] in Hsplit;
  [ injection Hsplit as <- <- _
  | injection Hsplit as <- <- Hsplit;
    let n := fresh "n" in
    let Hn := fresh "Hn" in
    destruct (Hpre _ (or_introl eq_refl)) as [n Hn];
    cbn [fst snd] in Hn; rewrite Hn;
    assert (forall nd, In nd pre ->
                       exists n, number _ nd.1 nd.2 = Return n)
      as Hpre' by (intros nd Hin; apply Hpre; now right);
    clear Hpre; rename Hpre' into Hpre ].

(** A variable that holds no number.  The numbers are read in the order
    timeout, viewport width, viewport height, TTL, maximum of contexts,
    maximum of retries; the exception that [int] raises for the first
    value it refuses comes out of [from_env], and when [int] accepts all
    six values [from_env] returns. *)
Theorem from_env_numbers environ :
  (forall pre name default post e,
      numbers = pre ++ (name, default) :: post ->
      (forall nd, In nd pre ->
                  exists n, number environ nd.1 nd.2 = Return n) ->
      number environ name default = Raise e ->
      from_env environ = Raise e)
  /\ ((forall nd, In nd numbers ->
                  exists n, number environ nd.1 nd.2 = Return n) ->
      exists c, from_env environ = Return c).
Proof.
  split.
  - intros pre name default post e Hsplit Hpre Hbad.
    unfold numbers in Hsplit. unfold Config.from_env.
    next_number Hsplit Hpre pre; [ now rewrite Hbad | ].
    next_number Hsplit Hpre pre; [ now rewrite Hbad | ].
    next_number Hsplit Hpre pre; [ now rewrite Hbad | ].
    next_number Hsplit Hpre pre; [ now rewrite Hbad | ].
    next_number Hsplit Hpre pre; [ now rewrite Hbad | ].
    next_number Hsplit Hpre pre; [ now rewrite Hbad | ].
    destruct pre; discriminate.
  - intros Hall. unfold Config.from_env.
    repeat match goal with
           | |- context [Config.number ?e ?i ?n ?d] =>
               let x := fresh "x" in
               let Hx := fresh "Hx" in
               destruct (Hall (n, d) ltac:(listed)) as [x Hx];
               cbn [fst snd] in Hx; rewrite Hx
           end.
    eexists. reflexivity.
Qed.

End env_facts.

(** An environment that asks for a window by BROWSER_HEADLESS=1 and gives
    a width that is no number. *)
Definition odd_environ (name : string) : option pystr :=
  if String.eqb name "VIEWPORT_WIDTH" then Some (py "wide")
  else if String.eqb name "MAX_RETRIES" then Some (py "many")
  else None.

Definition refuses (s : pystr) : outcome Z :=
  Raise (ValueError (py "invalid literal for int() with base 10: '"
                     ++ s ++ py "'")).

Lemma from_env_numbers_witness :
  Config.from_env odd_environ refuses (fun s => s)
  = Raise (ValueError (py "invalid literal for int() with base 10: 'wide'")).
Proof.
  destruct (from_env_numbers refuses (fun s => s) odd_environ) as [H _].
  apply (H [("BROWSER_TIMEOUT", "30000")] "VIEWPORT_WIDTH" "1920"
           [ ("VIEWPORT_HEIGHT", "1080"); ("CACHE_TTL_HOURS", "6");
             ("MAX_BROWSER_CONTEXTS", "3"); ("MAX_RETRIES", "2") ]).
  - reflexivity.
  - intros nd [<- | []]. exists 30000%Z. vm_compute. reflexivity.
  - vm_compute. reflexivity.
Defined.

(** ** cli.py: the urls of a batch file, and how the program ends *)

Section cli_facts.

Import Core Cli.

(** *** The batch file *)

Lemma lstrip_head s :
  match Extract.lstrip s with
  | [] => True
  | c :: _ => Extract.is_space c = false
  end.
Proof.
  induction s as [ | c s IH ]; [ easy | ]. cbn [Extract.lstrip].
  destruct (Extract.is_space c) eqn:Hc; [ exact IH | exact Hc ].
Qed.

Lemma lstrip_last s :
  Extract.lstrip s <> [] -> last (Extract.lstrip s) = last s.
Proof.
  induction s as [ | c s IH ]; [ easy | ]. cbn [Extract.lstrip].
  destruct (Extract.is_space c); [ | easy ].
  intros Hne. rewrite IH by exact Hne.
  destruct s; [ now cbn in Hne | reflexivity ].
Qed.

Lemma head_rev {A} (l : list A) : head (rev l) = last l.
Proof.
  destruct l as [ | a l _ ] using rev_ind; [ easy | ].
  now rewrite rev_app_distr, last_snoc.
Qed.

Lemma last_rev {A} (l : list A) : last (rev l) = head l.
Proof. now rewrite <- head_rev, rev_involutive. Qed.

(** What [strip] gives is empty or has no white space at either end. *)
Lemma strip_ends s :
  Extract.strip s = []
  \/ exists c d,
       head (Extract.strip s) = Some c /\ Extract.is_space c = false
       /\ last (Extract.strip s) = Some d /\ Extract.is_space d = false.
Proof.
  unfold Extract.strip.
  pose proof (lstrip_head s) as Hc.
  pose proof (lstrip_head (rev (Extract.lstrip s))) as Hd.
  pose proof (lstrip_last (rev (Extract.lstrip s))) as Hlast.
  rewrite last_rev in Hlast.
  destruct (Extract.lstrip s) as [ | c y' ]; [ now left | ].
  destruct (Extract.lstrip (rev (c :: y'))) as [ | d z' ];
    [ now left | right ].
  specialize (Hlast ltac:(discriminate)).
  exists c, d. rewrite head_rev, Hlast, last_rev. auto.
Qed.

(** The line is kept. *)
Definition kept (line : pystr) : bool :=
  BrowserManager.truthy line && negb (starts_with_hash line).

Lemma read_urls_filter lines :
  read_urls lines = List.filter kept (map Extract.strip lines).
Proof.
  unfold read_urls.
  assert (forall acc,
    fold_left
      (fun urls line =>
         let line := Extract.strip line in
         if BrowserManager.truthy line && negb (starts_with_hash line)
         then urls ++ [line] else urls) lines acc
    = acc ++ List.filter kept (map Extract.strip lines)) as H.
  { induction lines as [ | line lines IH ]; intros acc;
      cbn [fold_left map List.filter]; [ now rewrite app_nil_r | ].
    rewrite IH. unfold kept at 2. cbv zeta.
    destruct (_ && _); [ now rewrite <- app_assoc | reflexivity ]. }
  apply (H []).
Qed.

(** The urls read from a batch file are the lines of the file, stripped,
    in their order, without those that are empty or begin with a hash
    sign once stripped (a comment may be indented).  So no url is empty,
    none begins with a hash sign, and none has white space at either
    end. *)
Theorem batch_file_urls lines :
  read_urls lines = List.filter kept (map Extract.strip lines)
  /\ (forall u,
        In u (read_urls lines) ->
        u <> []
        /\ head u <> Some 35%N
        /\ (exists c d, head u = Some c /\ Extract.is_space c = false
                        /\ last u = Some d /\ Extract.is_space d = false)
        /\ exists line, In line lines /\ u = Extract.strip line).
Proof.
  split; [ apply read_urls_filter | ].
  intros u. rewrite read_urls_filter, filter_In, in_map_iff.
  intros [(line & <- & Hline) Hkept].
  unfold kept in Hkept. apply andb_true_iff in Hkept as [Hne Hhash].
  assert (Extract.strip line <> []) as Hne'.
  { intros E. rewrite E in Hne. discriminate. }
  split_all.
  - exact Hne'.
  - intros Hh. destruct (Extract.strip line) as [ | c t ]; [ easy | ].
    injection Hh as ->. discriminate.
  - destruct (strip_ends line) as [E | H]; [ contradiction | exact H ].
  - eauto.
Qed.

(** *** How the program ends *)

Variable cfg : Settings.
Variable env : Surroundings.

Local Abbreviation main := (main cfg env).

Lemma main_both args file :
  Capture.str_truthy (url args) = true -> batch args = Some file ->
  main args = mkSession [] [] (ParserError "Cannot specify both URL and --batch").
Proof.
  intros Hu Hb. unfold Cli.main. rewrite Hu, Hb.
  now rewrite bool_decide_eq_true_2 by eauto.
Qed.

Lemma main_neither args :
  Capture.str_truthy (url args) = false -> batch args = None ->
  main args = mkSession [] [] (ParserError "Either URL or --batch is required").
Proof.
  intros Hu Hb. unfold Cli.main. rewrite Hu, Hb.
  now rewrite bool_decide_eq_false_2 by (intros [? ?]; discriminate).
Qed.

Lemma main_single args :
  Capture.str_truthy (url args) = true -> batch args = None ->
  main args = single_mode cfg env args.
Proof.
  intros Hu Hb. unfold Cli.main. rewrite Hu, Hb.
  now rewrite bool_decide_eq_false_2 by (intros [? ?]; discriminate).
Qed.

Lemma main_batch args file :
  Capture.str_truthy (url args) = false -> batch args = Some file ->
  main args = batch_mode cfg env args file.
Proof.
  intros Hu Hb. unfold Cli.main. rewrite Hu, Hb.
  now rewrite bool_decide_eq_true_2 by eauto.
Qed.

Lemma single_mode_status args :
  In (status (finish (single_mode cfg env args))) [0; 1]%Z.
Proof.
  unfold single_mode.
  destruct (Capture.capture_screenshot _ _ _ _).1 as [[path | ] | e];
    cbn; auto 10.
Qed.

Lemma batch_mode_status args file :
  In (status (finish (batch_mode cfg env args file))) [0; 1]%Z.
Proof.
  unfold batch_mode.
  destruct (batch_file env) as [[lines | e] | ]; [ | cbn; auto 10 .. ].
  destruct (BrowserManager.truthy (read_urls lines));
    cbn [negb]; [ | cbn; auto 10 ].
  destruct (Batch.batch_screenshots _ _ _).1; cbn; auto 10.
Qed.


End cli_facts.

(** ** The further properties at work *)

(** *** The pool *)

(** With a maximum of one context, two calls in a row leave one context
    tracked. *)
Lemma pool_cap_invariant_witness :
  let first :=
    (BrowserManager.get_context 1 BrowserManager.engine_ok
       BrowserManager.initial).2 in
  let second :=
    (BrowserManager.get_context 1 BrowserManager.engine_ok first).2 in
  (Z.of_nat (length (BrowserManager.contexts second)) <= 1)%Z.
Proof.
  cbv zeta. apply (pool_cap_invariant 1); [ lia | ].
  eapply rtc_l; [ apply BrowserManager.step_get_context | ].
  apply rtc_once, BrowserManager.step_get_context.
Defined.

Lemma get_context_returns_witness :
  exists ctx,
    (BrowserManager.get_context 1 BrowserManager.engine_ok
       BrowserManager.initial).1 = Return ctx.
Proof. apply (get_context_returns 1 BrowserManager.initial). lia. Defined.

(** Two contexts, with two pages and with one, and a maximum of two: the
    call returns a tracked context and creates none. *)
Lemma get_context_least_loaded_witness :
  let self :=
    BrowserManager.mkManager true true
      [ BrowserManager.mkContext 0 [1; 2]; BrowserManager.mkContext 1 [3] ]
      2 in
  exists ctx,
    BrowserManager.get_context 2 BrowserManager.engine_ok self
    = (Return ctx, self)
    /\ In ctx (BrowserManager.contexts self)
    /\ Forall (fun c => length (BrowserManager.pages ctx)
                        <= length (BrowserManager.pages c))
              (BrowserManager.contexts self).
Proof.
  cbv zeta.
  apply (get_context_least_loaded 2 BrowserManager.engine_ok).
  - repeat constructor; discriminate.
  - simpl. lia.
  - discriminate.
Defined.

Definition no_executable : exn :=
  PlaywrightError (py "Executable doesn't exist").

(** The browser cannot be launched: the first call raises BrowserError. *)
Lemma get_context_launch_failure_witness :
  (BrowserManager.get_context 3
     (BrowserManager.mkEngine None (Some no_executable) None)
     BrowserManager.initial).1
  = Raise (BrowserError
             (py "Failed to launch browser: Executable doesn't exist")).
Proof.
  destruct (get_context_launch_failure 3
              (BrowserManager.mkEngine None (Some no_executable) None)
              BrowserManager.initial no_executable)
    as (_ & H & _).
  - reflexivity.
  - simpl. lia.
  - right. split; reflexivity.
  - apply H. reflexivity.
Defined.

Definition quiet_closing : BrowserManager.Closing :=
  BrowserManager.mkClosing (fun _ => None) None None.

Lemma reset_restarts_witness :
  let self :=
    BrowserManager.mkInstance true
      (BrowserManager.mkManager true true [BrowserManager.mkContext 0 [7]] 1)
      1 in
  BrowserManager.registered (BrowserManager.reset quiet_closing self).2 = 2
  /\ BrowserManager.manager (BrowserManager.reset quiet_closing self).2
     = BrowserManager.mkManager false false [] 1.
Proof.
  cbv zeta.
  destruct (reset_restarts 3 quiet_closing
              (BrowserManager.mkInstance true
                 (BrowserManager.mkManager true true
                    [BrowserManager.mkContext 0 [7]] 1) 1))
    as (_ & _ & H1 & H2 & _); [ lia | ].
  split; [ exact H1 | exact H2 ].
Defined.

(** The first context of a pool, left without pages, is dropped by the
    second call and not closed by a cleanup that follows. *)
Lemma dropped_context_never_closed_witness :
  let first :=
    (BrowserManager.get_context 3 BrowserManager.engine_ok
       BrowserManager.initial).2 in
  let second :=
    (BrowserManager.get_context 3 BrowserManager.engine_ok first).2 in
  ~ In 0 (tracked_ids second)
  /\ ~ In (BrowserManager.CloseContext 0)
          (BrowserManager.calls
             (BrowserManager.cleanup quiet_closing second).1).
Proof.
  cbv zeta.
  apply (dropped_context_never_closed 3 quiet_closing BrowserManager.engine_ok
           (BrowserManager.get_context 3 BrowserManager.engine_ok
              BrowserManager.initial).2
           (BrowserManager.mkContext 0 [])).
  - apply rtc_once, BrowserManager.step_get_context.
  - left. reflexivity.
  - reflexivity.
  - apply rtc_refl.
Defined.

(** *** The cache *)


(** A cache made from an empty disk stores a screenshot; a cache made from
    the disk afterwards holds the entry, with the file name and the time
    under which it was stored. *)
Lemma index_survives_restart_witness :
  let d := Cache.mkDisk {[ "shot.png" := "PNG" ]} None 0 in
  let r := Cache.save_to_cache example_cfg Cache.no_faults 0 example_url
             "shot.png" example_options empty_cache d in
  exists self' e',
    Cache.__init__ "cache/screenshots" None None r.2 = Return self'
    /\ Cache.metadata self' !! example_key = Some e'
    /\ Cache.filename e' = "5d4c2f308a4d26e0abd2a78c8863fe08.png"
    /\ Cache.timestamp e' = 0%Z.
Proof.
  cbv zeta.
  destruct (index_survives_restart "cache/screenshots"
              (Cache.mkDisk {[ "shot.png" := "PNG" ]} None 0) empty_cache
              (Cache.save_to_cache example_cfg Cache.no_faults 0 example_url
                 "shot.png" example_options empty_cache
                 (Cache.mkDisk {[ "shot.png" := "PNG" ]} None 0)).1.2
              (Cache.save_to_cache example_cfg Cache.no_faults 0 example_url
                 "shot.png" example_options empty_cache
                 (Cache.mkDisk {[ "shot.png" := "PNG" ]} None 0)).2)
    as (self' & Hinit & _ & _ & Hentry & _).
  - reflexivity.
  - apply rtc_once.
    apply (step_store example_cfg Cache.no_faults 0 example_url "shot.png"
             example_options empty_cache
             (Cache.mkDisk {[ "shot.png" := "PNG" ]} None 0)).
    reflexivity.
  - destruct (Hentry example_key example_entry) as (e' & He' & Hf & Ht & _).
    + vm_compute. reflexivity.
    + exists self', e'. split; [ exact Hinit | ]. split; [ exact He' | ].
      split; [ rewrite Hf | rewrite Ht ]; reflexivity.
Defined.

(** *** capture_screenshot *)

(** With three attempts allowed, the first finds no context and the second
    works: the call returns the path after two attempts. *)
Lemma success_ends_retries_witness :
  let world := world_of (fun k => match k with
                                  | 0 => no_context
                                  | _ => obliging
                                  end) in
  let r := Capture.capture_screenshot three_attempts world plain_request
             Capture.start in
  r.1 = Return (Some "out.png")
  /\ attempts_made (Core.trace r.2) = 2
  /\ closes_pages (Core.trace r.2) = true.
Proof.
  cbv zeta.
  apply (success_ends_retries three_attempts
           (world_of (fun k => match k with
                               | 0 => no_context
                               | _ => obliging
                               end)) plain_request 1).
  - split; [ now left | reflexivity ].
  - vm_compute. lia.
  - intros j Hj. assert (j = 0) as -> by lia.
    exists flaky. split; [ intros s; reflexivity | reflexivity ].
  - intros s. reflexivity.
Defined.

Definition never_appears : exn := PlaywrightError (py "Timeout 5000ms exceeded").

(** A page on which the second of three selectors never appears. *)
Definition slow_page : Core.Responses :=
  Core.mkResponses None None None
    (fun i _ => match i with 1 => Some never_appears | _ => None end)
    None (Return true) (fun _ => Return []) None None None.

Definition waiting_request : Capture.Request :=
  Capture.mkRequest example_url (Some "out.png") true None
    (Capture.WaitAll [py ".header"; py ".chart"; py ".footer"])
    5000 false 0 false None.

Lemma wait_timeout_stops_witness :
  Capture.capture_screenshot three_attempts (world_of (fun _ => slow_page))
    waiting_request Capture.start
  = (Raise (TimeoutError (py "Timeout waiting for selector: .chart")),
     Core.mkRun (Some 0)
       [ Core.MakeParentDirs "out.png"; Core.GetContext;
         Core.NewPage None (Some 0); Core.Goto 0 example_url;
         Core.WaitForSelector 0 (py ".header") 5000;
         Core.WaitForSelector 0 (py ".chart") 5000;
         Core.ClosePage 0 ]
       tt).
Proof.
  apply (wait_timeout_stops three_attempts (world_of (fun _ => slow_page))
           waiting_request [py ".header"] (py ".chart") [py ".footer"]
           never_appears).
  - split; [ now left | reflexivity ].
  - vm_compute. lia.
  - repeat split.
  - reflexivity.
  - intros [ | j ] sel Hj; [ reflexivity | discriminate ].
  - reflexivity.
  - reflexivity.
Defined.

(** A page on which the selector matches nothing. *)
Definition bare_page : Core.Responses :=
  Core.mkResponses None None None (fun _ _ => None) None (Return false)
    (fun _ => Return []) None None None.

Definition element_request : Capture.Request :=
  Capture.mkRequest example_url (Some "out.png") true (Some (py ".missing"))
    Capture.NoWait 5000 false 0 false None.

Lemma screenshot_step_errors_witness :
  Capture.capture_screenshot three_attempts (world_of (fun _ => bare_page))
    element_request Capture.start
  = (Raise (ElementNotFoundError (py "Selector '.missing' not found")),
     Core.mkRun (Some 0)
       [ Core.MakeParentDirs "out.png"; Core.GetContext;
         Core.NewPage None (Some 0); Core.Goto 0 example_url;
         Core.QuerySelector 0 (py ".missing"); Core.ClosePage 0 ]
       tt).
Proof.
  destruct (screenshot_step_errors three_attempts
              (world_of (fun _ => bare_page)) element_request)
    as (H & _).
  - split; [ now left | reflexivity ].
  - vm_compute. lia.
  - repeat split.
  - apply (H (py ".missing")); reflexivity.
Defined.

Lemma capture_first_attempt_succeeds_witness :
  Capture.capture_screenshot three_attempts (world_of (fun _ => obliging))
    plain_request Capture.start
  = (Return (Some "out.png"),
     Core.mkRun (Some 0)
       [ Core.MakeParentDirs "out.png"; Core.GetContext;
         Core.NewPage None (Some 0); Core.Goto 0 example_url;
         Core.PageScreenshot 0 "out.png" true; Core.ClosePage 0 ]
       tt).
Proof.
  apply (capture_first_attempt_succeeds three_attempts
           (world_of (fun _ => obliging)) plain_request).
  - split; [ now left | reflexivity ].
  - vm_compute. lia.
  - repeat split.
  - reflexivity.
  - discriminate.
Defined.

(** *** batch_screenshots *)

Definition two_pages : Batch.Request :=
  Batch.mkRequest [py "https://example.com/a"; py "https://example.com/b"]
                  (Some "shots") true false 2000 "screenshot".

Definition calm : Batch.Surroundings :=
  Batch.mkSurroundings 0 None (fun _ => world_of (fun _ => obliging)).

(** A batch of two pages sleeps once, between the captures. *)
Lemma batch_pauses_between_witness :
  sleeps (Batch.batch_screenshots three_attempts calm two_pages).2 = 1
  /\ captures_made (Batch.batch_screenshots three_attempts calm two_pages).2
     = 2.
Proof.
  destruct (batch_pauses_between three_attempts calm two_pages
              [ (py "https://example.com/a",
                 Some "shots/screenshot_000_0.png");
                (py "https://example.com/b",
                 Some "shots/screenshot_001_0.png") ])
    as (_ & Hc & Hs & _).
  - vm_compute. reflexivity.
  - split; [ exact Hs | exact Hc ].
Defined.

Lemma batch_results_witness :
  map fst [ (py "https://example.com/a", Some "shots/screenshot_000_0.png");
            (py "https://example.com/b", Some "shots/screenshot_001_0.png") ]
  = Batch.urls two_pages.
Proof.
  destruct (batch_results three_attempts calm two_pages
              [ (py "https://example.com/a",
                 Some "shots/screenshot_000_0.png");
                (py "https://example.com/b",
                 Some "shots/screenshot_001_0.png") ])
    as (_ & _ & H & _).
  - vm_compute. reflexivity.
  - apply H. apply (bool_decide_unpack _). vm_compute. exact I.
Defined.


Lemma batch_output_paths_differ_witness :
  Batch.output_path three_attempts calm two_pages 0
  <> Batch.output_path three_attempts calm two_pages 1.
Proof.
  apply (batch_output_paths_differ three_attempts calm two_pages 0 1). lia.
Defined.
